(** * Artifact hosting agent: the web server's URL policy, the HTML
      reference rewriter and the tool-facing hosting operation

    A shallow embedding of
    [artifact-host-agent/src/artifact_host_agent/web_server.py] and
    [artifact-host-agent/src/artifact_host_agent/tools.py].

    Python [str] values are sequences of Unicode code points, so they are
    modelled as [list N]; [bytes] values are [list N] too, every element
    below 256.  Dictionaries used as maps are stdpp [gmap]s, dictionaries
    whose insertion order is observed are association lists.  The artifact
    service, the file system and the builtin [int] are collaborators of the
    program: they are Section variables, threaded through an explicit
    state, and every call to them is recorded in a trace. *)

From Stdlib Require Import ZArith NArith List Ascii String DecimalString Lia Bool.
From stdpp Require Import base option list gmap sorting.

Import ListNotations.
Local Open Scope list_scope.

(* ===================================================================== *)
(** ** Python strings *)
(* ===================================================================== *)

Module PyStr.

(** A [str] is a list of code points. *)
Abbreviation str := (list N).

(** An ASCII literal of the source, as a [str]. *)
Definition lit (s : string) : str :=
  List.map N_of_ascii (list_ascii_of_string s).

Definition eqb (a b : str) : bool := bool_decide (a = b).

(** [c in s] for a one-character [c]. *)
Definition contains (c : N) (s : str) : bool :=
  existsb (N.eqb c) s.

(** [str.isspace] on one code point: the table of CPython's
    [_PyUnicode_IsWhitespace], which is also what [\s] of [re] uses on
    [str] patterns and what [str.strip()] removes. *)
Definition is_space (c : N) : bool :=
  ((9 <=? c) && (c <=? 13) || (28 <=? c) && (c <=? 32)
   || (c =? 133) || (c =? 160) || (c =? 5760)
   || (8192 <=? c) && (c <=? 8202)
   || (c =? 8232) || (c =? 8233) || (c =? 8239) || (c =? 8287)
   || (c =? 12288))%N.

Fixpoint drop_while (p : N -> bool) (s : str) : str :=
  match s with
  | c :: s' => if p c then drop_while p s' else s
  | [] => []
  end.

Definition lstrip_by (p : N -> bool) (s : str) : str := drop_while p s.
Definition rstrip_by (p : N -> bool) (s : str) : str :=
  rev (drop_while p (rev s)).

(** [s.strip()] *)
Definition strip (s : str) : str := lstrip_by is_space (rstrip_by is_space s).

(** [s.rstrip(chars)] *)
Definition rstrip (chars : str) (s : str) : str :=
  rstrip_by (fun c => contains c chars) s.

(** [s.rsplit(sep, 1)] for a one-character separator: the text before the
    last separator and, when there is a separator, the text after it
    ([parts[0]] and [parts[1] if len(parts) > 1 else None]). *)
Fixpoint rsplit1 (sep : N) (s : str) : str * option str :=
  match s with
  | [] => ([], None)
  | c :: s' =>
      match rsplit1 sep s' with
      | (b, Some a) => (c :: b, Some a)
      | (b, None) => if (c =? sep)%N then ([], Some s') else (c :: b, None)
      end
  end.

(** [s.endswith(suffix)] *)
Fixpoint is_prefix (p s : str) : bool :=
  match p, s with
  | [], _ => true
  | a :: p', b :: s' => (a =? b)%N && is_prefix p' s'
  | _ :: _, [] => false
  end.

Definition endswith (s suffix : str) : bool := is_prefix (rev suffix) (rev s).

(** [s.lower()] on the ASCII letters.  The code only tests the lowered
    name against the suffixes [.html] and [.htm]; no case mapping of a
    non-ASCII code point produces one of the characters [.], [h], [t],
    [m], [l], so that test does not depend on them. *)
Definition lower_char (c : N) : N :=
  if ((65 <=? c) && (c <=? 90))%N then (c + 32)%N else c.
Definition lower (s : str) : str := List.map lower_char s.

(** [str(i)] / [f"{i}"] for an [int]. *)
Definition of_int (z : Z) : str := lit (NilZero.string_of_int (Z.to_int z)).

(** Truthiness of an [Optional[str]]: [None] and the empty string are
    false. *)
Definition truthy (o : option str) : bool :=
  match o with
  | Some (_ :: _) => true
  | _ => false
  end.

End PyStr.
Import PyStr.

(* ===================================================================== *)
(** ** web_server.py *)
(* ===================================================================== *)

(** The attributes of [ArtifactWebServer] that the tools read; the thread
    handle is an index into the thread table of [Threads] below. *)
Record ArtifactWebServer := {
  host_directory : str;
  port : Z;
  host : str;
  server_thread : option nat
}.

(** [ArtifactWebServer.get_url] *)
Definition get_url (self : ArtifactWebServer) (filename : str)
    (base_url : option str) : str :=
  if truthy base_url
  then rstrip (lit "/") (default [] base_url) ++ lit "/" ++ filename
  else lit "http://" ++ host self ++ lit ":" ++ of_int (port self)
         ++ lit "/" ++ filename.

(** Records of the [logging] module written by the calling thread. *)
Inductive log_level := DEBUG | INFO | WARNING | ERROR.

Module Server.

(** The server object together with the part of the process it acts on:
    the threads created so far, each alive or finished (a [Thread]'s
    [is_alive()]), and the log.  [server_thread] of the object is an
    index into [threads]. *)
Record state := {
  self : ArtifactWebServer;
  threads : list bool;
  log : list (log_level * str)
}.

Definition is_alive (st : state) (t : nat) : bool :=
  List.nth t (threads st) false.

Definition running (st : state) : bool :=
  match server_thread (self st) with
  | Some t => is_alive st t
  | None => false
  end.

(** [ArtifactWebServer.start]: the guard, then
    [threading.Thread(target=run_server, daemon=True)] and its
    [start()], after which the new thread is alive. *)
Definition start (st : state) : state :=
  if running st
  then {| self := self st;
          threads := threads st;
          log := log st
                 ++ [(WARNING, lit "[ArtifactWebServer] Server is already running")] |}
  else {| self := {| host_directory := host_directory (self st);
                     port := port (self st);
                     host := host (self st);
                     server_thread := Some (length (threads st)) |};
          threads := threads st ++ [true];
          log := log st
                 ++ [(INFO, lit "[ArtifactWebServer] Server started on http://"
                              ++ host (self st) ++ lit ":"
                              ++ of_int (port (self st)))] |}.

(** The number of listener threads that are running. *)
Definition listeners (st : state) : nat :=
  length (List.filter (fun alive : bool => alive) (threads st)).

(** [ArtifactWebServer.stop]: it only writes to the log. *)
Definition stop (st : state) : state :=
  {| self := self st;
     threads := threads st;
     log := log st
            ++ [(INFO, lit "[ArtifactWebServer] Server shutdown requested (daemon thread will stop with process)")] |}.

(** A method call on the server object, and a sequence of them made one
    after the other by one caller. *)
Inductive method := Start | Stop.

Definition is_start (m : method) : bool :=
  match m with Start => true | Stop => false end.

Definition invoke (st : state) (m : method) : state :=
  match m with
  | Start => start st
  | Stop => stop st
  end.

Definition calls (ms : list method) (st : state) : state :=
  List.fold_left invoke ms st.

End Server.

(** *** The size column of the directory listing (lines 50-55) *)

Module SizeDisplay.

(** A binary64 value [mant * 2 ^ expo]. *)
Record float := { mant : Z; expo : Z }.

(** The float nearest to a non-negative [int], ties to even: exact below
    [2 ^ 53]. *)
Definition of_int_nearest (n : Z) : float :=
  if (n <? 2 ^ 53)%Z then {| mant := n; expo := 0 |}
  else
    let e := (Z.log2 n - 52)%Z in
    let q := (n / 2 ^ e)%Z in
    let r := (n mod 2 ^ e)%Z in
    let half := (2 ^ (e - 1))%Z in
    let m := if ((half <? r) || ((r =? half) && Z.odd q))%Z
             then (q + 1)%Z else q in
    {| mant := m; expo := e |}.

(** [n / 2 ** k] of two [int]s (true division): the correctly rounded
    quotient; dividing by a power of two only moves the exponent. *)
Definition true_div_pow2 (n k : Z) : float :=
  let f := of_int_nearest n in
  {| mant := mant f; expo := (expo f - k)%Z |}.

(** The value as a fraction [numerator / denominator]. *)
Definition numerator (f : float) : Z :=
  if (0 <=? expo f)%Z then (mant f * 2 ^ expo f)%Z else mant f.
Definition denominator (f : float) : Z :=
  if (0 <=? expo f)%Z then 1%Z else (2 ^ (- expo f))%Z.

(** [f >= 1] *)
Definition ge_one (f : float) : bool := (denominator f <=? numerator f)%Z.

(** [p / q] rounded to an integer, ties to even. *)
Definition round_half_even (p q : Z) : Z :=
  let f := (p / q)%Z in
  let r := (p mod q)%Z in
  if ((q <? 2 * r) || ((2 * r =? q) && Z.odd f))%Z then (f + 1)%Z else f.

(** The digits [X.XX] of a number of hundredths. *)
Definition hundredths_to_str (h : Z) : str :=
  of_int (h / 100)
  ++ lit "."
  ++ (if (h mod 100 <? 10)%Z then lit "0" else [])
  ++ of_int (h mod 100).

(** [f"{x:.2f}"] of a non-negative float: the decimal with two digits
    nearest to the exact value, ties to even. *)
Definition format_2f (f : float) : str :=
  hundredths_to_str (round_half_even (100 * numerator f) (denominator f)).

(** The value of ['size_display'] for a file of [size_bytes] bytes. *)
Definition size_display (size_bytes : Z) : str :=
  let size_mb := true_div_pow2 size_bytes 20 in
  if ge_one size_mb then format_2f size_mb ++ lit " MB"
  else format_2f (true_div_pow2 size_bytes 10) ++ lit " KB".

(** What the listing is said to show: [n / d] to two decimals. *)
Definition two_decimals (n d : Z) : str :=
  hundredths_to_str (round_half_even (100 * n) d).

End SizeDisplay.

(** *** The rows of the directory listing (lines 46-56) *)

Module Listing.

(** One entry of [host_directory.iterdir()] as the route reads it: its
    [name], [is_file()] and [stat().st_size]. *)
Record dir_entry := {
  entry_name : str;
  is_file : bool;
  st_size : Z
}.

(** One element of [files]. *)
Record file_row := {
  row_name : str;
  row_size_bytes : Z;
  row_size_display : str
}.

(** [a < b] on [str]: code points compared from the left, a proper prefix
    before what it is a prefix of. *)
Fixpoint str_ltb (a b : str) : bool :=
  match a, b with
  | _, [] => false
  | [], _ :: _ => true
  | x :: a', y :: b' => (x <? y)%N || ((x =? y)%N && str_ltb a' b')
  end.

(** [sorted(...)] of the entries of one directory: their paths differ in
    the last component only, so they compare as their names do.  The sort
    is stable: an entry goes before the first one that is not smaller. *)
Fixpoint insert (e : dir_entry) (l : list dir_entry) : list dir_entry :=
  match l with
  | [] => [e]
  | y :: l' =>
      if str_ltb (entry_name y) (entry_name e)
      then y :: insert e l'
      else e :: y :: l'
  end.

Fixpoint sorted (l : list dir_entry) : list dir_entry :=
  match l with
  | [] => []
  | e :: l' => insert e (sorted l')
  end.

Definition row_of (e : dir_entry) : file_row :=
  {| row_name := entry_name e;
     row_size_bytes := st_size e;
     row_size_display := SizeDisplay.size_display (st_size e) |}.

(** The list [files] that [index] hands to the template, from
    [host_directory.exists()] and the entries in the order [iterdir()]
    yields them. *)
Definition index_files (dir_exists : bool) (entries : list dir_entry)
    : list file_row :=
  if dir_exists
  then List.map row_of (List.filter is_file (sorted entries))
  else [].

End Listing.

(* ===================================================================== *)
(** ** The fragment of [re] the rewriter uses *)
(* ===================================================================== *)

Module Re.

(** Patterns: literal text, a greedy repetition of a one-character
    class, the capture group and concatenation.  Both patterns of
    [tools.py] are of this shape, with a single group. *)
Inductive re :=
| Lit (s : str)
| Plus (cls : N -> bool)
| Star (cls : N -> bool)
| Group (r : re)
| Cat (r1 r2 : re).

Section Matcher.
Context {R : Type}.

(** Greedy repetition with backtracking: take as many characters of the
    class as there are, and give one back at a time while the rest of
    the pattern (the continuation [k]) fails.  [k] receives the text
    consumed and the text left. *)
Fixpoint greedy (cls : N -> bool) (s : str)
    (k : str -> str -> option R) : option R :=
  match s with
  | c :: s' =>
      if cls c
      then match greedy cls s' (fun m rest => k (c :: m) rest) with
           | Some r => Some r
           | None => k [] s
           end
      else k [] s
  | [] => k [] []
  end.

Fixpoint literal (p s : str) : option str :=
  match p, s with
  | [], _ => Some s
  | a :: p', b :: s' => if (a =? b)%N then literal p' s' else None
  | _ :: _, [] => None
  end.

(** [run r s g k]: match [r] at the start of [s]; [g] is the capture so
    far; [k] receives the text consumed, the text left and the
    capture. *)
Fixpoint run (r : re) (s : str) (g : option str)
    (k : str -> str -> option str -> option R) : option R :=
  match r with
  | Lit p =>
      match literal p s with
      | Some rest => k p rest g
      | None => None
      end
  | Plus cls =>
      match s with
      | c :: s' =>
          if cls c then greedy cls s' (fun m rest => k (c :: m) rest g)
          else None
      | [] => None
      end
  | Star cls => greedy cls s (fun m rest => k m rest g)
  | Group r1 => run r1 s g (fun m rest _ => k m rest (Some m))
  | Cat r1 r2 =>
      run r1 s g (fun m1 rest1 g1 =>
        run r2 rest1 g1 (fun m2 rest2 g2 => k (m1 ++ m2) rest2 g2))
  end.
End Matcher.

(** A match at the start of [s]: the matched text and group 1. *)
Definition match_at (r : re) (s : str) : option (str * str) :=
  run r s None (fun m _ g => Some (m, default [] g)).

(** The left-to-right scan shared by [re.findall] and [re.sub]: at each
    position not inside the previous match, try the pattern; [skip]
    counts the characters of the previous match still to step over.
    Both patterns start with a literal, so no match is empty. *)
Fixpoint findall_from (r : re) (skip : nat) (s : str) : list str :=
  match s with
  | [] => []
  | _ :: s' =>
      match skip with
      | S n => findall_from r n s'
      | O =>
          match match_at r s with
          | Some (m, g) => g :: findall_from r (length m - 1) s'
          | None => findall_from r 0 s'
          end
      end
  end.

(** [re.findall(pattern, s)] for a pattern with one group: the list of
    the group's texts. *)
Definition findall (r : re) (s : str) : list str := findall_from r 0 s.

Fixpoint sub_from (r : re) (repl : str -> str) (skip : nat) (s : str) : str :=
  match s with
  | [] => []
  | c :: s' =>
      match skip with
      | S n => sub_from r repl n s'
      | O =>
          match match_at r s with
          | Some (m, g) => repl g ++ sub_from r repl (length m - 1) s'
          | None => c :: sub_from r repl 0 s'
          end
      end
  end.

(** [re.sub(pattern, repl, s)] where [repl] is a function of the match
    that only reads [match.group(1)]. *)
Definition sub (r : re) (repl : str -> str) (s : str) : str :=
  sub_from r repl 0 s.

End Re.

(* ===================================================================== *)
(** ** tools.py: extraction and replacement of references *)
(* ===================================================================== *)

(** The three non-ASCII characters of the patterns. *)
Definition laquo : N := 171.    (* U+00AB, the opening marker    *)
Definition raquo : N := 187.    (* U+00BB, the closing marker    *)
Definition rsaquo : N := 8250.  (* U+203A, excluded from names   *)

(** [[^\u203a\u00bb]] *)
Definition name_char (c : N) : bool :=
  negb (c =? rsaquo)%N && negb (c =? raquo)%N.

(** [[^\u00bb]] *)
Definition trailer_char (c : N) : bool := negb (c =? raquo)%N.

Definition marker_open : str := laquo :: lit "artifact_content:".

(** The pattern of [_extract_artifact_references]:
    marker, [artifact_content:], group of name characters, [\s*], [>>>]. *)
Definition extract_pattern : Re.re :=
  Re.Cat (Re.Lit marker_open)
    (Re.Cat (Re.Group (Re.Plus name_char))
       (Re.Cat (Re.Star is_space) (Re.Lit (lit ">>>")))).

(** The pattern of [_replace_artifact_references]: the same, then
    a run of trailer characters and the closing marker. *)
Definition replace_pattern : Re.re :=
  Re.Cat (Re.Lit marker_open)
    (Re.Cat (Re.Group (Re.Plus name_char))
       (Re.Cat (Re.Star is_space)
          (Re.Cat (Re.Lit (lit ">>>"))
             (Re.Cat (Re.Star trailer_char) (Re.Lit [raquo]))))).

(** [list(dict.fromkeys(l))]: a dictionary keeps its keys in insertion
    order and setting a key already present leaves it where it is. *)
Module PyDict.

Definition setdefault_key (keys : list str) (k : str) : list str :=
  if existsb (PyStr.eqb k) keys then keys else keys ++ [k].

Definition fromkeys (l : list str) : list str :=
  fold_left setdefault_key l [].

End PyDict.

Definition _extract_artifact_references (html_content : str) : list str :=
  let matches := Re.findall extract_pattern html_content in
  let filenames := List.map strip matches in
  let unique_filenames := PyDict.fromkeys filenames in
  unique_filenames.

Definition _replace_artifact_references (html_content : str)
    (filename_map : gmap str str) : str :=
  let replace_reference (group1 : str) : str :=
    let original_filename := strip group1 in
    let hosted_filename :=
      default original_filename (filename_map !! original_filename) in
    hosted_filename in
  Re.sub replace_pattern replace_reference html_content.

(* ===================================================================== *)
(** ** UTF-8, as [bytes.decode('utf-8')] and [str.encode('utf-8')] *)
(* ===================================================================== *)

Module Utf8.

Abbreviation bytes := (list N).

Definition is_cont (b : N) : bool := ((128 <=? b) && (b <? 192))%N.
Definition is_surrogate (c : N) : bool := ((55296 <=? c) && (c <=? 57343))%N.

(** Strict decoding: [None] stands for [UnicodeDecodeError].  A sequence
    is rejected when a continuation byte is missing or malformed, when it
    is longer than its code point needs, when it encodes a surrogate and
    when it is beyond U+10FFFF. *)
Fixpoint decode (bs : bytes) : option str :=
  match bs with
  | [] => Some []
  | b0 :: r0 =>
      if (b0 <? 128)%N then cons b0 <$> decode r0
      else if ((192 <=? b0) && (b0 <? 224))%N then
        match r0 with
        | b1 :: r1 =>
            let c := ((b0 - 192) * 64 + (b1 - 128))%N in
            if is_cont b1 && (128 <=? c)%N then cons c <$> decode r1 else None
        | _ => None
        end
      else if ((224 <=? b0) && (b0 <? 240))%N then
        match r0 with
        | b1 :: b2 :: r2 =>
            let c := ((b0 - 224) * 4096 + (b1 - 128) * 64 + (b2 - 128))%N in
            if is_cont b1 && is_cont b2 && (2048 <=? c)%N
               && negb (is_surrogate c)
            then cons c <$> decode r2 else None
        | _ => None
        end
      else if ((240 <=? b0) && (b0 <? 248))%N then
        match r0 with
        | b1 :: b2 :: b3 :: r3 =>
            let c := ((b0 - 240) * 262144 + (b1 - 128) * 4096
                      + (b2 - 128) * 64 + (b3 - 128))%N in
            if is_cont b1 && is_cont b2 && is_cont b3
               && (65536 <=? c)%N && (c <=? 1114111)%N
            then cons c <$> decode r3 else None
        | _ => None
        end
      else None
  end.

(** Encoding of one code point; [None] stands for [UnicodeEncodeError]
    (a surrogate). *)
Definition encode_char (c : N) : option bytes :=
  if (c <? 128)%N then Some [c]
  else if (c <? 2048)%N then Some [192 + c / 64; 128 + c mod 64]%N
  else if (c <? 65536)%N then
    if is_surrogate c then None
    else Some [224 + c / 4096; 128 + (c / 64) mod 64; 128 + c mod 64]%N
  else if (c <=? 1114111)%N then
    Some [240 + c / 262144; 128 + (c / 4096) mod 64;
          128 + (c / 64) mod 64; 128 + c mod 64]%N
  else None.

Fixpoint encode (s : str) : option bytes :=
  match s with
  | [] => Some []
  | c :: s' =>
      match encode_char c, encode s' with
      | Some b, Some bs => Some (b ++ bs)
      | _, _ => None
      end
  end.

End Utf8.
Import Utf8.

(* ===================================================================== *)
(** ** pathlib: [Path(p).suffix] *)
(* ===================================================================== *)

Module PyPath.

(** [s.split(sep)] for a one-character separator. *)
Fixpoint split_on (sep : N) (s : str) : list str :=
  match s with
  | [] => [[]]
  | c :: s' =>
      match split_on sep s' with
      | part :: parts =>
          if (c =? sep)%N then [] :: part :: parts else (c :: part) :: parts
      | [] => [[c]]
      end
  end.

(** [PurePosixPath(p).name]: the last component of the path, empty and
    [.] components dropped. *)
Definition name (p : str) : str :=
  let parts :=
    List.filter (fun part => negb (PyStr.eqb part []) && negb (PyStr.eqb part (lit ".")))
      (split_on 47 p) in
  List.last parts [].

(** [PurePosixPath(p).suffix]: with [i = name.rfind('.')], the text
    [name[i:]] when [0 < i < len(name) - 1] and the empty string
    otherwise. *)
Definition suffix (p : str) : str :=
  match rsplit1 46 (name p) with
  | (_ :: _, Some (c :: after)) => 46%N :: c :: after
  | _ => []
  end.

End PyPath.

(** [pathlib.Path] on POSIX, as far as [init_function] uses it. *)
Module PosixPath.

(** A path as [pathlib] keeps it: the root (empty, [/] or [//]) and the
    components. *)
Record path := { root : str; parts : list str }.

Fixpoint leading_slashes (s : str) : nat :=
  match s with
  | c :: s' => if (c =? 47)%N then S (leading_slashes s') else 0
  | [] => 0
  end.

(** [Path(s)]: exactly two leading slashes are kept as the root [//], any
    other number of them is the root [/]; empty and [.] components are
    dropped. *)
Definition parse (s : str) : path :=
  {| root := match leading_slashes s with
             | 0 => []
             | 2 => lit "//"
             | _ => lit "/"
             end;
     parts := List.filter
                (fun part => negb (PyStr.eqb part [])
                             && negb (PyStr.eqb part (lit ".")))
                (PyPath.split_on 47 s) |}.

Definition is_absolute (p : path) : bool := negb (PyStr.eqb (root p) []).

(** [a / b] *)
Definition joinpath (a b : path) : path :=
  if is_absolute b then b
  else {| root := root a; parts := parts a ++ parts b |}.

Fixpoint join (sep : str) (l : list str) : str :=
  match l with
  | [] => []
  | [part] => part
  | part :: rest => part ++ sep ++ join sep rest
  end.

(** [str(p)] *)
Definition to_str (p : path) : str :=
  match root p, parts p with
  | [], [] => lit "."
  | r, l => r ++ join (lit "/") l
  end.

End PosixPath.

(* ===================================================================== *)
(** ** Exceptions, outcomes and the state-and-exception monad *)
(* ===================================================================== *)

(** The classes of [Exception] the code tells apart, and every other one. *)
Inductive exn_class :=
| FileNotFoundError
| ValueError
| TypeError
| UnicodeDecodeError
| UnicodeEncodeError
| OtherException.

(** An exception with [str(e)]. *)
Record exn := Exn { exn_cls : exn_class; exn_str : str }.

Inductive outcome (A : Type) :=
| Ok (a : A)
| Raise (e : exn).
Arguments Ok {A} a.
Arguments Raise {A} e.

Definition is_FileNotFoundError (e : exn) : bool :=
  match exn_cls e with FileNotFoundError => true | _ => false end.

Definition is_UnicodeDecodeError (e : exn) : bool :=
  match exn_cls e with UnicodeDecodeError => true | _ => false end.

Module Eff.

(** A computation over a state [S] that returns or raises; the state
    survives a raise, as Python's objects do. *)
Definition M (S A : Type) : Type := S -> outcome A * S.

Definition ret {S A} (a : A) : M S A := fun s => (Ok a, s).
Definition raise {S A} (e : exn) : M S A := fun s => (Raise e, s).

Definition bind {S A B} (m : M S A) (k : A -> M S B) : M S B :=
  fun s =>
    match m s with
    | (Ok a, s') => k a s'
    | (Raise e, s') => (Raise e, s')
    end.

(** [try: body  except Exception as e: handler e] *)
Definition try_except {S A} (body : M S A) (handler : exn -> M S A) : M S A :=
  fun s =>
    match body s with
    | (Ok a, s') => (Ok a, s')
    | (Raise e, s') => handler e s'
    end.

Definition get {S} : M S S := fun s => (Ok s, s).
Definition modify {S} (f : S -> S) : M S unit := fun s => (Ok tt, f s).

(** Run a computation on the second component of a pair of states. *)
Definition lift {L S A} (m : M S A) : M (L * S) A :=
  fun ls =>
    match m (snd ls) with
    | (r, s') => (r, (fst ls, s'))
    end.

End Eff.
Import Eff.

Declare Scope eff_scope.
Delimit Scope eff_scope with eff.
Notation "'let*' x ':=' c1 'in' c2" := (Eff.bind c1 (fun x => c2))
  (at level 10, x pattern, c1 at level 100, c2 at level 200) : eff_scope.
Notation "c1 ';;' c2" := (Eff.bind c1 (fun _ => c2))
  (at level 100, c2 at level 200, right associativity) : eff_scope.
Local Open Scope eff_scope.

(* ===================================================================== *)
(** ** tools.py: the hosting operations *)
(* ===================================================================== *)

(** What [load_artifact] returns: an object whose [inline_data] may be
    absent, with the payload in [inline_data.data]. *)
Record Blob := { data : option bytes }.
Record Part := { inline_data : option Blob }.

(** The [_invocation_context] of a [ToolContext]; [session_id] is what
    [get_original_session_id] returns for it and [artifact_service] tells
    whether the attribute is there. *)
Record InvocationContext := {
  app_name : option str;
  user_id : option str;
  session_id : option str;
  artifact_service : bool
}.

Record ToolContext := { _invocation_context : option InvocationContext }.

(** [tool_config]: the dictionary's [base_url] entry. *)
Record ToolConfig := { base_url : option str }.

(** The calls that leave the program. *)
Inductive event :=
| ListVersions (filename : str)
| LoadArtifact (filename : str) (version : Z)
| WriteFile (path : str) (content : bytes).

(** The dictionary [_host_single_artifact] returns. *)
Inductive single_result :=
| SingleSuccess (artifact_filename : str) (artifact_version : Z)
    (hosted_filename : str) (url : str)
| SingleError (artifact_filename : str) (error : str).

Definition single_status (r : single_result) : str :=
  match r with
  | SingleSuccess _ _ _ _ => lit "success"
  | SingleError _ _ => lit "error"
  end.

(** An entry of [referenced_artifacts]. *)
Record referenced_artifact := {
  ref_filename : str;
  ref_hosted_filename : str;
  ref_url : str
}.

(** The dictionary [host_artifact] returns; the key [referenced_artifacts]
    is present exactly when the list is not empty. *)
Inductive tool_result :=
| ToolSuccess (message : str) (artifact_filename : str) (artifact_version : Z)
    (hosted_filename : str) (url : str)
    (referenced_artifacts : list referenced_artifact)
| ToolError (message : str).

Definition status (r : tool_result) : str :=
  match r with
  | ToolSuccess _ _ _ _ _ _ => lit "success"
  | ToolError _ => lit "error"
  end.

Definition message (r : tool_result) : str :=
  match r with
  | ToolSuccess m _ _ _ _ _ => m
  | ToolError m => m
  end.

(** [max(versions)] of a non-empty list. *)
Definition py_max (versions : list Z) : Z :=
  match versions with
  | v :: vs => fold_left Z.max vs v
  | [] => 0%Z
  end.

(** Lines 130-135 and 259-265: the name the artifact is hosted under. *)
Definition determine_hosted_filename (custom_filename : option str)
    (filename_base : str) : str :=
  let hosted_filename :=
    if truthy custom_filename then default [] custom_filename
    else filename_base in
  if truthy custom_filename
     && negb (contains 46 (default [] custom_filename))
     && contains 46 filename_base
  then
    let extension := PyPath.suffix filename_base in
    default [] custom_filename ++ extension
  else hosted_filename.

(** [hosted_filename.lower().endswith(('.html', '.htm'))] *)
Definition is_html (hosted_filename : str) : bool :=
  endswith (lower hosted_filename) (lit ".html")
  || endswith (lower hosted_filename) (lit ".htm").

(** [web_server.host_directory / hosted_filename] (lines 138 and 324), as
    the text that [open] receives: the directory is a [Path], kept here in
    its string form, and [/] joins as [pathlib] does, so that an absolute
    name replaces the directory and [..] components stay in the path. *)
Definition hosted_path (web_server : ArtifactWebServer) (hosted_filename : str)
    : str :=
  PosixPath.to_str
    (PosixPath.joinpath (PosixPath.parse (host_directory web_server))
       (PosixPath.parse hosted_filename)).

Section Tools.

(** The state of the world outside the program (the artifact service and
    the file system), and its operations: each returns or raises and
    leaves a new outside state. *)
Variable X : Type.
Variable svc_list_versions :
  forall (app user session filename : str), X -> outcome (list Z) * X.
Variable svc_load_artifact :
  forall (app user session filename : str) (version : Z),
    X -> outcome (option Part) * X.
Variable os_write_file :
  forall (path : str) (content : bytes), X -> outcome unit * X.

(** The builtin [int(s)]: the integer, or the [ValueError]. *)
Variable py_int : str -> outcome Z.

(** The state the program runs in: the outside, the module global
    [_web_server_instance] and the trace of outside calls. *)
Record world := {
  outside : X;
  _web_server_instance : option ArtifactWebServer;
  trace : list event
}.

(** The world after one more outside call. *)
Definition after (w : world) (ev : event) (x' : X) : world :=
  {| outside := x';
     _web_server_instance := _web_server_instance w;
     trace := trace w ++ [ev] |}.

(** An outside call: it is recorded whether it returns or raises. *)
Definition call {A} (ev : event) (op : X -> outcome A * X) : M world A :=
  fun w =>
    match op (outside w) with
    | (r, x') => (r, after w ev x')
    end.

Definition list_versions (app user session filename : str) : M world (list Z) :=
  call (ListVersions filename) (svc_list_versions app user session filename).

Definition load_artifact (app user session filename : str) (version : Z)
    : M world (option Part) :=
  call (LoadArtifact filename version)
    (svc_load_artifact app user session filename version).

(** [_write_file(path, content)]: [open(path, 'wb')] and the write. *)
Definition _write_file (path : str) (content : bytes) : M world unit :=
  call (WriteFile path content) (os_write_file path content).

(** [get_web_server()] *)
Definition get_web_server : M world (option ArtifactWebServer) :=
  fun w => (Ok (_web_server_instance w), w).

Definition of_outcome {S A} (o : outcome A) : M S A := fun s => (o, s).

(** Lines 87-106 and 216-235: the base name and the version to load. *)
Definition resolve_version (artifact_filename app user session : str)
    : M world (str * Z) :=
  let parts := rsplit1 58 artifact_filename in
  let filename_base := fst parts in
  let version_str := snd parts in
  let* version_to_load :=
    (if truthy version_str
     then let* v := of_outcome (py_int (default [] version_str)) in ret (Some v)
     else ret None) in
  match version_to_load with
  | Some v => ret (filename_base, v)
  | None =>
      let* versions := list_versions app user session filename_base in
      match versions with
      | [] =>
          raise (Exn FileNotFoundError
                   (lit "Artifact '" ++ filename_base ++ lit "' not found."))
      | _ :: _ => ret (filename_base, py_max versions)
      end
  end.

(** Lines 111-127 and 240-256: the bytes of the artifact. *)
Definition load_bytes (filename_base : str) (version_to_load : Z)
    (app user session : str) : M world bytes :=
  let* artifact := load_artifact app user session filename_base version_to_load in
  match artifact with
  | Some {| inline_data := Some blob |} =>
      match data blob with
      | Some artifact_bytes => ret artifact_bytes
      | None =>
          (* [len(artifact_bytes)] in the debug message *)
          raise (Exn TypeError (lit "object of type 'NoneType' has no len()"))
      end
  | _ =>
      raise (Exn FileNotFoundError
               (lit "Content for '" ++ filename_base ++ lit "' v"
                  ++ of_int version_to_load ++ lit " not found."))
  end.

Definition _host_single_artifact (artifact_filename : str)
    (custom_filename : option str) (app user session : str)
    (web_server : ArtifactWebServer) (base_url : option str)
    : M world single_result :=
  try_except
    (let* resolved := resolve_version artifact_filename app user session in
     let filename_base := fst resolved in
     let version_to_load := snd resolved in
     let* artifact_bytes :=
       load_bytes filename_base version_to_load app user session in
     let hosted_filename :=
       determine_hosted_filename custom_filename filename_base in
     _write_file (hosted_path web_server hosted_filename) artifact_bytes ;;
     let url := get_url web_server hosted_filename base_url in
     ret (SingleSuccess filename_base version_to_load hosted_filename url))
    (fun e => ret (SingleError artifact_filename (exn_str e))).

(** The variables of [host_artifact] that the reference processing
    assigns or mutates, and that keep what they hold when it raises. *)
Record locals := {
  artifact_bytes : bytes;
  referenced_artifacts : list referenced_artifact;
  filename_map : gmap str str
}.

Definition record_success (ref_name hosted url : str) (l : locals) : locals :=
  {| artifact_bytes := artifact_bytes l;
     referenced_artifacts :=
       referenced_artifacts l
         ++ [{| ref_filename := ref_name; ref_hosted_filename := hosted;
                ref_url := url |}];
     filename_map := <[ref_name := hosted]> (filename_map l) |}.

Definition set_artifact_bytes (b : bytes) (l : locals) : locals :=
  {| artifact_bytes := b;
     referenced_artifacts := referenced_artifacts l;
     filename_map := filename_map l |}.

Definition on_locals {A} (f : locals -> A) : M (locals * world) A :=
  fun lw => (Ok (f (fst lw)), lw).

Definition set_locals (f : locals -> locals) : M (locals * world) unit :=
  fun lw => (Ok tt, (f (fst lw), snd lw)).

(** Lines 288-310: the loop over the referenced file names. *)
Fixpoint host_references (referenced_filenames : list str)
    (app user session : str) (web_server : ArtifactWebServer)
    (base_url : option str) : M (locals * world) unit :=
  match referenced_filenames with
  | [] => ret tt
  | ref_name :: rest =>
      let* result :=
        lift (_host_single_artifact ref_name None app user session
                web_server base_url) in
      match result with
      | SingleSuccess _ _ hosted url =>
          set_locals (record_success ref_name hosted url)
      | SingleError _ _ => ret tt
      end ;;
      host_references rest app user session web_server base_url
  end.

(** Lines 276-321: the [try] block run for an HTML artifact, with its
    two handlers, which only log. *)
Definition process_html_references (app user session : str)
    (web_server : ArtifactWebServer) (base_url : option str)
    : M (locals * world) unit :=
  try_except
    (let* bytes_in := on_locals artifact_bytes in
     let* html_content :=
       match Utf8.decode bytes_in with
       | Some text => ret text
       | None => raise (Exn UnicodeDecodeError (lit "invalid utf-8"))
       end in
     let referenced_filenames := _extract_artifact_references html_content in
     match referenced_filenames with
     | [] => ret tt
     | _ :: _ =>
         host_references referenced_filenames app user session
           web_server base_url ;;
         let* fmap := on_locals filename_map in
         if bool_decide (fmap = ∅) then ret tt
         else
           let updated_html := _replace_artifact_references html_content fmap in
           match Utf8.encode updated_html with
           | Some encoded => set_locals (set_artifact_bytes encoded)
           | None => raise (Exn UnicodeEncodeError (lit "surrogates not allowed"))
           end
     end)
    (fun e =>
       if is_UnicodeDecodeError e
       then ret tt   (* warning: could not decode, processing skipped *)
       else ret tt   (* warning: error processing the references *)).

Definition all_truthy (ic : InvocationContext) : bool :=
  truthy (app_name ic) && truthy (user_id ic) && truthy (session_id ic)
  && artifact_service ic.

(** Lines 272-321: the reference processing, run only for a name that
    ends in [.html] or [.htm]; it starts from the loaded bytes, an empty
    list and an empty map. *)
Definition process_if_html (hosted_filename : str) (loaded : bytes)
    (app user session : str) (web_server : ArtifactWebServer)
    (base_url : option str) : M world locals :=
  fun w =>
    let start :=
      {| artifact_bytes := loaded; referenced_artifacts := [];
         filename_map := ∅ |} in
    if is_html hosted_filename
    then match process_html_references app user session web_server
                 base_url (start, w) with
         | (Ok _, (l, w')) => (Ok l, w')
         | (Raise e, (_, w')) => (Raise e, w')
         end
    else (Ok start, w).

(** Lines 334-348: the dictionary of a successful call. *)
Definition success_result (filename_base : str) (version_to_load : Z)
    (hosted_filename url : str) (refs : list referenced_artifact)
    : tool_result :=
  match refs with
  | [] =>
      ToolSuccess (lit "Artifact hosted successfully") filename_base
        version_to_load hosted_filename url []
  | _ :: _ =>
      ToolSuccess
        (lit "Artifact hosted successfully along with "
           ++ of_int (Z.of_nat (length refs))
           ++ lit " referenced artifact(s)")
        filename_base version_to_load hosted_filename url refs
  end.

(** Lines 201-348: the body of the outer [try]. *)
Definition host_artifact_body (artifact_filename : str)
    (custom_filename : option str) (tool_context : ToolContext)
    (tool_config : option ToolConfig) (web_server : ArtifactWebServer)
    : M world tool_result :=
  let* inv_context :=
    match _invocation_context tool_context with
    | Some ic => ret ic
    | None => raise (Exn ValueError (lit "InvocationContext is not available."))
    end in
  (if all_truthy inv_context then ret tt
   else raise (Exn ValueError (lit "Missing required context parts"))) ;;
  let app := default [] (app_name inv_context) in
  let user := default [] (user_id inv_context) in
  let session := default [] (session_id inv_context) in
  let* resolved := resolve_version artifact_filename app user session in
  let filename_base := fst resolved in
  let version_to_load := snd resolved in
  let* loaded := load_bytes filename_base version_to_load app user session in
  let hosted_filename := determine_hosted_filename custom_filename filename_base in
  let base_url :=
    match tool_config with
    | Some cfg => base_url cfg
    | None => None
    end in
  let* final :=
    process_if_html hosted_filename loaded app user session web_server
      base_url in
  _write_file (hosted_path web_server hosted_filename) (artifact_bytes final) ;;
  let url := get_url web_server hosted_filename base_url in
  ret (success_result filename_base version_to_load hosted_filename url
         (referenced_artifacts final)).

(** [host_artifact] *)
Definition host_artifact (artifact_filename : str)
    (custom_filename : option str) (tool_context : option ToolContext)
    (tool_config : option ToolConfig) : M world tool_result :=
  match tool_context with
  | None => ret (ToolError (lit "ToolContext is required"))
  | Some ctx =>
      let* web_server := get_web_server in
      match web_server with
      | None =>
          ret (ToolError
                 (lit "Web server is not running. Please check agent configuration."))
      | Some server =>
          try_except
            (host_artifact_body artifact_filename custom_filename ctx
               tool_config server)
            (fun e =>
               if is_FileNotFoundError e then ret (ToolError (exn_str e))
               else ret (ToolError
                           (lit "An unexpected error occurred: " ++ exn_str e)))
      end
  end.

End Tools.

Arguments outside {X} w.
Arguments _web_server_instance {X} w.
Arguments trace {X} w.
Arguments after {X} w ev x'.

(** [w'] is [w] after some more outside calls. *)
Definition extends {X} (w w' : world X) : Prop :=
  exists rest, trace w' = trace w ++ rest.

(* ===================================================================== *)
(** ** Notions used to state the properties *)
(* ===================================================================== *)

(** The texts a pattern denotes, independently of how [Re.run] searches
    for them. *)
Fixpoint denotes (r : Re.re) (m : str) : Prop :=
  match r with
  | Re.Lit p => m = p
  | Re.Plus cls => m <> [] /\ Forall (fun c => cls c = true) m
  | Re.Star cls => Forall (fun c => cls c = true) m
  | Re.Group r1 => denotes r1 m
  | Re.Cat r1 r2 => exists m1 m2, m = m1 ++ m2 /\ denotes r1 m1 /\ denotes r2 m2
  end.

(** Whether [>>>] occurs in a text before its first closing marker. *)
Fixpoint arrows_ahead (s : str) : bool :=
  match s with
  | [] => false
  | c :: s' =>
      if (c =? raquo)%N then false
      else is_prefix (lit ">>>") s || arrows_ahead s'
  end.

(** The part of both patterns after the group: [\s*>>>] and what may
    follow does not match where no [>>>] comes before the closing
    marker. *)
Definition needs_arrows (tail : Re.re) : Prop :=
  forall R (s : str) (g : option str) (k : str -> str -> option str -> option R),
    arrows_ahead s = false -> Re.run tail s g k = None.

(** Whether [p] and [s] agree as far as the shorter of them goes. *)
Fixpoint compatible (p s : str) : bool :=
  match p, s with
  | [], _ => true
  | _, [] => true
  | a :: p', b :: s' => (a =? b)%N && compatible p' s'
  end.

(** Whether no place of a text agrees with the opening of a token. *)
Fixpoint no_marker (text : str) : bool :=
  match text with
  | [] => true
  | _ :: text' => negb (compatible marker_open text) && no_marker text'
  end.

(** A code point that a [str] decoded from UTF-8 can hold. *)
Definition scalar (c : N) : bool :=
  (c <=? 1114111)%N && negb (Utf8.is_surrogate c).

(** A list without its repeats: each element stays where it first
    occurs. *)
Fixpoint first_occurrences (l : list str) : list str :=
  match l with
  | [] => []
  | x :: l' => x :: List.filter (fun y => negb (PyStr.eqb x y)) (first_occurrences l')
  end.

(** The hosted name that the list of referenced artifacts of a result
    gives for a referenced name (the latest entry, if there are several). *)
Fixpoint hosted_name_of (entries : list referenced_artifact) (name : str)
    : option str :=
  match entries with
  | [] => None
  | e :: rest =>
      match hosted_name_of rest name with
      | Some h => Some h
      | None =>
          if PyStr.eqb (ref_filename e) name then Some (ref_hosted_filename e)
          else None
      end
  end.


(** What hosting the references of a page means, said call by call.  A
    reference is hosted by finding its version, loading its bytes and
    writing them at [host_directory / base name]; it is listed with that
    base name and the URL of it.  When one of the three steps raises, the
    reference is not listed and the next one is tried.  The references are
    taken one after the other, each in the world the one before left. *)
Section ReferenceHosting.

Context {X : Type}.
Variable svc_list_versions :
  forall (app user session filename : str), X -> outcome (list Z) * X.
Variable svc_load_artifact :
  forall (app user session filename : str) (version : Z),
    X -> outcome (option Part) * X.
Variable os_write_file :
  forall (path : str) (content : bytes), X -> outcome unit * X.
Variable py_int : str -> outcome Z.
Variables app user session : str.
Variable web_server : ArtifactWebServer.
Variable base_url : option str.

Definition hosts_reference (ref_name : str) (w : world X)
    : option referenced_artifact * world X :=
  match resolve_version X svc_list_versions py_int ref_name app user session w
  with
  | (Raise _, w1) => (None, w1)
  | (Ok (filename_base, version), w1) =>
      match load_bytes X svc_load_artifact filename_base version
              app user session w1 with
      | (Raise _, w2) => (None, w2)
      | (Ok loaded, w2) =>
          let path := hosted_path web_server filename_base in
          match os_write_file path loaded (outside w2) with
          | (Raise _, x3) => (None, after w2 (WriteFile path loaded) x3)
          | (Ok _, x3) =>
              (Some {| ref_filename := ref_name;
                       ref_hosted_filename := filename_base;
                       ref_url := get_url web_server filename_base base_url |},
               after w2 (WriteFile path loaded) x3)
          end
      end
  end.

Fixpoint hosts_references (refs : list str) (w : world X)
    : list referenced_artifact * world X :=
  match refs with
  | [] => ([], w)
  | ref_name :: rest =>
      let hosted := hosts_reference ref_name w in
      let others := hosts_references rest (snd hosted) in
      (match fst hosted with
       | Some entry => entry :: fst others
       | None => fst others
       end, snd others)
  end.

End ReferenceHosting.

(** An HTML text seen as plain text between reference tokens.  A token is
    the opening marker, [artifact_content:], the raw name (not empty, of
    name characters), [>>>], a trailer and the closing marker; the trailer
    has no closing marker, and no [>>>] begins in it or in the two [>]
    before it (the name ends where the last [>>>] of the token begins).
    Plain text has no place that agrees with the opening of a token. *)
Module Doc.

Inductive piece :=
| Plain (text : str)
| Ref (raw trailer : str).

Definition well_formed (p : piece) : Prop :=
  match p with
  | Plain text => no_marker text = true
  | Ref raw trailer =>
      raw <> []
      /\ Forall (fun c => name_char c = true) raw
      /\ Forall (fun c => c <> raquo) trailer
      /\ arrows_ahead (lit ">>" ++ trailer ++ [raquo]) = false
  end.

Definition token (raw trailer : str) : str :=
  marker_open ++ raw ++ lit ">>>" ++ trailer ++ [raquo].

Definition source (p : piece) : str :=
  match p with
  | Plain text => text
  | Ref raw trailer => token raw trailer
  end.

(** The HTML text. *)
Definition render (doc : list piece) : str := concat (List.map source doc).

(** The referenced names, in the order of the tokens. *)
Fixpoint names (doc : list piece) : list str :=
  match doc with
  | [] => []
  | Plain _ :: rest => names rest
  | Ref raw _ :: rest => strip raw :: names rest
  end.

(** The text with every token replaced by the hosted name of its
    reference, or by the referenced name when [hosted] has none. *)
Definition rewritten (hosted : str -> option str) (doc : list piece) : str :=
  concat (List.map (fun p =>
                      match p with
                      | Plain text => text
                      | Ref raw _ => default (strip raw) (hosted (strip raw))
                      end) doc).

End Doc.

(* ===================================================================== *)
(** ** lifecycle.py *)
(* ===================================================================== *)

Module Lifecycle.

(** The configuration dictionary: a key is absent ([None]) or holds a
    value of the type the code expects. *)
Record Config := {
  config_port : option Z;
  config_host : option str;
  config_host_directory : option str;
  config_base_url : option str
}.

(** The agent process: the world of the tools (with the module global
    [_web_server_instance]), the threads created so far and the log. *)
Record process (X : Type) := {
  tools : world X;
  threads : list bool;
  log : list (log_level * str)
}.
Arguments tools {X} p.
Arguments threads {X} p.
Arguments log {X} p.

(** [current_config.get(key, default)] with
    [current_config = config if config is not None else {}]. *)
Definition get {A} (config : option Config) (key : Config -> option A)
    (dflt : A) : A :=
  match config with
  | Some c => default dflt (key c)
  | None => dflt
  end.

Section Functions.

Context {X : Type}.
(** [Path.mkdir(parents=True, exist_ok=True)] of the directory, and the
    working directory of the process. *)
Variable os_mkdir : str -> X -> outcome unit * X.
Variable cwd : PosixPath.path.

Definition logged (level : log_level) (msg : str) (p : process X) : process X :=
  {| tools := tools p; threads := threads p; log := log p ++ [(level, msg)] |}.

(** [set_web_server] *)
Definition set_web_server (server : ArtifactWebServer) (p : process X)
    : process X :=
  {| tools := {| outside := outside (tools p);
                 _web_server_instance := Some server;
                 trace := trace (tools p) |};
     threads := threads p;
     log := log p |}.

(** [ArtifactWebServer.__init__]: the attributes, then the directory is
    made, which is the step that can raise, then the log record. *)
Definition __init__ (host_directory : PosixPath.path) (port : Z) (host : str)
    (p : process X) : outcome ArtifactWebServer * process X :=
  match os_mkdir (PosixPath.to_str host_directory) (outside (tools p)) with
  | (Ok _, x) =>
      (Ok {| host_directory := PosixPath.to_str host_directory;
             port := port; host := host; server_thread := None |},
       logged INFO
         (lit "[ArtifactWebServer] Initialized with directory: "
            ++ PosixPath.to_str host_directory ++ lit ", port: " ++ of_int port)
         {| tools := {| outside := x;
                        _web_server_instance := _web_server_instance (tools p);
                        trace := trace (tools p) |};
            threads := threads p;
            log := log p |})
  | (Raise e, x) =>
      (Raise e,
       {| tools := {| outside := x;
                      _web_server_instance := _web_server_instance (tools p);
                      trace := trace (tools p) |};
          threads := threads p;
          log := log p |})
  end.

(** [web_server.start()] on an object of this process. *)
Definition started (server : ArtifactWebServer) (p : process X)
    : ArtifactWebServer * process X :=
  let st := Server.start {| Server.self := server;
                            Server.threads := threads p;
                            Server.log := log p |} in
  (Server.self st,
   {| tools := tools p; threads := Server.threads st; log := Server.log st |}).

(** [web_server.stop()] *)
Definition stopped (server : ArtifactWebServer) (p : process X) : process X :=
  let st := Server.stop {| Server.self := server;
                           Server.threads := threads p;
                           Server.log := log p |} in
  {| tools := tools p; threads := Server.threads st; log := Server.log st |}.

(** The directory that is served: [Path(host_directory)], under the
    working directory when it is relative. *)
Definition host_dir_path (config : option Config) : PosixPath.path :=
  let p := PosixPath.parse
             (get config config_host_directory (lit "./hosted_files")) in
  if PosixPath.is_absolute p then p else PosixPath.joinpath cwd p.

(** [init_function] *)
Definition init_function (config : option Config) (p : process X)
    : outcome unit * process X :=
  let p := logged INFO
             (lit "[ArtifactHost:init] Starting artifact hosting web server") p in
  let port := get config config_port 8080%Z in
  let host := get config config_host (lit "127.0.0.1") in
  let dir := host_dir_path config in
  let p := logged INFO
             (lit "[ArtifactHost:init] Configuration: port=" ++ of_int port
                ++ lit ", host=" ++ host ++ lit ", directory="
                ++ PosixPath.to_str dir) p in
  match __init__ dir port host p with
  | (Ok web_server, p) =>
      let (web_server, p) := started web_server p in
      let p := set_web_server web_server p in
      let p := logged INFO
                 (lit "[ArtifactHost:init] Web server started successfully on http://"
                    ++ host ++ lit ":" ++ of_int port) p in
      let p := logged INFO
                 (lit "[ArtifactHost:init] Files will be hosted from: "
                    ++ PosixPath.to_str dir) p in
      let base_url := match config with
                      | Some c => config_base_url c
                      | None => None
                      end in
      (Ok tt,
       if truthy base_url
       then logged INFO
              (lit "[ArtifactHost:init] Custom base URL configured: "
                 ++ default [] base_url) p
       else p)
  | (Raise e, p) =>
      (Raise e,
       logged ERROR
         (lit "[ArtifactHost:init] Failed to start web server: " ++ exn_str e) p)
  end.

(** [cleanup_function] *)
Definition cleanup_function (p : process X) : outcome unit * process X :=
  let p := logged INFO
             (lit "[ArtifactHost:cleanup] Shutting down artifact hosting web server")
             p in
  match _web_server_instance (tools p) with
  | Some web_server =>
      (Ok tt,
       logged INFO (lit "[ArtifactHost:cleanup] Web server shutdown complete")
         (stopped web_server p))
  | None =>
      (Ok tt,
       logged WARNING (lit "[ArtifactHost:cleanup] No web server instance found") p)
  end.

(** A call of the agent framework, and a sequence of them. *)
Inductive hook := Init (config : option Config) | Cleanup.

Definition is_init (h : hook) : bool :=
  match h with Init _ => true | Cleanup => false end.

Definition hook_call (p : process X) (h : hook) : process X :=
  match h with
  | Init config => snd (init_function config p)
  | Cleanup => snd (cleanup_function p)
  end.

Definition hooks (hs : list hook) (p : process X) : process X :=
  List.fold_left hook_call hs p.

End Functions.

End Lifecycle.

(* ===================================================================== *)
(** ** Fixtures: a small world for closed examples *)
(* ===================================================================== *)

Module Fixture.

Definition server : ArtifactWebServer :=
  {| host_directory := lit "/srv/hosted_files"; port := 8080;
     host := lit "127.0.0.1"; server_thread := None |}.

Definition invocation : InvocationContext :=
  {| app_name := Some (lit "app"); user_id := Some (lit "user");
     session_id := Some (lit "session"); artifact_service := true |}.

Definition context : ToolContext := {| _invocation_context := Some invocation |}.

(** [int(s)] of the builtin: the white space around the number is
    dropped, a sign may come first, and single underscores may stand
    between digits.  The digits read are the ASCII ones (the builtin also
    reads the other decimal digits of Unicode), and the message quotes the
    text as [repr] does for a text without quotes, backslashes and control
    characters; the examples use no other text. *)
Fixpoint digits (acc : Z) (after_digit : bool) (s : str) : option Z :=
  match s with
  | [] => if after_digit then Some acc else None
  | c :: s' =>
      if ((48 <=? c) && (c <=? 57))%N
      then digits (10 * acc + Z.of_N (c - 48)) true s'
      else if (c =? 95)%N && after_digit then digits acc false s'
      else None
  end.

Definition int (s : str) : outcome Z :=
  let number :=
    match strip s with
    | c :: d =>
        if (c =? 43)%N then digits 0 false d
        else if (c =? 45)%N then option_map Z.opp (digits 0 false d)
        else digits 0 false (c :: d)
    | [] => None
    end in
  match number with
  | Some z => Ok z
  | None =>
      Raise (Exn ValueError
               (lit "invalid literal for int() with base 10: '" ++ s ++ lit "'"))
  end.

(** An artifact store: name, then the versions with their payloads. *)
Definition store := list (str * list (Z * bytes)).

Definition versions_of (st : store) (filename : str) : list (Z * bytes) :=
  match List.find (fun entry => PyStr.eqb (fst entry) filename) st with
  | Some entry => snd entry
  | None => []
  end.

Definition list_versions (st : store) (app user session filename : str)
    (x : unit) : outcome (list Z) * unit :=
  (Ok (List.map fst (versions_of st filename)), x).

Definition load_artifact (st : store) (app user session filename : str)
    (version : Z) (x : unit) : outcome (option Part) * unit :=
  match List.find (fun entry => Z.eqb (fst entry) version)
          (versions_of st filename) with
  | Some entry =>
      (Ok (Some {| inline_data := Some {| data := Some (snd entry) |} |}), x)
  | None => (Ok None, x)
  end.

Definition write_file (path : str) (content : bytes) (x : unit)
    : outcome unit * unit := (Ok tt, x).

(** A server object whose [start()] was never called. *)
Definition stopped : Server.state :=
  {| Server.self := server; Server.threads := []; Server.log := [] |}.

Definition initial : world unit :=
  {| outside := tt; _web_server_instance := Some server; trace := [] |}.

Definition run (st : store) (artifact_filename : str)
    (custom_filename : option str) (cfg : option ToolConfig)
    : outcome tool_result * world unit :=
  host_artifact unit (list_versions st) (load_artifact st) write_file int
    artifact_filename custom_filename (Some context) cfg initial.

Definition bytes_of (s : str) : bytes := default [] (Utf8.encode s).

Definition token (name_and_trailer : string) : str :=
  laquo :: lit "artifact_content:" ++ lit name_and_trailer ++ [raquo].

(** A page that shows one picture twice. *)
Definition gallery : str :=
  lit "<img src='" ++ token "photo.jpg >>> format:datauri" ++ lit "'><img src='"
    ++ token "photo.jpg >>> format:datauri" ++ lit "'>".

(** A page that refers to an artifact the store does not have. *)
Definition broken : str :=
  lit "<img src='" ++ token "missing.png >>> format:datauri" ++ lit "'>".

(** A page in Latin-1: its fourth byte is not valid UTF-8. *)
Definition latin1 : bytes := [60; 112; 62; 233; 60; 47; 112; 62]%N.

Definition shop : store :=
  [ (lit "gallery.html", [(0%Z, bytes_of gallery)]);
    (lit "broken.html", [(0%Z, bytes_of broken)]);
    (lit "photo.jpg", [(3%Z, [255; 216; 3]%N); (1%Z, [255; 216; 1]%N);
                       (2%Z, [255; 216; 2]%N)]);
    (lit "latin1.html", [(0%Z, latin1)]) ].

(** The world after the versions of [name] were listed and [version] was
    loaded. *)
Definition after_list (name : str) : world unit :=
  after initial (ListVersions name) tt.
Definition after_fetch (name : str) (version : Z) : world unit :=
  after (after_list name) (LoadArtifact name version) tt.

(** The picture as listed once hosted, and the world after [gallery.html]
    was fetched and the picture hosted. *)
Definition photo_entry : referenced_artifact :=
  {| ref_filename := lit "photo.jpg"; ref_hosted_filename := lit "photo.jpg";
     ref_url := lit "http://127.0.0.1:8080/photo.jpg" |}.

Definition after_photo : world unit :=
  after
    (after
       (after (after_fetch (lit "gallery.html") 0)
          (ListVersions (lit "photo.jpg")) tt)
       (LoadArtifact (lit "photo.jpg") 3) tt)
    (WriteFile (lit "/srv/hosted_files/photo.jpg") [255; 216; 3]%N) tt.

(** [gallery] as plain text and tokens. *)
Definition gallery_doc : list Doc.piece :=
  [ Doc.Plain (lit "<img src='");
    Doc.Ref (lit "photo.jpg ") (lit " format:datauri");
    Doc.Plain (lit "'><img src='");
    Doc.Ref (lit "photo.jpg ") (lit " format:datauri");
    Doc.Plain (lit "'>") ].

End Fixture.

(** A process for closed examples: every directory can be made, the
    working directory is [/opt/agent]. *)
Module Deployment.

Definition mkdir (directory : str) (x : unit) : outcome unit * unit := (Ok tt, x).

(** A file system on which nothing can be made. *)
Definition read_only (directory : str) (x : unit) : outcome unit * unit :=
  (Raise (Exn OtherException (lit "[Errno 30] Read-only file system")), x).

Definition cwd : PosixPath.path :=
  {| PosixPath.root := lit "/"; PosixPath.parts := [lit "opt"; lit "agent"] |}.

Definition fresh : Lifecycle.process unit :=
  {| Lifecycle.tools := {| outside := tt; _web_server_instance := None;
                           trace := [] |};
     Lifecycle.threads := [];
     Lifecycle.log := [] |}.

Definition proxied : Lifecycle.Config :=
  {| Lifecycle.config_port := Some 9000%Z;
     Lifecycle.config_host := Some (lit "0.0.0.0");
     Lifecycle.config_host_directory := Some (lit "/srv/files");
     Lifecycle.config_base_url := Some (lit "https://files.example.com/") |}.

(** Two entries of a hosting directory and a subdirectory, in the order
    the file system happens to yield them. *)
Definition entries : list Listing.dir_entry :=
  [ {| Listing.entry_name := lit "photo.jpg"; Listing.is_file := true;
       Listing.st_size := 2048 |};
    {| Listing.entry_name := lit "assets"; Listing.is_file := false;
       Listing.st_size := 4096 |};
    {| Listing.entry_name := lit "gallery.html"; Listing.is_file := true;
       Listing.st_size := 1048576 |} ].

End Deployment.

(* ===================================================================== *)
(** * Properties *)
(* ===================================================================== *)

(** ** Strings *)

Section StrFacts.

Lemma drop_while_split (p : N -> bool) (s : str) :
  exists a, s = a ++ drop_while p s /\ Forall (fun c => p c = true) a.
Proof.
  induction s as [|c s IH]; simpl.
  - exists []. split; [reflexivity | constructor].
  - destruct (p c) eqn:Hc.
    + destruct IH as (a & Hs & Ha). exists (c :: a). split.
      * simpl. congruence.
      * constructor; assumption.
    + exists []. split; [reflexivity | constructor].
Qed.

Lemma drop_while_head (p : N -> bool) (s : str) c rest :
  drop_while p s = c :: rest -> p c = false.
Proof.
  induction s as [|d s IH]; simpl; [discriminate|].
  destruct (p d) eqn:Hd; [exact IH|].
  intros H. injection H as -> _. exact Hd.
Qed.

(** [rstrip_by p s] is [s] without its longest suffix of [p]-characters. *)
Lemma rstrip_by_split (p : N -> bool) (s : str) :
  exists tail, s = rstrip_by p s ++ tail
               /\ Forall (fun c => p c = true) tail
               /\ (forall stem c, rstrip_by p s = stem ++ [c] -> p c = false).
Proof.
  unfold rstrip_by.
  destruct (drop_while_split p (rev s)) as (a & Hs & Ha).
  exists (rev a). repeat split.
  - rewrite <- rev_app_distr, <- Hs, rev_involutive. reflexivity.
  - apply Forall_rev. exact Ha.
  - intros stem c Hstem.
    apply (f_equal (@rev N)) in Hstem.
    rewrite rev_involutive, rev_app_distr in Hstem. simpl in Hstem.
    eapply drop_while_head. exact Hstem.
Qed.

Lemma contains_slash (c : N) : contains c (lit "/") = (c =? 47)%N.
Proof.
  change (lit "/") with [47%N]. unfold contains, existsb.
  apply orb_false_r.
Qed.

Lemma Forall_slash_repeat (tail : str) :
  Forall (fun c => contains c (lit "/") = true) tail ->
  tail = repeat 47%N (length tail).
Proof.
  induction 1 as [|c tail Hc _ IH]; simpl; [reflexivity|].
  f_equal; [|exact IH].
  rewrite contains_slash in Hc. apply N.eqb_eq in Hc. exact Hc.
Qed.

Lemma endswith_snoc (stem : str) (c d : N) :
  endswith (stem ++ [c]) [d] = (d =? c)%N.
Proof.
  unfold endswith. rewrite rev_app_distr. simpl.
  apply andb_true_r.
Qed.

End StrFacts.

(** ** The URL policy *)

(** C10.  An empty base-URL override is treated like an absent one: the
    URL is built from the server's own host and port, and is not the
    override-style ["/" ++ f]. *)
Theorem get_url_empty_override (self : ArtifactWebServer) (f : str) :
  get_url self f (Some []) = get_url self f None
  /\ get_url self f (Some [])
     = lit "http://" ++ host self ++ lit ":" ++ of_int (port self) ++ lit "/" ++ f
  /\ get_url self f (Some []) <> lit "/" ++ f.
Proof.
  repeat split. unfold get_url. simpl. discriminate.
Qed.

(** C2, as stated, fails for the empty override, which is not absent and
    yet yields the default URL instead of ["/index.html"]. *)
Lemma get_url_override_counterexample :
  get_url Fixture.server (lit "index.html") (Some [])
    = lit "http://127.0.0.1:8080/index.html"
  /\ get_url Fixture.server (lit "index.html") (Some [])
     <> rstrip (lit "/") [] ++ lit "/" ++ lit "index.html".
Proof. split; [reflexivity | discriminate]. Qed.

(** C2, amended.  Without an override the URL is
    [http://{host}:{port}/{f}]; with a non-empty override [b] it is [b]
    without its trailing slashes, a slash, and [f]; the file name is
    copied as it is in both. *)
Theorem get_url_spec (self : ArtifactWebServer) (f b : str) :
  b <> [] ->
  get_url self f None
    = lit "http://" ++ host self ++ lit ":" ++ of_int (port self) ++ lit "/" ++ f
  /\ exists stem n,
       b = stem ++ repeat 47%N n
       /\ endswith stem (lit "/") = false
       /\ get_url self f (Some b) = stem ++ lit "/" ++ f.
Proof.
  intros Hb. split; [reflexivity|].
  destruct (rstrip_by_split (fun c => contains c (lit "/")) b)
    as (tail & Hsplit & Htail & Hlast).
  exists (rstrip (lit "/") b), (length tail). repeat split.
  - rewrite <- (Forall_slash_repeat tail Htail). exact Hsplit.
  - unfold rstrip.
    destruct (rev (rstrip_by (fun c => contains c (lit "/")) b)) as [|c r] eqn:Hr.
    + apply (f_equal (@rev N)) in Hr. rewrite rev_involutive in Hr.
      rewrite Hr. reflexivity.
    + apply (f_equal (@rev N)) in Hr. rewrite rev_involutive in Hr.
      change (rev (c :: r)) with (rev r ++ [c]) in Hr. rewrite Hr.
      change (lit "/") with [47%N]. rewrite endswith_snoc.
      specialize (Hlast _ _ Hr). rewrite contains_slash in Hlast.
      rewrite N.eqb_sym. exact Hlast.
  - unfold get_url. destruct b; [congruence|]. reflexivity.
Qed.

Lemma get_url_spec_witness :
  lit "https://proxy.example/files//" <> []
  /\ (get_url Fixture.server (lit "a b.html") None
        = lit "http://" ++ host Fixture.server ++ lit ":"
            ++ of_int (port Fixture.server) ++ lit "/" ++ lit "a b.html"
      /\ exists stem n,
           lit "https://proxy.example/files//" = stem ++ repeat 47%N n
           /\ endswith stem (lit "/") = false
           /\ get_url Fixture.server (lit "a b.html")
                (Some (lit "https://proxy.example/files//"))
              = stem ++ lit "/" ++ lit "a b.html").
Proof.
  split; [discriminate | apply get_url_spec; discriminate].
Defined.

(** ** The listener thread *)

Section ServerFacts.
Import Server.

Lemma running_start (st : state) : running (start st) = true.
Proof.
  unfold start. destruct (running st) eqn:Hrun.
  - exact Hrun.
  - unfold running, is_alive. cbn [self server_thread threads].
    rewrite app_nth2 by lia. rewrite Nat.sub_diag. reflexivity.
Qed.

Lemma start_when_running (st : state) :
  running st = true ->
  start st
  = {| self := self st; threads := threads st;
       log := log st
              ++ [(WARNING, lit "[ArtifactWebServer] Server is already running")] |}.
Proof. intros Hrun. unfold start. rewrite Hrun. reflexivity. Qed.

Lemma listeners_app (ts : list bool) (b : bool) :
  length (List.filter (fun alive : bool => alive) (ts ++ [b]))
  = length (List.filter (fun alive : bool => alive) ts) + (if b then 1 else 0).
Proof.
  rewrite List.filter_app, length_app. destruct b; reflexivity.
Qed.

End ServerFacts.

(** C9.  When the server thread is running, [start()] only logs the
    warning: the server object and the threads are as before, so no
    listener is added.  A call of [start()] always leaves the server
    running, hence of two calls in succession only the first can create a
    listener: where none ran before, exactly one runs after both. *)
Theorem start_twice_one_listener (st st0 : Server.state) :
  Server.running st = true ->
  (Server.self (Server.start st) = Server.self st
   /\ Server.threads (Server.start st) = Server.threads st
   /\ Server.log (Server.start st)
      = Server.log st
          ++ [(WARNING, lit "[ArtifactWebServer] Server is already running")]
   /\ Server.listeners (Server.start st) = Server.listeners st)
  /\ Server.running (Server.start st0) = true
  /\ Server.threads (Server.start (Server.start st0)) = Server.threads (Server.start st0)
  /\ Server.listeners (Server.start (Server.start st0))
     = Server.listeners st0 + (if Server.running st0 then 0 else 1).
Proof.
  intros Hst. split.
  { rewrite (start_when_running st Hst). repeat split. }
  pose proof (running_start st0) as Hrun.
  split; [exact Hrun|].
  rewrite (start_when_running (Server.start st0) Hrun).
  cbn [Server.self Server.threads Server.log].
  split; [reflexivity|].
  unfold Server.listeners. cbn [Server.threads].
  unfold Server.start.
  destruct (Server.running st0); cbn [Server.threads].
  - lia.
  - apply listeners_app.
Qed.

Lemma start_twice_one_listener_witness :
  Server.running (Server.start Fixture.stopped) = true
  /\ Server.listeners Fixture.stopped = 0
  /\ Server.listeners (Server.start (Server.start Fixture.stopped)) = 1
  /\ Server.threads (Server.start (Server.start Fixture.stopped))
     = Server.threads (Server.start Fixture.stopped).
Proof.
  destruct (start_twice_one_listener (Server.start Fixture.stopped)
              Fixture.stopped eq_refl)
    as (_ & Hrun & Hthreads & Hcount).
  split; [exact Hrun|]. split; [reflexivity|].
  split; [exact Hcount | exact Hthreads].
Defined.

(** ** The size column *)

Section SizeFacts.
Import SizeDisplay.

Lemma true_div_pow2_exact (n k : Z) :
  (0 <= n < 2 ^ 53)%Z -> (0 < k)%Z ->
  numerator (true_div_pow2 n k) = n
  /\ denominator (true_div_pow2 n k) = (2 ^ k)%Z.
Proof.
  intros Hn Hk. unfold true_div_pow2, of_int_nearest.
  destruct (Z.ltb_spec n (2 ^ 53)) as [_|Hge]; [|lia].
  unfold numerator, denominator. cbn [mant expo].
  destruct (Z.leb_spec 0 (0 - k)) as [Hle|_]; [lia|].
  split; [reflexivity|]. f_equal. lia.
Qed.

Lemma of_int_nearest_large (n : Z) :
  (2 ^ 53 <= n)%Z ->
  (1 <= expo (of_int_nearest n))%Z /\ (2 ^ 52 <= mant (of_int_nearest n))%Z.
Proof.
  intros Hn. unfold of_int_nearest.
  destruct (Z.ltb_spec n (2 ^ 53)) as [Hlt|_]; [lia|].
  cbn [mant expo].
  assert (Hlog : (53 <= Z.log2 n)%Z)
    by (change 53%Z with (Z.log2 (2 ^ 53)); apply Z.log2_le_mono; exact Hn).
  split; [lia|].
  assert (Hq : (2 ^ 52 <= n / 2 ^ (Z.log2 n - 52))%Z).
  { apply Z.div_le_lower_bound; [apply Z.pow_pos_nonneg; lia|].
    rewrite <- Z.pow_add_r by lia.
    replace (Z.log2 n - 52 + 52)%Z with (Z.log2 n) by lia.
    apply Z.log2_spec. lia. }
  destruct (_ || _); lia.
Qed.

(** The comparison with [1] decides as the byte count does with 1 MiB,
    whatever the size. *)
Lemma ge_one_threshold (n : Z) :
  (0 <= n)%Z -> ge_one (true_div_pow2 n 20) = (1048576 <=? n)%Z.
Proof.
  intros Hn. destruct (Z.lt_ge_cases n (2 ^ 53)) as [Hsmall|Hlarge].
  - unfold ge_one.
    destruct (true_div_pow2_exact n 20 (conj Hn Hsmall) ltac:(lia)) as [-> ->].
    reflexivity.
  - destruct (of_int_nearest_large n Hlarge) as [Hexpo Hmant].
    transitivity true.
    2:{ symmetry. apply Z.leb_le. lia. }
    unfold ge_one, numerator, denominator, true_div_pow2. cbn [mant expo].
    apply Z.leb_le.
    destruct (Z.leb_spec 0 (expo (of_int_nearest n) - 20)) as [Hpos|Hneg].
    + pose proof (Z.pow_pos_nonneg 2 (expo (of_int_nearest n) - 20)
                    ltac:(lia) Hpos).
      nia.
    + etransitivity; [|exact Hmant].
      apply Z.pow_le_mono_r; lia.
Qed.

End SizeFacts.

(** C8.  For a file of [n] bytes (below [2 ^ 53], where the division is
    exact) the size column shows [n / 1048576] to two decimals and [MB]
    when [n] is at least 1 MiB, and [n / 1024] to two decimals and [KB]
    otherwise; for a file of any size [k] the unit is [MB] exactly when
    [k] is at least 1 MiB; 1048576 bytes show as [1.00 MB] and 2048 bytes
    as [2.00 KB]. *)
Theorem size_display_spec (n k : Z) :
  (0 <= n < 2 ^ 53)%Z ->
  (0 <= k)%Z ->
  SizeDisplay.size_display n
    = (if (1048576 <=? n)%Z
       then SizeDisplay.two_decimals n 1048576 ++ lit " MB"
       else SizeDisplay.two_decimals n 1024 ++ lit " KB")
  /\ SizeDisplay.size_display k
     = (if (1048576 <=? k)%Z
        then SizeDisplay.format_2f (SizeDisplay.true_div_pow2 k 20) ++ lit " MB"
        else SizeDisplay.format_2f (SizeDisplay.true_div_pow2 k 10) ++ lit " KB")
  /\ SizeDisplay.size_display 1048576 = lit "1.00 MB"
  /\ SizeDisplay.size_display 2048 = lit "2.00 KB".
Proof.
  intros Hn Hk.
  split; [|split; [|split; vm_compute; reflexivity]].
  - unfold SizeDisplay.size_display.
    rewrite ge_one_threshold by lia.
    unfold SizeDisplay.format_2f, SizeDisplay.two_decimals.
    destruct (true_div_pow2_exact n 20 Hn ltac:(lia)) as [-> ->].
    destruct (true_div_pow2_exact n 10 Hn ltac:(lia)) as [-> ->].
    reflexivity.
  - unfold SizeDisplay.size_display.
    rewrite ge_one_threshold by exact Hk. reflexivity.
Qed.

Lemma size_display_spec_witness :
  ((0 <= 1572864 < 2 ^ 53)%Z /\ (0 <= 2 ^ 60 + 12345)%Z)
  /\ SizeDisplay.size_display 1572864
     = (if (1048576 <=? 1572864)%Z
        then SizeDisplay.two_decimals 1572864 1048576 ++ lit " MB"
        else SizeDisplay.two_decimals 1572864 1024 ++ lit " KB")
  /\ SizeDisplay.size_display (2 ^ 60 + 12345)
     = (if (1048576 <=? 2 ^ 60 + 12345)%Z
        then SizeDisplay.format_2f (SizeDisplay.true_div_pow2 (2 ^ 60 + 12345) 20)
               ++ lit " MB"
        else SizeDisplay.format_2f (SizeDisplay.true_div_pow2 (2 ^ 60 + 12345) 10)
               ++ lit " KB")
  /\ SizeDisplay.size_display 1048576 = lit "1.00 MB"
  /\ SizeDisplay.size_display 2048 = lit "2.00 KB".
Proof.
  split; [split; lia|].
  apply (size_display_spec 1572864 (2 ^ 60 + 12345)); lia.
Defined.

(** ** The monad *)

Section EffFacts.
Context {S A B : Type}.

Lemma bind_ok (m : M S A) (k : A -> M S B) s a s1 :
  m s = (Ok a, s1) -> Eff.bind m k s = k a s1.
Proof. intros H. unfold Eff.bind. rewrite H. reflexivity. Qed.

Lemma bind_raise (m : M S A) (k : A -> M S B) s e s1 :
  m s = (Raise e, s1) -> Eff.bind m k s = (Raise e, s1).
Proof. intros H. unfold Eff.bind. rewrite H. reflexivity. Qed.

Lemma bind_ok_inv (m : M S A) (k : A -> M S B) s b s' :
  Eff.bind m k s = (Ok b, s') ->
  exists a s1, m s = (Ok a, s1) /\ k a s1 = (Ok b, s').
Proof.
  unfold Eff.bind. destruct (m s) as [[a|e] s1]; intros H.
  - exists a, s1. split; [reflexivity | exact H].
  - discriminate.
Qed.

Lemma try_except_total (body : M S A) (handler : exn -> M S A) s :
  (forall e s1, exists a s2, handler e s1 = (Ok a, s2)) ->
  exists a s', try_except body handler s = (Ok a, s').
Proof.
  intros Hh. unfold try_except. destruct (body s) as [[a|e] s1].
  - exists a, s1. reflexivity.
  - apply Hh.
Qed.

End EffFacts.

(** ** The matcher *)

Section ReFacts.

Lemma literal_app (p rest : str) : Re.literal p (p ++ rest) = Some rest.
Proof.
  induction p as [|a p IH]; [reflexivity|].
  cbn [app Re.literal]. rewrite N.eqb_refl. exact IH.
Qed.

Lemma literal_sound (p s rest : str) :
  Re.literal p s = Some rest -> s = p ++ rest.
Proof.
  revert s. induction p as [|a p IH]; intros s H.
  - cbn in H. injection H as ->. reflexivity.
  - destruct s as [|b s]; [discriminate|]. cbn [Re.literal] in H.
    destruct (N.eqb_spec a b) as [->|]; [|discriminate].
    cbn [app]. f_equal. apply IH. exact H.
Qed.

Lemma greedy_sound {R} (cls : N -> bool) (s : str) (k : str -> str -> option R) x :
  Re.greedy cls s k = Some x ->
  exists m rest, s = m ++ rest /\ Forall (fun c => cls c = true) m
                 /\ k m rest = Some x.
Proof.
  revert k. induction s as [|c s IH]; intros k H; cbn [Re.greedy] in H.
  - exists [], []. auto.
  - destruct (cls c) eqn:Hc.
    + destruct (Re.greedy cls s (fun m rest => k (c :: m) rest)) as [y|] eqn:Hg.
      * injection H as ->.
        apply IH in Hg as (m & rest & -> & Hm & Hk).
        exists (c :: m), rest. split; [reflexivity|].
        split; [constructor; assumption | exact Hk].
      * exists [], (c :: s). auto.
    + exists [], (c :: s). auto.
Qed.

Lemma greedy_none {R} (cls : N -> bool) (s : str) (k : str -> str -> option R) :
  (forall m rest, s = m ++ rest -> Forall (fun c => cls c = true) m ->
                  k m rest = None) ->
  Re.greedy cls s k = None.
Proof.
  revert k. induction s as [|c s IH]; intros k Hk; cbn [Re.greedy].
  - apply Hk; [reflexivity | constructor].
  - assert (Hnow : k [] (c :: s) = None) by (apply Hk; [reflexivity | constructor]).
    destruct (cls c) eqn:Hc; [|exact Hnow].
    rewrite IH; [exact Hnow|].
    intros m rest -> Hm. apply Hk; [reflexivity|].
    constructor; assumption.
Qed.

(** The repetition stops at the longest prefix after which the rest of the
    pattern matches. *)
Lemma greedy_first {R} (cls : N -> bool) (a b : str)
    (k : str -> str -> option R) x :
  Forall (fun c => cls c = true) a ->
  k a b = Some x ->
  (forall c b', c <> [] -> b = c ++ b' -> Forall (fun d => cls d = true) c ->
                k (a ++ c) b' = None) ->
  Re.greedy cls (a ++ b) k = Some x.
Proof.
  revert k. induction a as [|a0 a IH]; intros k Ha Hk Hlonger.
  - cbn [app] in *. destruct b as [|b0 b]; [exact Hk|].
    cbn [Re.greedy]. destruct (cls b0) eqn:Hb0; [|exact Hk].
    rewrite greedy_none; [exact Hk|].
    intros m rest -> Hm.
    apply (Hlonger (b0 :: m) rest); [discriminate | reflexivity|].
    constructor; assumption.
  - inversion Ha as [|? ? Ha0 Ha']; subst.
    cbn [app Re.greedy]. rewrite Ha0.
    rewrite (IH (fun m rest => k (a0 :: m) rest)); [reflexivity | exact Ha' | exact Hk |].
    intros c b' Hc Hb Hcls. apply (Hlonger c b' Hc Hb Hcls).
Qed.

(** What the search finds is a prefix denoted by the pattern, and the
    capture it hands on is the one it received or a part of that prefix. *)
Lemma run_sound (r : Re.re) :
  forall R (s : str) (g : option str)
         (k : str -> str -> option str -> option R) x,
    Re.run r s g k = Some x ->
    exists m rest g',
      s = m ++ rest /\ denotes r m /\ k m rest g' = Some x
      /\ (g' = g \/ exists pre gm post, g' = Some gm /\ m = pre ++ gm ++ post).
Proof.
  induction r as [p|cls|cls|r1 IH1|r1 IH1 r2 IH2]; intros R s g k x H;
    cbn [Re.run] in H.
  - destruct (Re.literal p s) as [rest|] eqn:Hlit; [|discriminate].
    apply literal_sound in Hlit. exists p, rest, g. cbn [denotes]. auto.
  - destruct s as [|c s]; [discriminate|].
    destruct (cls c) eqn:Hc; [|discriminate].
    apply greedy_sound in H as (m & rest & -> & Hm & Hk).
    exists (c :: m), rest, g. cbn [denotes].
    split; [reflexivity|]. split; [|auto].
    split; [discriminate | constructor; assumption].
  - apply greedy_sound in H as (m & rest & -> & Hm & Hk).
    exists m, rest, g. cbn [denotes]. auto.
  - apply IH1 in H as (m & rest & g' & -> & Hden & Hk & _).
    exists m, rest, (Some m). cbn [denotes].
    split; [reflexivity|]. split; [exact Hden|]. split; [exact Hk|].
    right. exists [], m, []. rewrite app_nil_r. auto.
  - apply IH1 in H as (m1 & rest1 & g1 & -> & Hden1 & H & Hg1).
    apply IH2 in H as (m2 & rest2 & g2 & -> & Hden2 & Hk & Hg2).
    exists (m1 ++ m2), rest2, g2. cbn [denotes].
    split; [apply app_assoc|].
    split; [exists m1, m2; auto|]. split; [exact Hk|].
    destruct Hg2 as [->|(pre & gm & post & -> & ->)].
    + destruct Hg1 as [->|(pre & gm & post & -> & ->)]; [left; reflexivity|].
      right. exists pre, gm, (post ++ m2). split; [reflexivity|].
      rewrite <- !app_assoc. reflexivity.
    + right. exists (m1 ++ pre), gm, post. split; [reflexivity|].
      rewrite <- !app_assoc. reflexivity.
Qed.

Lemma match_at_sound (r : Re.re) (s m g : str) :
  Re.match_at r s = Some (m, g) ->
  exists rest, s = m ++ rest /\ denotes r m
               /\ (g = [] \/ exists pre post, m = pre ++ g ++ post).
Proof.
  unfold Re.match_at. intros H.
  apply run_sound in H as (m' & rest & g' & -> & Hden & Hk & Hg).
  injection Hk as <- <-. exists rest. split; [reflexivity|]. split; [exact Hden|].
  destruct Hg as [->|(pre & gm & post & -> & ->)]; [left; reflexivity|].
  right. exists pre, post. reflexivity.
Qed.

(** *** Arrows before the closing marker *)

Lemma arrows_drop (m rest : str) :
  Forall (fun c => c <> raquo) m ->
  arrows_ahead (m ++ rest) = false -> arrows_ahead rest = false.
Proof.
  induction 1 as [|c m Hc _ IH]; [auto|].
  cbn [app arrows_ahead].
  destruct (N.eqb_spec c raquo) as [?|_]; [contradiction|].
  intros H. apply orb_false_elim in H as [_ H]. exact (IH H).
Qed.

Lemma arrows_literal (s rest : str) :
  Re.literal (lit ">>>") s = Some rest -> arrows_ahead s = true.
Proof.
  intros H. apply literal_sound in H as ->. reflexivity.
Qed.

Lemma is_prefix_close_cut (p t post : str) :
  Forall (fun c => c <> raquo) p ->
  is_prefix p (t ++ raquo :: post) = is_prefix p (t ++ [raquo]).
Proof.
  intros Hp. revert t. induction Hp as [|a p Ha _ IH]; intros t.
  - destruct t; reflexivity.
  - destruct t as [|c t]; cbn [app is_prefix].
    + destruct (N.eqb_spec a raquo) as [?|_]; [contradiction | reflexivity].
    + rewrite IH. reflexivity.
Qed.

Lemma arrows_close_cut (t post : str) :
  arrows_ahead (t ++ raquo :: post) = arrows_ahead (t ++ [raquo]).
Proof.
  induction t as [|c t IH].
  - cbn [app arrows_ahead]. rewrite N.eqb_refl. reflexivity.
  - change ((c :: t) ++ raquo :: post) with (c :: (t ++ raquo :: post)).
    change ((c :: t) ++ [raquo]) with (c :: (t ++ [raquo])).
    cbn [arrows_ahead]. rewrite IH.
    change (c :: (t ++ raquo :: post)) with ((c :: t) ++ raquo :: post).
    change (c :: (t ++ [raquo])) with ((c :: t) ++ [raquo]).
    rewrite is_prefix_close_cut; [reflexivity|].
    repeat constructor; discriminate.
Qed.

Lemma name_char_not_close (c : N) : name_char c = true -> c <> raquo.
Proof.
  unfold name_char. intros H ->. rewrite N.eqb_refl in H.
  rewrite andb_false_r in H. discriminate.
Qed.

Lemma space_not_close (c : N) : is_space c = true -> c <> raquo.
Proof. intros H ->. vm_compute in H. discriminate. Qed.

Lemma Forall_not_close (cls : N -> bool) (m : str) :
  (forall c, cls c = true -> c <> raquo) ->
  Forall (fun c => cls c = true) m -> Forall (fun c => c <> raquo) m.
Proof. intros Hcls H. induction H; constructor; auto. Qed.

Lemma marker_open_not_close : Forall (fun c => c <> raquo) marker_open.
Proof. unfold marker_open. repeat constructor; discriminate. Qed.

Lemma spaces_then_arrows_need_arrows (after_arrows : Re.re -> Re.re) :
  (forall R s g (k : str -> str -> option str -> option R),
      Re.literal (lit ">>>") s = None ->
      Re.run (after_arrows (Re.Lit (lit ">>>"))) s g k = None) ->
  needs_arrows (Re.Cat (Re.Star is_space) (after_arrows (Re.Lit (lit ">>>")))).
Proof.
  intros Hlit R s g k Hs. cbn [Re.run]. apply greedy_none.
  intros m rest -> Hm. apply Hlit.
  destruct (Re.literal (lit ">>>") rest) as [r|] eqn:Hr; [|reflexivity].
  apply arrows_literal in Hr.
  rewrite (arrows_drop m rest (Forall_not_close _ _ space_not_close Hm) Hs) in Hr.
  discriminate.
Qed.

Lemma extract_tail_needs_arrows :
  needs_arrows (Re.Cat (Re.Star is_space) (Re.Lit (lit ">>>"))).
Proof.
  apply (spaces_then_arrows_need_arrows (fun arrows => arrows)).
  intros R s g k Hnone. cbn [Re.run]. rewrite Hnone. reflexivity.
Qed.

Lemma replace_tail_needs_arrows :
  needs_arrows
    (Re.Cat (Re.Star is_space)
       (Re.Cat (Re.Lit (lit ">>>"))
          (Re.Cat (Re.Star trailer_char) (Re.Lit [raquo])))).
Proof.
  apply (spaces_then_arrows_need_arrows
           (fun arrows =>
              Re.Cat arrows (Re.Cat (Re.Star trailer_char) (Re.Lit [raquo])))).
  intros R s g k Hnone. cbn [Re.run]. rewrite Hnone. reflexivity.
Qed.

(** *** Equations of the search *)

Lemma run_lit_app {R} (p rest : str) g (k : str -> str -> option str -> option R) :
  Re.run (Re.Lit p) (p ++ rest) g k = k p rest g.
Proof. cbn [Re.run]. rewrite literal_app. reflexivity. Qed.

Lemma run_cat {R} (r1 r2 : Re.re) s g (k : str -> str -> option str -> option R) :
  Re.run (Re.Cat r1 r2) s g k
  = Re.run r1 s g (fun m1 rest1 g1 =>
      Re.run r2 rest1 g1 (fun m2 rest2 g2 => k (m1 ++ m2) rest2 g2)).
Proof. reflexivity. Qed.

Lemma run_star_stop {R} (cls : N -> bool) c s g
    (k : str -> str -> option str -> option R) :
  cls c = false -> Re.run (Re.Star cls) (c :: s) g k = k [] (c :: s) g.
Proof. intros Hc. cbn [Re.run Re.greedy]. rewrite Hc. reflexivity. Qed.

Lemma run_star_first {R} (cls : N -> bool) (a b : str) g
    (k : str -> str -> option str -> option R) x :
  Forall (fun c => cls c = true) a ->
  k a b g = Some x ->
  (forall c b', c <> [] -> b = c ++ b' -> Forall (fun d => cls d = true) c ->
                k (a ++ c) b' g = None) ->
  Re.run (Re.Star cls) (a ++ b) g k = Some x.
Proof. intros Ha Hk Hlonger. cbn [Re.run]. apply greedy_first; assumption. Qed.

(** The group takes the raw name and no more when, further on, no [>>>]
    is left for the rest of the pattern. *)
Lemma group_then_tail {R} (tail : Re.re) (raw b : str) g0
    (k : str -> str -> option str -> option R) x :
  raw <> [] ->
  Forall (fun c => name_char c = true) raw ->
  needs_arrows tail ->
  (forall c b', c <> [] -> b = c ++ b' ->
                Forall (fun d => name_char d = true) c ->
                arrows_ahead b' = false) ->
  Re.run tail b (Some raw) (fun m2 rest2 g2 => k (raw ++ m2) rest2 g2) = Some x ->
  Re.run (Re.Cat (Re.Group (Re.Plus name_char)) tail) (raw ++ b) g0 k = Some x.
Proof.
  intros Hne Hraw Htail Hfew Hrun.
  destruct raw as [|r0 raw]; [congruence|].
  inversion Hraw as [|? ? Hr0 Hraw']; subst.
  cbn [Re.run app]. rewrite Hr0.
  apply greedy_first; [exact Hraw' | exact Hrun |].
  intros c b' Hc Hb Hcls. apply Htail. eapply Hfew; eassumption.
Qed.

Lemma few_arrows_past_the_name (trailer post c b' : str) :
  arrows_ahead (lit ">>" ++ trailer ++ [raquo]) = false ->
  c <> [] ->
  lit ">>>" ++ trailer ++ raquo :: post = c ++ b' ->
  Forall (fun d => name_char d = true) c ->
  arrows_ahead b' = false.
Proof.
  intros Htrailer Hc Heq Hcls.
  destruct c as [|c0 c]; [congruence|].
  assert (Heq' : (lit ">>" ++ trailer) ++ raquo :: post = c ++ b').
  { change (lit ">>>" ++ trailer ++ raquo :: post)
      with (62%N :: ((lit ">>" ++ trailer) ++ raquo :: post)) in Heq.
    change ((c0 :: c) ++ b') with (c0 :: (c ++ b')) in Heq. congruence. }
  inversion Hcls as [|? ? _ Hcls']; subst.
  apply (arrows_drop c b' (Forall_not_close _ _ name_char_not_close Hcls')).
  rewrite <- Heq', arrows_close_cut, <- app_assoc. exact Htrailer.
Qed.


Lemma match_replace_token (raw trailer post : str) :
  Doc.well_formed (Doc.Ref raw trailer) ->
  Re.match_at replace_pattern (Doc.token raw trailer ++ post)
  = Some (Doc.token raw trailer, raw).
Proof.
  intros (Hne & Hraw & Htrailer & Harrows).
  unfold Re.match_at, replace_pattern, Doc.token.
  rewrite <- !app_assoc. rewrite run_cat, run_lit_app.
  erewrite (group_then_tail _ raw (lit ">>>" ++ trailer ++ [raquo] ++ post));
    [reflexivity | exact Hne | exact Hraw | exact replace_tail_needs_arrows | |].
  - intros c b' Hc Heq Hcls.
    eapply few_arrows_past_the_name; eassumption.
  - rewrite run_cat.
    change (lit ">>>" ++ trailer ++ [raquo] ++ post)
      with (62%N :: (lit ">>" ++ trailer ++ [raquo] ++ post)).
    rewrite run_star_stop by reflexivity.
    change (62%N :: (lit ">>" ++ trailer ++ [raquo] ++ post))
      with (lit ">>>" ++ (trailer ++ [raquo] ++ post)).
    rewrite run_cat, run_lit_app, run_cat.
    erewrite (run_star_first trailer_char trailer ([raquo] ++ post)).
    + reflexivity.
    + clear -Htrailer. induction Htrailer as [|c t Hc _ IH]; constructor.
      * unfold trailer_char. apply N.eqb_neq in Hc. rewrite Hc. reflexivity.
      * exact IH.
    + rewrite run_lit_app. cbn [default from_option id app]. reflexivity.
    + intros c b' Hc Heq Hcls. destruct c as [|c0 c]; [congruence|].
      cbn [app] in Heq. injection Heq as <- _.
      inversion Hcls as [|? ? Hbad _]. discriminate.
Qed.

Lemma group_needs_arrows (tail : Re.re) :
  needs_arrows tail ->
  needs_arrows (Re.Cat (Re.Group (Re.Plus name_char)) tail).
Proof.
  intros Htail R s g k Hs. cbn [Re.run].
  destruct s as [|c s]; [reflexivity|].
  destruct (name_char c) eqn:Hc; [|reflexivity].
  apply greedy_none. intros m rest -> Hm. apply Htail.
  apply (arrows_drop (c :: m) rest); [|exact Hs].
  constructor; [apply name_char_not_close; exact Hc|].
  eapply Forall_not_close; [exact name_char_not_close | exact Hm].
Qed.

Lemma open_needs_arrows (r : Re.re) :
  needs_arrows r -> needs_arrows (Re.Cat (Re.Lit marker_open) r).
Proof.
  intros Hr R s g k Hs. cbn [Re.run].
  destruct (Re.literal marker_open s) as [rest|] eqn:Hlit; [|reflexivity].
  apply literal_sound in Hlit as ->. apply Hr.
  exact (arrows_drop _ _ marker_open_not_close Hs).
Qed.

Lemma extract_needs_arrows (s : str) :
  arrows_ahead s = false -> Re.match_at extract_pattern s = None.
Proof.
  intros Hs. unfold Re.match_at, extract_pattern.
  apply open_needs_arrows; [|exact Hs].
  apply group_needs_arrows. exact extract_tail_needs_arrows.
Qed.

Lemma compatible_literal (p s rest : str) :
  compatible p s = false -> Re.literal p (s ++ rest) = None.
Proof.
  revert s. induction p as [|a p IH]; intros s; [discriminate|].
  destruct s as [|b s]; [discriminate|].
  cbn [compatible app Re.literal].
  destruct (a =? b)%N; [apply IH | reflexivity].
Qed.

Lemma no_match_without_open (r : Re.re) (s rest : str) :
  compatible marker_open s = false ->
  Re.match_at (Re.Cat (Re.Lit marker_open) r) (s ++ rest) = None.
Proof.
  intros Hs. unfold Re.match_at. cbn [Re.run].
  rewrite (compatible_literal _ _ _ Hs). reflexivity.
Qed.

(** *** The scans *)

Lemma findall_skip (r : Re.re) (m rest : str) :
  Re.findall_from r (length m) (m ++ rest) = Re.findall_from r 0 rest.
Proof.
  induction m as [|c m IH]; [reflexivity|].
  cbn [length app Re.findall_from]. exact IH.
Qed.

Lemma sub_skip (r : Re.re) (repl : str -> str) (m rest : str) :
  Re.sub_from r repl (length m) (m ++ rest) = Re.sub_from r repl 0 rest.
Proof.
  induction m as [|c m IH]; [reflexivity|].
  cbn [length app Re.sub_from]. exact IH.
Qed.

Lemma findall_match (r : Re.re) (m g rest : str) :
  m <> [] ->
  Re.match_at r (m ++ rest) = Some (m, g) ->
  Re.findall_from r 0 (m ++ rest) = g :: Re.findall_from r 0 rest.
Proof.
  intros Hm Hmatch. destruct m as [|c m]; [congruence|].
  cbn [app Re.findall_from]. cbn [app] in Hmatch. rewrite Hmatch.
  replace (length (c :: m) - 1) with (length m) by (cbn [length]; lia).
  rewrite findall_skip. reflexivity.
Qed.

Lemma sub_match (r : Re.re) (repl : str -> str) (m g rest : str) :
  m <> [] ->
  Re.match_at r (m ++ rest) = Some (m, g) ->
  Re.sub_from r repl 0 (m ++ rest) = repl g ++ Re.sub_from r repl 0 rest.
Proof.
  intros Hm Hmatch. destruct m as [|c m]; [congruence|].
  cbn [app Re.sub_from]. cbn [app] in Hmatch. rewrite Hmatch.
  replace (length (c :: m) - 1) with (length m) by (cbn [length]; lia).
  rewrite sub_skip. reflexivity.
Qed.

Lemma findall_plain (text rest : str) :
  no_marker text = true ->
  Re.findall_from extract_pattern 0 (text ++ rest)
  = Re.findall_from extract_pattern 0 rest.
Proof.
  induction text as [|c text IH]; [reflexivity|].
  cbn [no_marker]. intros H. apply andb_prop in H as [Hc Htext].
  apply negb_true_iff in Hc.
  change ((c :: text) ++ rest) with (c :: (text ++ rest)).
  cbn [Re.findall_from].
  change (c :: (text ++ rest)) with ((c :: text) ++ rest).
  unfold extract_pattern at 1. rewrite no_match_without_open by exact Hc.
  exact (IH Htext).
Qed.

Lemma sub_plain (repl : str -> str) (text rest : str) :
  no_marker text = true ->
  Re.sub_from replace_pattern repl 0 (text ++ rest)
  = text ++ Re.sub_from replace_pattern repl 0 rest.
Proof.
  induction text as [|c text IH]; [reflexivity|].
  cbn [no_marker]. intros H. apply andb_prop in H as [Hc Htext].
  apply negb_true_iff in Hc.
  change ((c :: text) ++ rest) with (c :: (text ++ rest)).
  cbn [Re.sub_from].
  change (c :: (text ++ rest)) with ((c :: text) ++ rest).
  unfold replace_pattern at 1. rewrite no_match_without_open by exact Hc.
  cbn [app]. f_equal. exact (IH Htext).
Qed.


Lemma marker_open_app_nonempty (s : str) : marker_open ++ s <> [].
Proof. unfold marker_open. cbn [app]. discriminate. Qed.


Lemma sub_token (repl : str -> str) (raw trailer rest : str) :
  Doc.well_formed (Doc.Ref raw trailer) ->
  Re.sub_from replace_pattern repl 0 (Doc.token raw trailer ++ rest)
  = repl raw ++ Re.sub_from replace_pattern repl 0 rest.
Proof.
  intros Hwf. apply sub_match; [apply marker_open_app_nonempty|].
  apply match_replace_token. exact Hwf.
Qed.


Lemma replace_render (doc : list Doc.piece) (filename_map : gmap str str) :
  Forall Doc.well_formed doc ->
  _replace_artifact_references (Doc.render doc) filename_map
  = Doc.rewritten (fun name => filename_map !! name) doc.
Proof.
  unfold _replace_artifact_references, Re.sub, Doc.render, Doc.rewritten.
  induction 1 as [|p doc Hp _ IH]; [reflexivity|].
  cbn [List.map concat]. destruct p as [text|raw trailer]; cbn [Doc.source].
  - rewrite sub_plain by exact Hp. f_equal. exact IH.
  - rewrite sub_token by exact Hp. f_equal. exact IH.
Qed.

End ReFacts.

(** ** Names without repeats *)

Section DictFacts.

Lemma eqb_true (a b : str) : PyStr.eqb a b = true <-> a = b.
Proof. unfold PyStr.eqb. apply bool_decide_eq_true. Qed.

Lemma eqb_sym (a b : str) : PyStr.eqb a b = PyStr.eqb b a.
Proof.
  unfold PyStr.eqb. destruct (decide (a = b)) as [->|Hne].
  - reflexivity.
  - rewrite !bool_decide_eq_false_2; [reflexivity | congruence | exact Hne].
Qed.

Lemma existsb_eqb (x : str) (l : list str) :
  existsb (PyStr.eqb x) l = true <-> In x l.
Proof.
  rewrite existsb_exists. split.
  - intros (y & Hy & Heq). apply eqb_true in Heq. subst. exact Hy.
  - intros Hx. exists x. split; [exact Hx | apply eqb_true; reflexivity].
Qed.

Lemma filter_filter_and {T} (p q : T -> bool) (l : list T) :
  List.filter p (List.filter q l) = List.filter (fun y => q y && p y) l.
Proof.
  induction l as [|y l IH]; [reflexivity|].
  cbn [List.filter]. destruct (q y); cbn [List.filter andb].
  - destruct (p y); [f_equal|]; exact IH.
  - exact IH.
Qed.

Lemma fromkeys_from (l acc : list str) :
  fold_left PyDict.setdefault_key l acc
  = acc ++ List.filter (fun y => negb (existsb (PyStr.eqb y) acc))
             (first_occurrences l).
Proof.
  revert acc. induction l as [|x l IH]; intros acc.
  - cbn. symmetry. apply app_nil_r.
  - cbn [fold_left first_occurrences List.filter].
    unfold PyDict.setdefault_key at 2.
    destruct (existsb (PyStr.eqb x) acc) eqn:Hx; cbn [negb].
    + rewrite IH. f_equal. rewrite filter_filter_and.
      apply List.filter_ext. intros y.
      destruct (PyStr.eqb x y) eqn:Hxy; [|reflexivity].
      apply eqb_true in Hxy. subst y. rewrite Hx. reflexivity.
    + rewrite IH. rewrite <- app_assoc. cbn [app]. do 2 f_equal.
      rewrite filter_filter_and. apply List.filter_ext. intros y.
      rewrite existsb_app. cbn [existsb]. rewrite orb_false_r, negb_orb.
      rewrite (eqb_sym y x). apply andb_comm.
Qed.

(** The keys of [dict.fromkeys(l)] are the elements of [l], each where it
    first occurs. *)
Lemma fromkeys_first_occurrences (l : list str) :
  PyDict.fromkeys l = first_occurrences l.
Proof.
  unfold PyDict.fromkeys. rewrite fromkeys_from. cbn [app existsb negb].
  induction (first_occurrences l) as [|y fo IH]; [reflexivity|].
  cbn [List.filter]. f_equal. exact IH.
Qed.

Lemma first_occurrences_In (l : list str) (x : str) :
  In x (first_occurrences l) <-> In x l.
Proof.
  induction l as [|y l IH]; [reflexivity|].
  cbn [first_occurrences In]. rewrite List.filter_In, IH.
  split.
  - intros [->|[Hx _]]; auto.
  - intros [->|Hx]; [auto|].
    destruct (PyStr.eqb y x) eqn:Hyx.
    + apply eqb_true in Hyx. auto.
    + right. auto.
Qed.

Lemma first_occurrences_NoDup (l : list str) : NoDup (first_occurrences l).
Proof.
  induction l as [|y l IH]; [constructor|].
  cbn [first_occurrences]. apply NoDup_cons_2.
  - rewrite list_elem_of_In, List.filter_In. intros [_ Hy].
    rewrite (proj2 (eqb_true y y) eq_refl) in Hy. discriminate.
  - apply NoDup_ListNoDup, List.NoDup_filter, NoDup_ListNoDup. exact IH.
Qed.

End DictFacts.

(** ** UTF-8 *)

Section Utf8Facts.

Lemma fmap_cons_Some (c : N) (o : option str) (s : str) :
  cons c <$> o = Some s -> exists s', o = Some s' /\ s = c :: s'.
Proof.
  destruct o as [s'|]; [|discriminate].
  intros H. injection H as <-. exists s'. auto.
Qed.

(** Decoding yields code points only. *)
Lemma decode_scalar_le (n : nat) :
  forall (bs : bytes) (s : str),
    length bs <= n -> Utf8.decode bs = Some s ->
    Forall (fun c => scalar c = true) s.
Proof.
  unfold scalar, Utf8.is_surrogate.
  induction n as [|n IH]; intros bs s Hlen Hdec.
  - destruct bs; [|cbn in Hlen; lia]. injection Hdec as <-. constructor.
  - destruct bs as [|b0 r0]; [injection Hdec as <-; constructor|].
    cbn [Utf8.decode] in Hdec. cbn [length] in Hlen.
    destruct (N.ltb_spec b0 128).
    { apply fmap_cons_Some in Hdec as (s' & Hs' & ->).
      constructor; [|apply (IH r0); [lia | exact Hs']].
      apply andb_true_intro. split; [apply N.leb_le; lia|].
      apply negb_true_iff, andb_false_intro1, N.leb_gt. lia. }
    destruct ((192 <=? b0)%N && (b0 <? 224)%N) eqn:H2.
    { apply andb_prop in H2 as [Hlo%N.leb_le Hhi%N.ltb_lt].
      destruct r0 as [|b1 r1]; [discriminate|]. cbn [length] in Hlen.
      destruct (Utf8.is_cont b1 && _) eqn:Hchk; [|discriminate].
      apply andb_prop in Hchk as [Hc1 _].
      unfold Utf8.is_cont in Hc1.
      apply andb_prop in Hc1 as [Hc1lo%N.leb_le Hc1hi%N.ltb_lt].
      apply fmap_cons_Some in Hdec as (s' & Hs' & ->).
      constructor; [|apply (IH r1); [lia | exact Hs']].
      apply andb_true_intro. split; [apply N.leb_le; lia|].
      apply negb_true_iff, andb_false_intro1, N.leb_gt. lia. }
    destruct ((224 <=? b0)%N && (b0 <? 240)%N) eqn:H3.
    { apply andb_prop in H3 as [Hlo%N.leb_le Hhi%N.ltb_lt].
      destruct r0 as [|b1 [|b2 r2]]; [discriminate..|]. cbn [length] in Hlen.
      match type of Hdec with (if ?chk then _ else _) = _ =>
        destruct chk eqn:Hchk; [|discriminate] end.
      apply andb_prop in Hchk as [Hchk Hsur].
      apply andb_prop in Hchk as [Hchk _].
      apply andb_prop in Hchk as [Hc1 Hc2].
      unfold Utf8.is_cont in Hc1, Hc2.
      apply andb_prop in Hc1 as [Hc1lo%N.leb_le Hc1hi%N.ltb_lt].
      apply andb_prop in Hc2 as [Hc2lo%N.leb_le Hc2hi%N.ltb_lt].
      apply fmap_cons_Some in Hdec as (s' & Hs' & ->).
      constructor; [|apply (IH r2); [lia | exact Hs']].
      apply andb_true_intro. split; [apply N.leb_le; lia | exact Hsur]. }
    destruct ((240 <=? b0)%N && (b0 <? 248)%N) eqn:H4; [|discriminate].
    destruct r0 as [|b1 [|b2 [|b3 r3]]]; [discriminate..|]. cbn [length] in Hlen.
    match type of Hdec with (if ?chk then _ else _) = _ =>
      destruct chk eqn:Hchk; [|discriminate] end.
    apply andb_prop in Hchk as [Hchk Hmax].
    apply andb_prop in Hchk as [_ Hmin%N.leb_le].
    apply fmap_cons_Some in Hdec as (s' & Hs' & ->).
    constructor; [|apply (IH r3); [lia | exact Hs']].
    apply andb_true_intro. split; [exact Hmax|].
    apply negb_true_iff, andb_false_intro2, N.leb_gt. lia.
Qed.

Lemma decode_scalar (bs : bytes) (s : str) :
  Utf8.decode bs = Some s -> Forall (fun c => scalar c = true) s.
Proof. apply (decode_scalar_le (length bs)). lia. Qed.

(** Every text of code points can be encoded. *)
Lemma encode_total (s : str) :
  Forall (fun c => scalar c = true) s -> exists bs, Utf8.encode s = Some bs.
Proof.
  induction 1 as [|c s Hc _ [bs IH]]; [exists []; reflexivity|].
  cbn [Utf8.encode]. rewrite IH.
  unfold scalar in Hc. apply andb_prop in Hc as [Hmax Hsur].
  apply negb_true_iff in Hsur.
  unfold Utf8.encode_char. rewrite Hsur, Hmax.
  destruct (c <? 128)%N; [eauto|].
  destruct (c <? 2048)%N; [eauto|].
  destruct (c <? 65536)%N; eauto.
Qed.

End Utf8Facts.

(** ** Texts keep their characters *)

Section ForallFacts.

Context (P : N -> Prop).

Lemma drop_while_Forall (p : N -> bool) (s : str) :
  Forall P s -> Forall P (drop_while p s).
Proof.
  induction 1 as [|c s Hc Hs IH]; [constructor|].
  cbn [drop_while]. destruct (p c); [exact IH | constructor; assumption].
Qed.

Lemma strip_Forall (s : str) : Forall P s -> Forall P (strip s).
Proof.
  intros Hs. unfold strip, lstrip_by, rstrip_by.
  apply drop_while_Forall, Forall_rev, drop_while_Forall, Forall_rev. exact Hs.
Qed.

Lemma rsplit1_Forall (sep : N) (s : str) :
  Forall P s -> Forall P (fst (rsplit1 sep s)).
Proof.
  induction 1 as [|c s Hc Hs IH]; [constructor|].
  cbn [rsplit1]. destruct (rsplit1 sep s) as [b [a|]]; cbn [fst] in *.
  - constructor; assumption.
  - destruct (c =? sep)%N; cbn [fst]; constructor; assumption.
Qed.

Lemma match_at_group_Forall (r : Re.re) (s m g : str) :
  Forall P s -> Re.match_at r s = Some (m, g) -> Forall P g.
Proof.
  intros Hs Hmatch.
  apply match_at_sound in Hmatch as (rest & -> & _ & [->|(pre & post & ->)]).
  - constructor.
  - apply Forall_app in Hs as [Hm _].
    apply Forall_app in Hm as [_ Hm].
    apply Forall_app in Hm as [Hg _]. exact Hg.
Qed.

Lemma findall_Forall (r : Re.re) (s : str) :
  Forall P s -> forall skip, Forall (Forall P) (Re.findall_from r skip s).
Proof.
  induction 1 as [|c s Hc Hs IH]; intros skip; [constructor|].
  cbn [Re.findall_from]. destruct skip as [|n]; [|apply IH].
  destruct (Re.match_at r (c :: s)) as [[m g]|] eqn:Hmatch; [|apply IH].
  constructor; [|apply IH].
  eapply match_at_group_Forall; [|exact Hmatch]. constructor; assumption.
Qed.

Lemma sub_Forall (r : Re.re) (repl : str -> str) (s : str) :
  (forall g, Forall P g -> Forall P (repl g)) ->
  Forall P s -> forall skip, Forall P (Re.sub_from r repl skip s).
Proof.
  intros Hrepl. induction 1 as [|c s Hc Hs IH]; intros skip; [constructor|].
  cbn [Re.sub_from]. destruct skip as [|n]; [|apply IH].
  destruct (Re.match_at r (c :: s)) as [[m g]|] eqn:Hmatch.
  - apply Forall_app. split; [|apply IH]. apply Hrepl.
    eapply match_at_group_Forall; [|exact Hmatch]. constructor; assumption.
  - constructor; [exact Hc | apply IH].
Qed.

Lemma extract_Forall (html_content name : str) :
  Forall P html_content ->
  In name (_extract_artifact_references html_content) -> Forall P name.
Proof.
  intros Hs Hin. unfold _extract_artifact_references in Hin.
  rewrite fromkeys_first_occurrences in Hin.
  apply (proj1 (first_occurrences_In _ _)) in Hin.
  apply List.in_map_iff in Hin as (g & <- & Hg).
  apply strip_Forall.
  pose proof (findall_Forall extract_pattern html_content Hs 0) as Hall.
  rewrite List.Forall_forall in Hall. apply Hall. exact Hg.
Qed.

Lemma replace_Forall (html_content : str) (filename_map : gmap str str) :
  Forall P html_content ->
  (forall k v, filename_map !! k = Some v -> Forall P v) ->
  Forall P (_replace_artifact_references html_content filename_map).
Proof.
  intros Hs Hmap. unfold _replace_artifact_references, Re.sub.
  apply sub_Forall; [|exact Hs].
  intros g Hg. destruct (filename_map !! strip g) as [v|] eqn:Hv; cbn.
  - eapply Hmap. exact Hv.
  - apply strip_Forall. exact Hg.
Qed.

End ForallFacts.

(** ** The hosting operations *)

Section ToolFacts.

Context (X : Type).
Context (svc_list_versions :
           forall (app user session filename : str), X -> outcome (list Z) * X).
Context (svc_load_artifact :
           forall (app user session filename : str) (version : Z),
             X -> outcome (option Part) * X).
Context (os_write_file :
           forall (path : str) (content : bytes), X -> outcome unit * X).
Context (py_int : str -> outcome Z).

Local Abbreviation resolve := (resolve_version X svc_list_versions py_int).
Local Abbreviation load := (load_bytes X svc_load_artifact).
Local Abbreviation write := (_write_file X os_write_file).
Local Abbreviation host_single :=
  (_host_single_artifact X svc_list_versions svc_load_artifact os_write_file py_int).
Local Abbreviation host_refs :=
  (host_references X svc_list_versions svc_load_artifact os_write_file py_int).
Local Abbreviation process_refs :=
  (process_html_references X svc_list_versions svc_load_artifact os_write_file py_int).
Local Abbreviation process :=
  (process_if_html X svc_list_versions svc_load_artifact os_write_file py_int).
Local Abbreviation body :=
  (host_artifact_body X svc_list_versions svc_load_artifact os_write_file py_int).
Local Abbreviation host :=
  (host_artifact X svc_list_versions svc_load_artifact os_write_file py_int).

Lemma call_eq {T} ev (op : X -> outcome T * X) (w : world X) :
  call X ev op w = (fst (op (outside w)), after w ev (snd (op (outside w)))).
Proof. unfold call. destruct (op (outside w)). reflexivity. Qed.

Lemma resolve_base name app user session w base ver w1 :
  resolve name app user session w = (Ok (base, ver), w1) ->
  base = fst (rsplit1 58 name).
Proof.
  unfold resolve_version. intros H.
  apply bind_ok_inv in H as (v & s1 & _ & H).
  destruct v as [v|].
  - unfold ret in H. congruence.
  - apply bind_ok_inv in H as (vs & s2 & _ & H).
    destruct vs; [discriminate|]. unfold ret in H. congruence.
Qed.

(** *** Step-by-step equations *)

Lemma host_single_eq name custom app user session server burl w :
  host_single name custom app user session server burl w =
    match resolve name app user session w with
    | (Raise e, w1) => (Ok (SingleError name (exn_str e)), w1)
    | (Ok resolved, w1) =>
        match load (fst resolved) (snd resolved) app user session w1 with
        | (Raise e, w2) => (Ok (SingleError name (exn_str e)), w2)
        | (Ok loaded, w2) =>
            let hosted := determine_hosted_filename custom (fst resolved) in
            match write (hosted_path server hosted) loaded w2 with
            | (Raise e, w3) => (Ok (SingleError name (exn_str e)), w3)
            | (Ok _, w3) =>
                (Ok (SingleSuccess (fst resolved) (snd resolved) hosted
                       (get_url server hosted burl)), w3)
            end
        end
    end.
Proof.
  unfold _host_single_artifact, try_except, Eff.bind, ret.
  destruct (resolve name app user session w) as [[resolved|e] w1]; [|reflexivity].
  destruct (load _ _ app user session w1) as [[loaded|e] w2]; [|reflexivity].
  cbv zeta.
  destruct (write _ loaded w2) as [[u|e] w3]; reflexivity.
Qed.

Lemma body_eq name custom ctx cfg server w ic :
  _invocation_context ctx = Some ic ->
  all_truthy ic = true ->
  body name custom ctx cfg server w =
    let app := default [] (app_name ic) in
    let user := default [] (user_id ic) in
    let session := default [] (session_id ic) in
    match resolve name app user session w with
    | (Raise e, w1) => (Raise e, w1)
    | (Ok resolved, w1) =>
        match load (fst resolved) (snd resolved) app user session w1 with
        | (Raise e, w2) => (Raise e, w2)
        | (Ok loaded, w2) =>
            let hosted := determine_hosted_filename custom (fst resolved) in
            let burl := match cfg with Some c => base_url c | None => None end in
            match process hosted loaded app user session server burl w2 with
            | (Raise e, w3) => (Raise e, w3)
            | (Ok final, w3) =>
                match write (hosted_path server hosted)
                        (artifact_bytes final) w3 with
                | (Raise e, w4) => (Raise e, w4)
                | (Ok _, w4) =>
                    (Ok (success_result (fst resolved) (snd resolved) hosted
                           (get_url server hosted burl)
                           (referenced_artifacts final)), w4)
                end
            end
        end
    end.
Proof.
  intros Hic Hall. unfold host_artifact_body, Eff.bind, ret.
  rewrite Hic, Hall. cbv zeta.
  destruct (resolve name _ _ _ w) as [[resolved|e] w1]; [|reflexivity].
  destruct (load _ _ _ _ _ w1) as [[loaded|e] w2]; [|reflexivity].
  destruct (process _ loaded _ _ _ server _ w2) as [[final|e] w3]; [|reflexivity].
  destruct (write _ _ w3) as [[u|e] w4]; reflexivity.
Qed.

Lemma host_eq name custom ctx cfg server w :
  _web_server_instance w = Some server ->
  host name custom (Some ctx) cfg w =
    match body name custom ctx cfg server w with
    | (Ok r, w') => (Ok r, w')
    | (Raise e, w') =>
        (Ok (ToolError (if is_FileNotFoundError e then exn_str e
                        else lit "An unexpected error occurred: " ++ exn_str e)),
         w')
    end.
Proof.
  intros Hreg. unfold host_artifact, get_web_server, Eff.bind.
  rewrite Hreg. unfold try_except, ret.
  destruct (body name custom ctx cfg server w) as [[r|e] w']; [reflexivity|].
  destruct (is_FileNotFoundError e); reflexivity.
Qed.

Lemma process_refs_total app user session server burl lw :
  exists lw', process_refs app user session server burl lw = (Ok tt, lw').
Proof.
  unfold process_html_references, try_except.
  match goal with |- context [match ?b lw with _ => _ end] => destruct (b lw) as [[[]|e] lw1] end.
  - exists lw1. reflexivity.
  - exists lw1. destruct (is_UnicodeDecodeError e); reflexivity.
Qed.

Lemma process_total hosted loaded app user session server burl w :
  exists l w', process hosted loaded app user session server burl w = (Ok l, w').
Proof.
  unfold process_if_html. destruct (is_html hosted).
  - match goal with |- context [process_refs _ _ _ _ _ ?lw] =>
      destruct (process_refs_total app user session server burl lw) as ([l w'] & ->)
    end.
    exists l, w'. reflexivity.
  - eexists _, w. reflexivity.
Qed.

Lemma process_undecodable hosted loaded app user session server burl w :
  Utf8.decode loaded = None ->
  process hosted loaded app user session server burl w
  = (Ok {| artifact_bytes := loaded; referenced_artifacts := [];
           filename_map := ∅ |}, w).
Proof.
  intros Hdec. unfold process_if_html. destruct (is_html hosted); [|reflexivity].
  unfold process_html_references, try_except, Eff.bind, on_locals, raise.
  cbn [fst snd artifact_bytes]. rewrite Hdec. reflexivity.
Qed.

Lemma body_no_context name custom ctx cfg server (w : world X) :
  _invocation_context ctx = None ->
  body name custom ctx cfg server w
  = (Raise (Exn ValueError (lit "InvocationContext is not available.")), w).
Proof.
  intros Hic. unfold host_artifact_body, Eff.bind, raise. rewrite Hic.
  reflexivity.
Qed.

Lemma body_missing_parts name custom ctx cfg server (w : world X) ic :
  _invocation_context ctx = Some ic ->
  all_truthy ic = false ->
  body name custom ctx cfg server w
  = (Raise (Exn ValueError (lit "Missing required context parts")), w).
Proof.
  intros Hic Hall. unfold host_artifact_body, Eff.bind, raise, ret.
  rewrite Hic, Hall. reflexivity.
Qed.

Lemma write_ok_inv path content (w w' : world X) u :
  write path content w = (Ok u, w') ->
  trace w' = trace w ++ [WriteFile path content].
Proof.
  unfold _write_file. rewrite call_eq. intros H.
  injection H as _ <-. reflexivity.
Qed.

Lemma success_result_inv base ver hosted url refs msg base' ver' hosted' url' refs' :
  success_result base ver hosted url refs
  = ToolSuccess msg base' ver' hosted' url' refs' ->
  base' = base /\ ver' = ver /\ hosted' = hosted /\ url' = url /\ refs' = refs.
Proof.
  unfold success_result. destruct refs; intros H; injection H; intros; subst; auto.
Qed.

(** What a successful call went through. *)
Lemma host_success_inv name custom ctx cfg w msg base ver hosted url refs w' :
  host name custom (Some ctx) cfg w
  = (Ok (ToolSuccess msg base ver hosted url refs), w') ->
  exists server ic w1 loaded w2 final w3,
    _web_server_instance w = Some server
    /\ _invocation_context ctx = Some ic
    /\ all_truthy ic = true
    /\ resolve name (default [] (app_name ic)) (default [] (user_id ic))
         (default [] (session_id ic)) w = (Ok (base, ver), w1)
    /\ load base ver (default [] (app_name ic)) (default [] (user_id ic))
         (default [] (session_id ic)) w1 = (Ok loaded, w2)
    /\ hosted = determine_hosted_filename custom base
    /\ process hosted loaded (default [] (app_name ic)) (default [] (user_id ic))
         (default [] (session_id ic)) server
         (match cfg with Some c => base_url c | None => None end) w2
       = (Ok final, w3)
    /\ write (hosted_path server hosted) (artifact_bytes final) w3 = (Ok tt, w')
    /\ refs = referenced_artifacts final
    /\ url = get_url server hosted
               (match cfg with Some c => base_url c | None => None end).
Proof.
  intros H.
  destruct (_web_server_instance w) as [server|] eqn:Hreg.
  2:{ unfold host_artifact, get_web_server, Eff.bind, ret in H.
      rewrite Hreg in H. discriminate. }
  rewrite (host_eq _ _ _ _ server _ Hreg) in H.
  destruct (_invocation_context ctx) as [ic|] eqn:Hic.
  2:{ rewrite body_no_context in H by assumption. discriminate. }
  destruct (all_truthy ic) eqn:Hall.
  2:{ rewrite (body_missing_parts _ _ _ _ _ _ ic) in H by assumption.
      discriminate. }
  rewrite (body_eq _ _ _ _ _ _ ic Hic Hall) in H. cbv zeta in H.
  destruct (resolve name _ _ _ w) as [[[base0 ver0]|e] w1] eqn:Hres;
    [|discriminate].
  cbn [fst snd] in H.
  destruct (load base0 ver0 _ _ _ w1) as [[loaded|e] w2] eqn:Hload;
    [|discriminate].
  destruct (process _ loaded _ _ _ server _ w2) as [[final|e] w3] eqn:Hproc;
    [|discriminate].
  destruct (write _ _ w3) as [[[]|e] w4] eqn:Hwrite; [|discriminate].
  injection H as Hr <-.
  apply success_result_inv in Hr as (-> & -> & -> & -> & ->).
  exists server, ic, w1, loaded, w2, final, w3.
  repeat split; assumption.
Qed.

(** C7.  Whenever [host_artifact] succeeds, the file is written under
    the name it reports, and that name is: the base name of the artifact
    when no custom name is given (it is [None] or empty, the test of the
    code); the custom name when it has a dot or
    the base name has none; and the custom name followed by the suffix of
    the base name when the custom name has no dot and the base name has
    one. *)
Theorem hosted_filename_spec name custom ctx cfg w msg base ver hosted url refs w' :
  host name custom (Some ctx) cfg w
  = (Ok (ToolSuccess msg base ver hosted url refs), w') ->
  base = fst (rsplit1 58 name)
  /\ (truthy custom = false -> hosted = base)
  /\ (forall c, custom = Some c -> c <> [] ->
      contains 46 c = true \/ contains 46 base = false -> hosted = c)
  /\ (forall c, custom = Some c -> c <> [] ->
      contains 46 c = false -> contains 46 base = true ->
      hosted = c ++ PyPath.suffix base)
  /\ exists server earlier content,
       _web_server_instance w = Some server
       /\ trace w' = earlier ++ [WriteFile (hosted_path server hosted) content].
Proof.
  intros H.
  apply host_success_inv in H
    as (server & ic & w1 & loaded & w2 & final & w3 & Hreg & _ & _ & Hres & _
        & Hhosted & _ & Hwrite & _).
  split; [eapply resolve_base; exact Hres|].
  subst hosted. unfold determine_hosted_filename.
  split; [|split; [|split]].
  - intros ->. reflexivity.
  - intros c -> Hc Hdot. destruct c as [|c0 c]; [congruence|].
    cbn [truthy default from_option id andb].
    destruct Hdot as [-> | ->]; [reflexivity|].
    rewrite andb_false_r. reflexivity.
  - intros c -> Hc Hno Hyes. destruct c as [|c0 c]; [congruence|].
    cbn [truthy default from_option id andb]. rewrite Hno, Hyes. reflexivity.
  - exists server, (trace w3), (artifact_bytes final).
    split; [exact Hreg|]. eapply write_ok_inv. exact Hwrite.
Qed.

Lemma write_eq path content (w : world X) r x' :
  os_write_file path content (outside w) = (r, x') ->
  write path content w = (r, after w (WriteFile path content) x').
Proof. intros H. unfold _write_file. rewrite call_eq, H. reflexivity. Qed.

(** C4.  When the name the artifact is hosted under is an HTML name and
    its bytes are not valid UTF-8, the call fetches nothing else, writes
    exactly the bytes it loaded and reports success (the fetch of the
    artifact and the write being the ones that succeed). *)
Theorem undecodable_html_hosted_unchanged
    name custom ctx cfg server w ic base ver loaded w1 w2 x3 :
  _web_server_instance w = Some server ->
  _invocation_context ctx = Some ic ->
  all_truthy ic = true ->
  resolve name (default [] (app_name ic)) (default [] (user_id ic))
    (default [] (session_id ic)) w = (Ok (base, ver), w1) ->
  load base ver (default [] (app_name ic)) (default [] (user_id ic))
    (default [] (session_id ic)) w1 = (Ok loaded, w2) ->
  is_html (determine_hosted_filename custom base) = true ->
  Utf8.decode loaded = None ->
  os_write_file (hosted_path server (determine_hosted_filename custom base))
    loaded (outside w2) = (Ok tt, x3) ->
  host name custom (Some ctx) cfg w
  = (Ok (ToolSuccess (lit "Artifact hosted successfully") base ver
           (determine_hosted_filename custom base)
           (get_url server (determine_hosted_filename custom base)
              (match cfg with Some c => base_url c | None => None end))
           []),
     after w2
       (WriteFile (hosted_path server
          (determine_hosted_filename custom base)) loaded) x3).
Proof.
  intros Hreg Hic Hall Hres Hload _ Hdec Hwrite.
  rewrite (host_eq _ _ _ _ server _ Hreg).
  rewrite (body_eq _ _ _ _ _ _ ic Hic Hall). cbv zeta.
  rewrite Hres. cbn [fst snd]. rewrite Hload.
  rewrite process_undecodable by exact Hdec.
  cbn [artifact_bytes referenced_artifacts].
  rewrite (write_eq _ _ _ _ _ Hwrite). reflexivity.
Qed.


(** *** The trace only grows *)

Lemma extends_refl (w : world X) : extends w w.
Proof. exists []. symmetry. apply app_nil_r. Qed.

Lemma extends_trans (w1 w2 w3 : world X) :
  extends w1 w2 -> extends w2 w3 -> extends w1 w3.
Proof.
  intros [r1 H1] [r2 H2]. exists (r1 ++ r2).
  rewrite H2, H1. symmetry. apply app_assoc.
Qed.

Lemma call_extends {T} ev (op : X -> outcome T * X) (w w' : world X) r :
  call X ev op w = (r, w') -> extends w w'.
Proof.
  rewrite call_eq. intros H. injection H as _ <-. exists [ev]. reflexivity.
Qed.

Lemma resolve_extends name app user session (w w1 : world X) r :
  resolve name app user session w = (r, w1) -> extends w w1.
Proof.
  unfold resolve_version, Eff.bind, of_outcome, ret, raise.
  destruct (truthy (snd (rsplit1 58 name))).
  - destruct (py_int _); intros H; injection H as _ <-; apply extends_refl.
  - unfold list_versions.
    destruct (call X _ _ w) as [[vs|e] w0] eqn:Hcall;
      apply call_extends in Hcall.
    + destruct vs; intros H; injection H as _ <-; exact Hcall.
    + intros H; injection H as _ <-; exact Hcall.
Qed.

Lemma load_extends base ver app user session (w w1 : world X) r :
  load base ver app user session w = (r, w1) -> extends w w1.
Proof.
  unfold load_bytes, load_artifact, Eff.bind, ret, raise.
  destruct (call X _ _ w) as [[part|e] w0] eqn:Hcall;
    apply call_extends in Hcall.
  - destruct part as [[[[[content|]]|]]|];
      intros H; injection H as _ <-; exact Hcall.
  - intros H; injection H as _ <-; exact Hcall.
Qed.

Lemma write_extends path content (w w1 : world X) r :
  write path content w = (r, w1) -> extends w w1.
Proof. apply call_extends. Qed.

Lemma host_single_extends name custom app user session server burl
    (w w' : world X) r :
  host_single name custom app user session server burl w = (r, w') ->
  extends w w'.
Proof.
  rewrite host_single_eq.
  destruct (resolve name app user session w) as [[resolved|e] w1] eqn:Hres;
    apply resolve_extends in Hres.
  2:{ intros H; injection H as _ <-; exact Hres. }
  destruct (load _ _ app user session w1) as [[loaded|e] w2] eqn:Hload;
    apply load_extends in Hload.
  2:{ intros H; injection H as _ <-; eapply extends_trans; eassumption. }
  cbv zeta.
  destruct (write _ loaded w2) as [[u|e] w3] eqn:Hwrite;
    apply write_extends in Hwrite;
    intros H; injection H as _ <-;
    (eapply extends_trans; [exact Hres|]);
    eapply extends_trans; eassumption.
Qed.

Lemma host_single_total name custom app user session server burl (w : world X) :
  exists r w', host_single name custom app user session server burl w = (Ok r, w').
Proof.
  rewrite host_single_eq.
  destruct (resolve name app user session w) as [[resolved|e] w1]; [|eauto].
  destruct (load _ _ app user session w1) as [[loaded|e] w2]; [|eauto].
  cbv zeta. destruct (write _ loaded w2) as [[u|e] w3]; eauto.
Qed.

Lemma host_refs_cons ref_name rest app user session server burl l (w : world X) :
  host_refs (ref_name :: rest) app user session server burl (l, w) =
    match host_single ref_name None app user session server burl w with
    | (Ok (SingleSuccess _ _ hosted url), w1) =>
        host_refs rest app user session server burl
          (record_success ref_name hosted url l, w1)
    | (Ok (SingleError _ _), w1) =>
        host_refs rest app user session server burl (l, w1)
    | (Raise e, w1) => (Raise e, (l, w1))
    end.
Proof.
  cbn [host_references]. unfold Eff.bind at 1. unfold lift at 1. cbn [fst snd].
  destruct (host_single ref_name None app user session server burl w)
    as [[[a v hosted url|a err]|e] w1]; reflexivity.
Qed.

(** The loop never raises, and what it leaves satisfies every property
    that holds at the start and that each iteration keeps. *)
Lemma host_refs_invariant (P : locals -> world X -> Prop)
    refs app user session server burl l (w : world X) :
  P l w ->
  (forall ref_name l0 (w0 w1 : world X) a v hosted url,
      In ref_name refs -> P l0 w0 ->
      host_single ref_name None app user session server burl w0
      = (Ok (SingleSuccess a v hosted url), w1) ->
      P (record_success ref_name hosted url l0) w1) ->
  (forall ref_name l0 (w0 w1 : world X) a err,
      In ref_name refs -> P l0 w0 ->
      host_single ref_name None app user session server burl w0
      = (Ok (SingleError a err), w1) ->
      P l0 w1) ->
  exists l' w',
    host_refs refs app user session server burl (l, w) = (Ok tt, (l', w'))
    /\ P l' w'.
Proof.
  revert l w. induction refs as [|ref_name rest IH]; intros l w HP Hs He.
  - exists l, w. split; [reflexivity | exact HP].
  - rewrite host_refs_cons.
    destruct (host_single_total ref_name None app user session server burl w)
      as (r & w1 & Hr).
    rewrite Hr. destruct r as [a v hosted url|a err].
    + apply IH.
      * eapply Hs; [left; reflexivity | exact HP | exact Hr].
      * intros; eapply Hs; eauto. right; assumption.
      * intros; eapply He; eauto. right; assumption.
    + apply IH.
      * eapply He; [left; reflexivity | exact HP | exact Hr].
      * intros; eapply Hs; eauto. right; assumption.
      * intros; eapply He; eauto. right; assumption.
Qed.

Lemma process_refs_eq app user session server burl l (w : world X) :
  process_refs app user session server burl (l, w) =
    match Utf8.decode (artifact_bytes l) with
    | None => (Ok tt, (l, w))
    | Some html_content =>
        match _extract_artifact_references html_content with
        | [] => (Ok tt, (l, w))
        | ref_name :: rest =>
            match host_refs (ref_name :: rest) app user session server burl (l, w) with
            | (Raise e, lw') => (Ok tt, lw')
            | (Ok _, (l', w')) =>
                if bool_decide (filename_map l' = ∅) then (Ok tt, (l', w'))
                else
                  match Utf8.encode
                          (_replace_artifact_references html_content
                             (filename_map l')) with
                  | Some encoded => (Ok tt, (set_artifact_bytes encoded l', w'))
                  | None => (Ok tt, (l', w'))
                  end
            end
        end
    end.
Proof.
  unfold process_html_references, try_except.
  unfold Eff.bind at 1. unfold on_locals at 1. cbn [fst].
  unfold Eff.bind at 1.
  destruct (Utf8.decode (artifact_bytes l)) as [html_content|]; [|reflexivity].
  unfold ret at 1.
  destruct (_extract_artifact_references html_content) as [|ref_name rest];
    [reflexivity|].
  unfold Eff.bind at 1.
  destruct (host_refs (ref_name :: rest) app user session server burl (l, w))
    as [[[]|e] [l' w']].
  2:{ destruct (is_UnicodeDecodeError e); reflexivity. }
  unfold Eff.bind, on_locals. cbn [fst].
  destruct (bool_decide (filename_map l' = ∅)); [reflexivity|].
  destruct (Utf8.encode _); reflexivity.
Qed.

Lemma host_refs_extends refs app user session server burl l (w : world X) :
  exists l' w',
    host_refs refs app user session server burl (l, w) = (Ok tt, (l', w'))
    /\ extends w w'.
Proof.
  apply (host_refs_invariant (fun _ w0 => extends w w0)).
  - apply extends_refl.
  - intros ref_name l0 w0 w1 a v hosted url _ Hext Hrun.
    eapply extends_trans; [exact Hext|].
    eapply host_single_extends. exact Hrun.
  - intros ref_name l0 w0 w1 a err _ Hext Hrun.
    eapply extends_trans; [exact Hext|].
    eapply host_single_extends. exact Hrun.
Qed.

Lemma process_extends hosted loaded app user session server burl (w w' : world X) r :
  process hosted loaded app user session server burl w = (r, w') -> extends w w'.
Proof.
  unfold process_if_html. destruct (is_html hosted).
  2:{ intros H; injection H as _ <-. apply extends_refl. }
  rewrite process_refs_eq. cbn [artifact_bytes].
  destruct (Utf8.decode loaded) as [html_content|].
  2:{ intros H; injection H as _ <-. apply extends_refl. }
  destruct (_extract_artifact_references html_content) as [|ref_name rest].
  { intros H; injection H as _ <-. apply extends_refl. }
  match goal with |- context [host_refs ?refs _ _ _ _ _ ?lw] =>
    destruct (host_refs_extends refs app user session server burl (fst lw) (snd lw))
      as (l' & w1 & Hloop & Hext)
  end.
  cbn [fst snd] in Hloop. rewrite Hloop.
  destruct (bool_decide (filename_map l' = ∅)).
  { intros H; injection H as _ <-. exact Hext. }
  destruct (Utf8.encode _); intros H; injection H as _ <-; exact Hext.
Qed.

(** *** The latest version *)

Lemma py_max_fold (vs : list Z) (v : Z) :
  (In (fold_left Z.max vs v) (v :: vs))
  /\ forall u, In u (v :: vs) -> (u <= fold_left Z.max vs v)%Z.
Proof.
  revert v. induction vs as [|a vs IH]; intros v; cbn [fold_left].
  - split; [left; reflexivity|]. intros u [<-|[]]. lia.
  - destruct (IH (Z.max v a)) as [Hin Hle]. split.
    + destruct Hin as [Hin|Hin]; [|right; right; exact Hin].
      rewrite <- Hin. destruct (Z.max_spec v a) as [[_ ->]|[_ ->]].
      * right; left; reflexivity.
      * left; reflexivity.
    + intros u Hu.
      assert (v <= fold_left Z.max vs (Z.max v a))%Z
        by (etransitivity; [apply (Z.le_max_l v a) | apply Hle; left; reflexivity]).
      assert (a <= fold_left Z.max vs (Z.max v a))%Z
        by (etransitivity; [apply (Z.le_max_r v a) | apply Hle; left; reflexivity]).
      destruct Hu as [<-|[<-|Hu]]; [assumption..|].
      apply Hle. right. exact Hu.
Qed.

Lemma py_max_spec (vs : list Z) :
  vs <> [] ->
  In (py_max vs) vs /\ forall v, In v vs -> (v <= py_max vs)%Z.
Proof.
  destruct vs as [|v vs]; [congruence|]. intros _. apply py_max_fold.
Qed.

Lemma rsplit1_no_sep (sep : N) (s : str) :
  contains sep s = false -> rsplit1 sep s = (s, None).
Proof.
  induction s as [|c s IH]; [reflexivity|].
  unfold contains. cbn [existsb rsplit1]. intros H.
  apply orb_false_elim in H as [Hc Hs].
  fold (contains sep s) in Hs. rewrite (IH Hs).
  rewrite N.eqb_sym, Hc. reflexivity.
Qed.

Lemma resolve_latest name app user session (w : world X) vs x1 :
  contains 58 name = false ->
  svc_list_versions app user session name (outside w) = (Ok vs, x1) ->
  resolve name app user session w
  = (match vs with
     | [] => Raise (Exn FileNotFoundError
                      (lit "Artifact '" ++ name ++ lit "' not found."))
     | _ :: _ => Ok (name, py_max vs)
     end, after w (ListVersions name) x1).
Proof.
  intros Hname Hsvc. unfold resolve_version.
  rewrite (rsplit1_no_sep _ _ Hname). cbn [fst snd truthy].
  unfold Eff.bind, ret, raise, list_versions.
  rewrite call_eq, Hsvc. cbn [fst snd]. destruct vs; reflexivity.
Qed.

Lemma load_trace base ver app user session (w w1 : world X) r :
  load base ver app user session w = (r, w1) ->
  trace w1 = trace w ++ [LoadArtifact base ver].
Proof.
  unfold load_bytes, load_artifact, Eff.bind, ret, raise.
  rewrite call_eq. cbn [fst snd].
  destruct (fst (svc_load_artifact app user session base ver (outside w)))
    as [[[[[[content|]]|]]|]|e];
    intros H; injection H as _ <-; reflexivity.
Qed.

(** C5.  For an identifier [name] without a colon, when the service lists
    the versions [vs] of [name]: if [vs] is empty, [host_artifact] and
    [_host_single_artifact] stop there (nothing is loaded) with the error
    [Artifact 'name' not found.]; otherwise their next call loads [name]
    at version [py_max vs], which is a member of [vs] and at least every
    member of [vs], and a success reports that version. *)
Theorem latest_version_is_maximum name custom ctx cfg server w ic vs x1 burl :
  _web_server_instance w = Some server ->
  _invocation_context ctx = Some ic ->
  all_truthy ic = true ->
  contains 58 name = false ->
  svc_list_versions (default [] (app_name ic)) (default [] (user_id ic))
    (default [] (session_id ic)) name (outside w) = (Ok vs, x1) ->
  (vs = []
   /\ host name custom (Some ctx) cfg w
      = (Ok (ToolError (lit "Artifact '" ++ name ++ lit "' not found.")),
         after w (ListVersions name) x1)
   /\ host_single name None (default [] (app_name ic)) (default [] (user_id ic))
        (default [] (session_id ic)) server burl w
      = (Ok (SingleError name (lit "Artifact '" ++ name ++ lit "' not found.")),
         after w (ListVersions name) x1))
  \/ (vs <> []
      /\ In (py_max vs) vs
      /\ (forall v, In v vs -> (v <= py_max vs)%Z)
      /\ (exists r w' rest,
            host name custom (Some ctx) cfg w = (Ok r, w')
            /\ trace w'
               = trace w ++ ListVersions name :: LoadArtifact name (py_max vs) :: rest
            /\ forall msg b v h url refs,
                 r = ToolSuccess msg b v h url refs -> b = name /\ v = py_max vs)
      /\ (exists r w' rest,
            host_single name None (default [] (app_name ic))
              (default [] (user_id ic)) (default [] (session_id ic)) server burl w
            = (Ok r, w')
            /\ trace w'
               = trace w ++ ListVersions name :: LoadArtifact name (py_max vs) :: rest
            /\ forall a v h url,
                 r = SingleSuccess a v h url -> a = name /\ v = py_max vs)).
Proof.
  intros Hreg Hic Hall Hname Hsvc.
  pose proof (resolve_latest _ _ _ _ _ _ _ Hname Hsvc) as Hres.
  destruct vs as [|v0 vs'].
  - left. split; [reflexivity|]. split.
    + rewrite (host_eq _ _ _ _ server _ Hreg).
      rewrite (body_eq _ _ _ _ _ _ ic Hic Hall). cbv zeta.
      rewrite Hres. reflexivity.
    + rewrite host_single_eq, Hres. reflexivity.
  - right. set (vs := v0 :: vs') in *.
    assert (Hne : vs <> []) by discriminate.
    destruct (py_max_spec vs Hne) as [Hin Hmax].
    split; [exact Hne|]. split; [exact Hin|]. split; [exact Hmax|].
    set (w1 := after w (ListVersions name) x1) in *.
    assert (Hw1 : trace w1 = trace w ++ [ListVersions name]) by reflexivity.
    split.
    + rewrite (host_eq _ _ _ _ server _ Hreg).
      rewrite (body_eq _ _ _ _ _ _ ic Hic Hall). cbv zeta.
      rewrite Hres. cbn [fst snd].
      destruct (load name (py_max vs) _ _ _ w1) as [[loaded|e] w2] eqn:Hload.
      2:{ eexists _, w2, []. split; [reflexivity|].
          split; [|intros; discriminate].
          rewrite (load_trace _ _ _ _ _ _ _ _ Hload), Hw1, <- app_assoc.
          reflexivity. }
      pose proof (load_trace _ _ _ _ _ _ _ _ Hload) as Hw2.
      destruct (process _ loaded _ _ _ server _ w2) as [[final|e] w3] eqn:Hproc.
      2:{ destruct (process_total (determine_hosted_filename custom name) loaded
                      (default [] (app_name ic)) (default [] (user_id ic))
                      (default [] (session_id ic)) server
                      (match cfg with Some c => base_url c | None => None end) w2)
            as (l & w' & Hp).
          rewrite Hp in Hproc. discriminate. }
      apply process_extends in Hproc as [rest3 Hw3].
      destruct (write _ _ w3) as [[u|e] w4] eqn:Hwrite;
        apply write_extends in Hwrite as [rest4 Hw4].
      * eexists _, w4, (rest3 ++ rest4). split; [reflexivity|]. split.
        -- rewrite Hw4, Hw3, Hw2, Hw1. rewrite <- !app_assoc. reflexivity.
        -- intros msg b v h url refs Hr.
           apply success_result_inv in Hr as (-> & -> & _). auto.
      * eexists _, w4, (rest3 ++ rest4). split; [reflexivity|].
        split; [|intros; discriminate].
        rewrite Hw4, Hw3, Hw2, Hw1. rewrite <- !app_assoc. reflexivity.
    + rewrite host_single_eq, Hres. cbn [fst snd].
      destruct (load name (py_max vs) _ _ _ w1) as [[loaded|e] w2] eqn:Hload.
      2:{ eexists _, w2, []. split; [reflexivity|].
          split; [|intros; discriminate].
          rewrite (load_trace _ _ _ _ _ _ _ _ Hload), Hw1, <- app_assoc.
          reflexivity. }
      pose proof (load_trace _ _ _ _ _ _ _ _ Hload) as Hw2.
      cbv zeta.
      destruct (write _ _ w2) as [[u|e] w3] eqn:Hwrite;
        apply write_extends in Hwrite as [rest3 Hw3].
      * eexists _, w3, rest3. split; [reflexivity|]. split.
        -- rewrite Hw3, Hw2, Hw1. rewrite <- !app_assoc. reflexivity.
        -- intros a v h url [= <- <- _ _]. auto.
      * eexists _, w3, rest3. split; [reflexivity|].
        split; [|intros; discriminate].
        rewrite Hw3, Hw2, Hw1. rewrite <- !app_assoc. reflexivity.
Qed.

(** *** The references of an HTML artifact *)

Lemma host_single_success_inv name app user session server burl
    (w w1 : world X) a v hosted url :
  host_single name None app user session server burl w
  = (Ok (SingleSuccess a v hosted url), w1) ->
  hosted = fst (rsplit1 58 name) /\ a = hosted.
Proof.
  rewrite host_single_eq.
  destruct (resolve name app user session w) as [[[base ver]|e] w0] eqn:Hres;
    [|discriminate].
  apply resolve_base in Hres. cbn [fst snd].
  destruct (load base ver app user session w0) as [[loaded|e] w2];
    [|discriminate].
  cbv zeta. destruct (write _ loaded w2) as [[u|e] w3]; [|discriminate].
  intros H. injection H as <- _ <- _ _. split; [exact Hres | reflexivity].
Qed.

Lemma hosted_name_of_head (e : referenced_artifact) (rest : list referenced_artifact) :
  hosted_name_of (e :: rest) (ref_filename e) <> None.
Proof.
  cbn [hosted_name_of]. destruct (hosted_name_of rest (ref_filename e)); [discriminate|].
  rewrite (proj2 (eqb_true _ _) eq_refl). discriminate.
Qed.

Lemma hosted_name_of_In (entries : list referenced_artifact) (name h : str) :
  hosted_name_of entries name = Some h ->
  exists e, In e entries /\ ref_filename e = name /\ ref_hosted_filename e = h.
Proof.
  induction entries as [|e rest IH]; [discriminate|].
  cbn [hosted_name_of].
  destruct (hosted_name_of rest name) as [h'|].
  - intros H. destruct (IH H) as (e' & Hin & Hn & Hh).
    exists e'. split; [right; exact Hin | auto].
  - destruct (PyStr.eqb (ref_filename e) name) eqn:Heq; [|discriminate].
    intros H. injection H as <-. apply eqb_true in Heq.
    exists e. split; [left; reflexivity | auto].
Qed.

Lemma rewritten_ext (f g : str -> option str) (doc : list Doc.piece) :
  (forall name, f name = g name) -> Doc.rewritten f doc = Doc.rewritten g doc.
Proof.
  intros Hfg. unfold Doc.rewritten. f_equal.
  apply List.map_ext. intros [text|raw trailer]; [reflexivity|].
  rewrite Hfg. reflexivity.
Qed.

(** What the loop leaves: the entries it appended are those of a
    subsequence of the names it went through, each hosted under the base
    name of its reference, and the map agrees with the entries. *)
Lemma host_refs_run refs app user session server burl l (w : world X) :
  exists l' w' added,
    host_refs refs app user session server burl (l, w) = (Ok tt, (l', w'))
    /\ extends w w'
    /\ artifact_bytes l' = artifact_bytes l
    /\ referenced_artifacts l' = referenced_artifacts l ++ added
    /\ sublist (List.map ref_filename added) refs
    /\ Forall (fun e => ref_hosted_filename e = fst (rsplit1 58 (ref_filename e)))
         added
    /\ forall name,
         filename_map l' !! name
         = match hosted_name_of added name with
           | Some h => Some h
           | None => filename_map l !! name
           end.
Proof.
  revert l w. induction refs as [|ref_name rest IH]; intros l w.
  - exists l, w, []. split; [reflexivity|]. split; [apply extends_refl|].
    split; [reflexivity|]. split; [symmetry; apply app_nil_r|].
    split; [constructor|]. split; [constructor | reflexivity].
  - rewrite host_refs_cons.
    destruct (host_single_total ref_name None app user session server burl w)
      as (r & w1 & Hr).
    rewrite Hr. pose proof (host_single_extends _ _ _ _ _ _ _ _ _ _ Hr) as Hext.
    destruct r as [a v hosted url|a err].
    + destruct (IH (record_success ref_name hosted url l) w1)
        as (l' & w' & added & Hrun & Hext' & Hbytes & Hrefs & Hsub & Hbase & Hmap).
      apply host_single_success_inv in Hr as [Hhosted _].
      exists l', w',
        ({| ref_filename := ref_name; ref_hosted_filename := hosted;
            ref_url := url |} :: added).
      split; [exact Hrun|]. split; [eapply extends_trans; eassumption|].
      split; [exact Hbytes|].
      split; [rewrite Hrefs; cbn [record_success referenced_artifacts];
              rewrite <- app_assoc; reflexivity|].
      split; [cbn [List.map ref_filename]; apply sublist_skip; exact Hsub|].
      split; [constructor; [exact Hhosted | exact Hbase]|].
      intros name. rewrite Hmap. cbn [hosted_name_of ref_filename ref_hosted_filename].
      destruct (hosted_name_of added name); [reflexivity|].
      cbn [record_success filename_map]. unfold PyStr.eqb.
      destruct (decide (ref_name = name)) as [->|Hne].
      * rewrite bool_decide_eq_true_2 by reflexivity. apply lookup_insert_eq.
      * rewrite bool_decide_eq_false_2 by exact Hne.
        apply lookup_insert_ne. exact Hne.
    + destruct (IH l w1)
        as (l' & w' & added & Hrun & Hext' & Hbytes & Hrefs & Hsub & Hbase & Hmap).
      exists l', w', added.
      split; [exact Hrun|]. split; [eapply extends_trans; eassumption|].
      split; [exact Hbytes|]. split; [exact Hrefs|].
      split; [apply sublist_cons; exact Hsub|].
      split; [exact Hbase | exact Hmap].
Qed.


(** *** Hosting the references, call by call *)

Local Abbreviation hosts_ref :=
  (hosts_reference svc_list_versions svc_load_artifact os_write_file py_int).
Local Abbreviation hosts_refs :=
  (hosts_references svc_list_versions svc_load_artifact os_write_file py_int).

(** One turn of the loop is the hosting of one reference. *)
Lemma host_refs_step ref_name rest app user session server burl l (w : world X) :
  host_refs (ref_name :: rest) app user session server burl (l, w) =
    match hosts_ref app user session server burl ref_name w with
    | (Some e, w1) =>
        host_refs rest app user session server burl
          (record_success ref_name (ref_hosted_filename e) (ref_url e) l, w1)
    | (None, w1) => host_refs rest app user session server burl (l, w1)
    end.
Proof.
  rewrite host_refs_cons, host_single_eq. unfold hosts_reference.
  destruct (resolve ref_name app user session w) as [[[base ver]|e] w1];
    [|reflexivity].
  cbn [fst snd].
  destruct (load base ver app user session w1) as [[loaded|e] w2];
    [|reflexivity].
  cbv zeta. unfold _write_file. rewrite call_eq.
  change (determine_hosted_filename None base) with base.
  destruct (os_write_file (hosted_path server base) loaded (outside w2))
    as [[u|e] x3]; reflexivity.
Qed.

Lemma hosts_reference_entry app user session server burl ref_name (w : world X) e :
  fst (hosts_ref app user session server burl ref_name w) = Some e ->
  ref_filename e = ref_name
  /\ ref_hosted_filename e = fst (rsplit1 58 ref_name)
  /\ ref_url e = get_url server (ref_hosted_filename e) burl.
Proof.
  unfold hosts_reference.
  destruct (resolve ref_name app user session w) as [[[base ver]|e0] w1] eqn:Hres;
    [|discriminate].
  apply resolve_base in Hres.
  destruct (load base ver app user session w1) as [[loaded|e0] w2];
    [|discriminate].
  cbv zeta.
  destruct (os_write_file _ loaded (outside w2)) as [[u|e0] x3];
    [|discriminate].
  cbn [fst]. intros H. injection H as <-.
  cbn [ref_filename ref_hosted_filename ref_url]. auto.
Qed.

(** The loop of [host_artifact] hosts the references one after the
    other: it lists exactly those that were hosted, in their order, maps
    each of them to its hosted name, and leaves the world the last one
    left. *)
Lemma host_refs_exact refs app user session server burl :
  forall l (w : world X),
  exists l',
    host_refs refs app user session server burl (l, w)
    = (Ok tt, (l', snd (hosts_refs app user session server burl refs w)))
    /\ artifact_bytes l' = artifact_bytes l
    /\ referenced_artifacts l'
       = referenced_artifacts l
           ++ fst (hosts_refs app user session server burl refs w)
    /\ forall name,
         filename_map l' !! name
         = match hosted_name_of
                   (fst (hosts_refs app user session server burl refs w)) name
           with
           | Some h => Some h
           | None => filename_map l !! name
           end.
Proof.
  induction refs as [|ref_name rest IH]; intros l w.
  - exists l. split; [reflexivity|]. split; [reflexivity|].
    split; [symmetry; apply app_nil_r | reflexivity].
  - rewrite host_refs_step. cbn [hosts_references].
    pose proof (hosts_reference_entry app user session server burl ref_name w)
      as Hentry.
    destruct (hosts_ref app user session server burl ref_name w) as [[e|] w1];
      cbn [fst snd] in *.
    + destruct (Hentry e eq_refl) as (Hname & _ & _).
      destruct (IH (record_success ref_name (ref_hosted_filename e) (ref_url e) l)
                  w1) as (l' & Hrun & Hbytes & Hrefs & Hmap).
      exists l'. split; [exact Hrun|]. split; [exact Hbytes|].
      assert (He : {| ref_filename := ref_name;
                      ref_hosted_filename := ref_hosted_filename e;
                      ref_url := ref_url e |} = e)
        by (destruct e; cbn in *; congruence).
      split.
      * rewrite Hrefs. cbn [record_success referenced_artifacts].
        rewrite He, <- app_assoc. reflexivity.
      * intros name. rewrite Hmap. cbn [hosted_name_of].
        destruct (hosted_name_of _ name); [reflexivity|].
        cbn [record_success filename_map]. rewrite Hname. unfold PyStr.eqb.
        destruct (decide (ref_name = name)) as [->|Hne].
        -- rewrite bool_decide_eq_true_2 by reflexivity. apply lookup_insert_eq.
        -- rewrite bool_decide_eq_false_2 by exact Hne.
           apply lookup_insert_ne. exact Hne.
    + apply IH.
Qed.

Lemma hosts_references_entries refs app user session server burl :
  forall w : world X,
    sublist (List.map ref_filename
               (fst (hosts_refs app user session server burl refs w))) refs
    /\ Forall (fun e => ref_hosted_filename e = fst (rsplit1 58 (ref_filename e)))
         (fst (hosts_refs app user session server burl refs w)).
Proof.
  induction refs as [|ref_name rest IH]; intros w.
  - split; constructor.
  - cbn [hosts_references].
    pose proof (hosts_reference_entry app user session server burl ref_name w)
      as Hentry.
    destruct (hosts_ref app user session server burl ref_name w) as [[e|] w1];
      cbn [fst snd] in *; destruct (IH w1) as [Hsub Hbase].
    + destruct (Hentry e eq_refl) as (Hname & Hhosted & _). split.
      * cbn [List.map]. rewrite Hname. apply sublist_skip. exact Hsub.
      * constructor; [rewrite Hname; exact Hhosted | exact Hbase].
    + split; [apply sublist_cons; exact Hsub | exact Hbase].
Qed.




(** The run of [host_artifact] on an HTML artifact that decodes, when
    writing the artifact itself succeeds. *)
Lemma host_html_text
    name custom ctx cfg server w ic base ver loaded w1 w2 html_content
    entries w3 :
  _web_server_instance w = Some server ->
  _invocation_context ctx = Some ic ->
  all_truthy ic = true ->
  resolve name (default [] (app_name ic)) (default [] (user_id ic))
    (default [] (session_id ic)) w = (Ok (base, ver), w1) ->
  load base ver (default [] (app_name ic)) (default [] (user_id ic))
    (default [] (session_id ic)) w1 = (Ok loaded, w2) ->
  is_html (determine_hosted_filename custom base) = true ->
  Utf8.decode loaded = Some html_content ->
  hosts_refs (default [] (app_name ic)) (default [] (user_id ic))
    (default [] (session_id ic)) server
    (match cfg with Some c => base_url c | None => None end)
    (_extract_artifact_references html_content) w2 = (entries, w3) ->
  (forall content x, exists x',
      os_write_file (hosted_path server
        (determine_hosted_filename custom base)) content x = (Ok tt, x')) ->
  exists out x4,
    host name custom (Some ctx) cfg w
    = (Ok (success_result base ver (determine_hosted_filename custom base)
             (get_url server (determine_hosted_filename custom base)
                (match cfg with Some c => base_url c | None => None end))
             entries),
       after w3
         (WriteFile (hosted_path server
            (determine_hosted_filename custom base)) out) x4)
    /\ (entries = [] -> out = loaded)
    /\ (entries <> [] ->
        exists fmap : gmap str str,
          (forall k, fmap !! k = hosted_name_of entries k)
          /\ Utf8.encode (_replace_artifact_references html_content fmap)
             = Some out).
Proof.
  intros Hreg Hic Hall Hres Hload Hhtml Hdec Hhosts Hwrite.
  rewrite (host_eq _ _ _ _ server _ Hreg).
  rewrite (body_eq _ _ _ _ _ _ ic Hic Hall). cbv zeta.
  rewrite Hres. cbn [fst snd]. rewrite Hload.
  unfold process_if_html. rewrite Hhtml. rewrite process_refs_eq.
  cbn [artifact_bytes]. rewrite Hdec.
  pose proof (hosts_references_entries
                (_extract_artifact_references html_content)
                (default [] (app_name ic)) (default [] (user_id ic))
                (default [] (session_id ic)) server
                (match cfg with Some c => base_url c | None => None end) w2)
    as (Hsub & Hbase).
  rewrite Hhosts in Hsub, Hbase. cbn [fst] in Hsub, Hbase.
  destruct (_extract_artifact_references html_content) as [|ref_name rest]
    eqn:Hrefs.
  { cbn [hosts_references] in Hhosts. injection Hhosts as <- <-.
    destruct (Hwrite loaded (outside w2)) as [x4 Hw].
    cbn [artifact_bytes referenced_artifacts].
    rewrite (write_eq _ _ _ _ _ Hw).
    exists loaded, x4.
    split; [reflexivity|]. split; [reflexivity | congruence]. }
  match goal with |- context [host_refs ?refs _ _ _ _ _ (?l, _)] =>
    destruct (host_refs_exact refs (default [] (app_name ic))
                (default [] (user_id ic)) (default [] (session_id ic)) server
                (match cfg with Some c => base_url c | None => None end) l w2)
      as (l' & Hrun & Hbytes & Hadded & Hmap)
  end.
  rewrite Hrun. rewrite Hhosts in *.
  cbn [fst snd artifact_bytes referenced_artifacts filename_map app] in *.
  assert (Hlookup : forall k, filename_map l' !! k = hosted_name_of entries k).
  { intros k. rewrite Hmap, lookup_empty.
    destruct (hosted_name_of entries k); reflexivity. }
  destruct (bool_decide (filename_map l' = ∅)) eqn:Hempty.
  - apply bool_decide_eq_true in Hempty.
    assert (Hnil : entries = []).
    { destruct entries as [|e entries']; [reflexivity|]. exfalso.
      apply (hosted_name_of_head e entries').
      rewrite <- Hlookup, Hempty. apply lookup_empty. }
    destruct (Hwrite (artifact_bytes l') (outside w3)) as [x4 Hw].
    rewrite (write_eq _ _ _ _ _ Hw).
    exists (artifact_bytes l'), x4. rewrite Hadded.
    split; [reflexivity|].
    split; [intros _; exact Hbytes | congruence].
  - apply bool_decide_eq_false in Hempty.
    assert (Hscalar :
              Forall (fun c => scalar c = true)
                (_replace_artifact_references html_content (filename_map l'))).
    { pose proof (decode_scalar _ _ Hdec) as Htext.
      apply replace_Forall; [exact Htext|].
      intros k v Hkv. rewrite Hlookup in Hkv.
      apply hosted_name_of_In in Hkv as (e & Hin & <- & <-).
      rewrite List.Forall_forall in Hbase. rewrite (Hbase e Hin).
      apply rsplit1_Forall.
      apply (extract_Forall _ html_content); [exact Htext|].
      rewrite Hrefs. apply list_elem_of_In.
      eapply elem_of_sublist; [|exact Hsub].
      apply list_elem_of_In, List.in_map. exact Hin. }
    destruct (encode_total _ Hscalar) as [encoded Henc].
    rewrite Henc. cbn [set_artifact_bytes artifact_bytes referenced_artifacts].
    destruct (Hwrite encoded (outside w3)) as [x4 Hw].
    rewrite (write_eq _ _ _ _ _ Hw).
    exists encoded, x4. rewrite Hadded.
    split; [reflexivity|]. split.
    + intros ->. exfalso. apply Hempty. apply map_empty. exact Hlookup.
    + intros _. exists (filename_map l'). split; [exact Hlookup | exact Henc].
Qed.

Lemma replace_rendered (doc : list Doc.piece) (fmap : gmap str str)
    (hosted : str -> option str) :
  Forall Doc.well_formed doc ->
  (forall k, fmap !! k = hosted k) ->
  _replace_artifact_references (Doc.render doc) fmap = Doc.rewritten hosted doc.
Proof.
  intros Hwf Hlookup. rewrite replace_render by exact Hwf.
  apply rewritten_ext. exact Hlookup.
Qed.

(** *** Texts in which no token begins *)

Lemma compatible_app_false (p s rest : str) :
  compatible p s = false -> compatible p (s ++ rest) = false.
Proof.
  revert s. induction p as [|a p IH]; intros s; [discriminate|].
  destruct s as [|b s]; [discriminate|].
  cbn [compatible app]. destruct (a =? b)%N; [apply IH | reflexivity].
Qed.

Lemma no_marker_app (a b : str) :
  no_marker a = true -> no_marker b = true -> no_marker (a ++ b) = true.
Proof.
  intros Ha Hb. induction a as [|c a IH]; [exact Hb|].
  cbn [no_marker] in Ha. apply andb_prop in Ha as [Hc Ha].
  apply negb_true_iff in Hc.
  change ((c :: a) ++ b) with (c :: (a ++ b)). cbn [no_marker].
  change (c :: (a ++ b)) with ((c :: a) ++ b).
  rewrite (compatible_app_false _ _ _ Hc), (IH Ha). reflexivity.
Qed.

Lemma no_marker_without_laquo (text : str) :
  Forall (fun c => c <> laquo) text -> no_marker text = true.
Proof.
  induction 1 as [|c text Hc _ IH]; [reflexivity|].
  cbn [no_marker]. rewrite IH, andb_true_r.
  unfold marker_open. cbn [compatible].
  apply N.eqb_neq in Hc. rewrite N.eqb_sym, Hc. reflexivity.
Qed.

Lemma rewritten_no_marker (hosted : str -> option str) (doc : list Doc.piece) :
  Forall Doc.well_formed doc ->
  Forall (Forall (fun c => c <> laquo)) (Doc.names doc) ->
  (forall n h, hosted n = Some h ->
               Forall (fun c => c <> laquo) n -> Forall (fun c => c <> laquo) h) ->
  no_marker (Doc.rewritten hosted doc) = true.
Proof.
  intros Hwf Hnames Hhosted. unfold Doc.rewritten.
  induction Hwf as [|p doc Hp _ IH]; [reflexivity|].
  cbn [List.map concat]. destruct p as [text|raw trailer].
  - apply no_marker_app; [exact Hp | exact (IH Hnames)].
  - cbn [Doc.names] in Hnames. inversion Hnames as [|n ns Hn Hns]; subst.
    apply no_marker_app; [|exact (IH Hns)].
    apply no_marker_without_laquo.
    destruct (hosted (strip raw)) as [h|] eqn:Hh; cbn [default from_option id].
    + exact (Hhosted _ _ Hh Hn).
    + exact Hn.
Qed.


(** C1, amended.  For every HTML artifact that decodes, [host_artifact]
    reports success whatever happens to the references (the fetch of the
    artifact itself and the write of the result being the ones that
    succeed).  The extracted references are hosted one after the other.
    When none of them was hosted, the file written is the artifact as
    loaded, tokens included.  When at least one was hosted, the file
    written is the text after the replacement with the map that sends
    each hosted reference to its hosted name, which is the base name of
    the reference.  For a text that is plain text and reference tokens
    this is the text in which every token is replaced, by the hosted name
    of its reference when that reference was hosted and by the bare
    referenced name when it was not; and when no referenced name holds
    the opening character of a token, no token opening is left in that
    text at all, so that nothing more could be extracted from it or
    replaced in it. *)
Theorem references_rewritten
    name custom ctx cfg server w ic base ver loaded w1 w2 html_content
    entries w3 :
  _web_server_instance w = Some server ->
  _invocation_context ctx = Some ic ->
  all_truthy ic = true ->
  resolve name (default [] (app_name ic)) (default [] (user_id ic))
    (default [] (session_id ic)) w = (Ok (base, ver), w1) ->
  load base ver (default [] (app_name ic)) (default [] (user_id ic))
    (default [] (session_id ic)) w1 = (Ok loaded, w2) ->
  is_html (determine_hosted_filename custom base) = true ->
  Utf8.decode loaded = Some html_content ->
  hosts_refs (default [] (app_name ic)) (default [] (user_id ic))
    (default [] (session_id ic)) server
    (match cfg with Some c => base_url c | None => None end)
    (_extract_artifact_references html_content) w2 = (entries, w3) ->
  (forall content x, exists x',
      os_write_file (hosted_path server
        (determine_hosted_filename custom base)) content x = (Ok tt, x')) ->
  exists out x4,
    host name custom (Some ctx) cfg w
    = (Ok (success_result base ver (determine_hosted_filename custom base)
             (get_url server (determine_hosted_filename custom base)
                (match cfg with Some c => base_url c | None => None end))
             entries),
       after w3
         (WriteFile (hosted_path server
            (determine_hosted_filename custom base)) out) x4)
    /\ status (success_result base ver (determine_hosted_filename custom base)
                 (get_url server (determine_hosted_filename custom base)
                    (match cfg with Some c => base_url c | None => None end))
                 entries) = lit "success"
    /\ Forall (fun e => ref_hosted_filename e = fst (rsplit1 58 (ref_filename e)))
         entries
    /\ (entries = [] -> out = loaded)
    /\ (entries <> [] ->
        (exists fmap : gmap str str,
            (forall k, fmap !! k = hosted_name_of entries k)
            /\ Utf8.encode (_replace_artifact_references html_content fmap)
               = Some out)
        /\ forall doc,
             html_content = Doc.render doc ->
             Forall Doc.well_formed doc ->
             Utf8.encode (Doc.rewritten (hosted_name_of entries) doc) = Some out
             /\ (Forall (Forall (fun c => c <> laquo)) (Doc.names doc) ->
                 no_marker (Doc.rewritten (hosted_name_of entries) doc) = true
                 /\ _extract_artifact_references
                      (Doc.rewritten (hosted_name_of entries) doc) = []
                 /\ forall filename_map : gmap str str,
                      _replace_artifact_references
                        (Doc.rewritten (hosted_name_of entries) doc) filename_map
                      = Doc.rewritten (hosted_name_of entries) doc)).
Proof.
  intros Hreg Hic Hall Hres Hload Hhtml Hdec Hhosts Hwrite.
  destruct (host_html_text name custom ctx cfg server w ic base ver loaded
              w1 w2 html_content entries w3 Hreg Hic Hall Hres Hload Hhtml Hdec
              Hhosts Hwrite)
    as (out & x4 & Hrun & Hnone & Hsome).
  destruct (hosts_references_entries (_extract_artifact_references html_content)
              (default [] (app_name ic)) (default [] (user_id ic))
              (default [] (session_id ic)) server
              (match cfg with Some c => base_url c | None => None end) w2)
    as (_ & Hbase).
  rewrite Hhosts in Hbase. cbn [fst] in Hbase.
  exists out, x4. split; [exact Hrun|].
  split; [unfold success_result; destruct entries; reflexivity|].
  split; [exact Hbase|]. split; [exact Hnone|].
  intros Hne. destruct (Hsome Hne) as (fmap & Hlookup & Henc).
  split; [exists fmap; split; assumption|].
  intros doc -> Hwf.
  rewrite (replace_rendered doc fmap (hosted_name_of entries) Hwf Hlookup)
    in Henc.
  split; [exact Henc|]. intros Hclean.
  assert (Hplain : no_marker (Doc.rewritten (hosted_name_of entries) doc) = true).
  { apply rewritten_no_marker; [exact Hwf | exact Hclean|].
    intros n h Hh Hn.
    apply hosted_name_of_In in Hh as (e & Hin & <- & <-).
    rewrite List.Forall_forall in Hbase. rewrite (Hbase e Hin).
    apply rsplit1_Forall. exact Hn. }
  split; [exact Hplain|]. split.
  - unfold _extract_artifact_references, Re.findall.
    rewrite <- (app_nil_r (Doc.rewritten _ doc)), findall_plain by exact Hplain.
    reflexivity.
  - intros filename_map. unfold _replace_artifact_references, Re.sub.
    rewrite <- (app_nil_r (Doc.rewritten _ doc)) at 1.
    rewrite sub_plain by exact Hplain. apply app_nil_r.
Qed.


(** *** Identifiers with a version *)

Lemma rsplit1_app (sep : N) (b a : str) :
  contains sep a = false -> rsplit1 sep (b ++ sep :: a) = (b, Some a).
Proof.
  intros Ha. induction b as [|c b IH].
  - cbn [app rsplit1]. rewrite (rsplit1_no_sep _ _ Ha), N.eqb_refl. reflexivity.
  - cbn [app rsplit1]. rewrite IH. reflexivity.
Qed.

Lemma resolve_explicit base vstr v app user session (w : world X) :
  contains 58 vstr = false -> vstr <> [] -> py_int vstr = Ok v ->
  resolve (base ++ 58%N :: vstr) app user session w = (Ok (base, v), w).
Proof.
  intros Hv Hne Hint. unfold resolve_version.
  rewrite (rsplit1_app _ _ _ Hv). cbn [fst snd].
  destruct vstr as [|c vstr]; [congruence|].
  cbn [truthy default from_option id].
  unfold Eff.bind, of_outcome, ret. rewrite Hint. reflexivity.
Qed.

Lemma resolve_invalid base vstr e app user session (w : world X) :
  contains 58 vstr = false -> vstr <> [] -> py_int vstr = Raise e ->
  resolve (base ++ 58%N :: vstr) app user session w = (Raise e, w).
Proof.
  intros Hv Hne Hint. unfold resolve_version.
  rewrite (rsplit1_app _ _ _ Hv). cbn [fst snd].
  destruct vstr as [|c vstr]; [congruence|].
  cbn [truthy default from_option id].
  unfold Eff.bind, of_outcome, ret. rewrite Hint. reflexivity.
Qed.

(** X1.  An identifier [base:version] whose version the builtin [int]
    reads as [v] is loaded at [v] without asking for the list of versions:
    the first outside call of [host_artifact] and of
    [_host_single_artifact] is the load of [base] at [v], and a success
    reports [base] and [v]. *)
Theorem explicit_version_loaded_directly
    base vstr v custom ctx cfg server w ic burl :
  _web_server_instance w = Some server ->
  _invocation_context ctx = Some ic ->
  all_truthy ic = true ->
  contains 58 vstr = false ->
  vstr <> [] ->
  py_int vstr = Ok v ->
  (exists r w' rest,
      host (base ++ 58%N :: vstr) custom (Some ctx) cfg w = (Ok r, w')
      /\ trace w' = trace w ++ LoadArtifact base v :: rest
      /\ forall msg b ver h url refs,
           r = ToolSuccess msg b ver h url refs -> b = base /\ ver = v)
  /\ (exists r w' rest,
        host_single (base ++ 58%N :: vstr) None (default [] (app_name ic))
          (default [] (user_id ic)) (default [] (session_id ic)) server burl w
        = (Ok r, w')
        /\ trace w' = trace w ++ LoadArtifact base v :: rest
        /\ forall a ver h url,
             r = SingleSuccess a ver h url -> a = base /\ h = base /\ ver = v).
Proof.
  intros Hreg Hic Hall Hv Hne Hint.
  pose proof (resolve_explicit base vstr v (default [] (app_name ic))
                (default [] (user_id ic)) (default [] (session_id ic)) w
                Hv Hne Hint) as Hres.
  split.
  - rewrite (host_eq _ _ _ _ server _ Hreg).
    rewrite (body_eq _ _ _ _ _ _ ic Hic Hall). cbv zeta.
    rewrite Hres. cbn [fst snd].
    destruct (load base v _ _ _ w) as [[loaded|e] w2] eqn:Hload;
      pose proof (load_trace _ _ _ _ _ _ _ _ Hload) as Hw2.
    2:{ eexists _, w2, []. split; [reflexivity|].
        split; [exact Hw2 | intros; discriminate]. }
    destruct (process _ loaded _ _ _ server _ w2) as [[final|e] w3] eqn:Hproc.
    2:{ destruct (process_total (determine_hosted_filename custom base) loaded
                    (default [] (app_name ic)) (default [] (user_id ic))
                    (default [] (session_id ic)) server
                    (match cfg with Some c => base_url c | None => None end) w2)
          as (l & w' & Hp).
        rewrite Hp in Hproc. discriminate. }
    apply process_extends in Hproc as [rest3 Hw3].
    destruct (write _ _ w3) as [[u|e] w4] eqn:Hwrite;
      apply write_extends in Hwrite as [rest4 Hw4].
    + eexists _, w4, (rest3 ++ rest4). split; [reflexivity|]. split.
      * rewrite Hw4, Hw3, Hw2. rewrite <- !app_assoc. reflexivity.
      * intros msg b ver h url refs Hr.
        apply success_result_inv in Hr as (-> & -> & _). auto.
    + eexists _, w4, (rest3 ++ rest4). split; [reflexivity|].
      split; [|intros; discriminate].
      rewrite Hw4, Hw3, Hw2. rewrite <- !app_assoc. reflexivity.
  - rewrite host_single_eq, Hres. cbn [fst snd].
    destruct (load base v _ _ _ w) as [[loaded|e] w2] eqn:Hload;
      pose proof (load_trace _ _ _ _ _ _ _ _ Hload) as Hw2.
    2:{ eexists _, w2, []. split; [reflexivity|].
        split; [exact Hw2 | intros; discriminate]. }
    cbv zeta.
    destruct (write _ _ w2) as [[u|e] w3] eqn:Hwrite;
      apply write_extends in Hwrite as [rest3 Hw3].
    + eexists _, w3, rest3. split; [reflexivity|]. split.
      * rewrite Hw3, Hw2. rewrite <- !app_assoc. reflexivity.
      * intros a ver h url [= <- <- <- _]. auto.
    + eexists _, w3, rest3. split; [reflexivity|].
      split; [|intros; discriminate].
      rewrite Hw3, Hw2. rewrite <- !app_assoc. reflexivity.
Qed.

(** X2.  An identifier [base:version] whose version the builtin [int]
    rejects with [e] is refused before any outside call: [host_artifact]
    returns the error made of [e] and [_host_single_artifact] the error
    dictionary with the identifier as given and [str(e)]; the world is
    untouched. *)
Theorem unreadable_version_rejected
    base vstr e custom ctx cfg server w ic burl :
  _web_server_instance w = Some server ->
  _invocation_context ctx = Some ic ->
  all_truthy ic = true ->
  contains 58 vstr = false ->
  vstr <> [] ->
  py_int vstr = Raise e ->
  host (base ++ 58%N :: vstr) custom (Some ctx) cfg w
  = (Ok (ToolError (if is_FileNotFoundError e then exn_str e
                    else lit "An unexpected error occurred: " ++ exn_str e)), w)
  /\ host_single (base ++ 58%N :: vstr) None (default [] (app_name ic))
       (default [] (user_id ic)) (default [] (session_id ic)) server burl w
     = (Ok (SingleError (base ++ 58%N :: vstr) (exn_str e)), w).
Proof.
  intros Hreg Hic Hall Hv Hne Hint.
  pose proof (resolve_invalid base vstr e (default [] (app_name ic))
                (default [] (user_id ic)) (default [] (session_id ic)) w
                Hv Hne Hint) as Hres.
  split.
  - rewrite (host_eq _ _ _ _ server _ Hreg).
    rewrite (body_eq _ _ _ _ _ _ ic Hic Hall). cbv zeta.
    rewrite Hres. reflexivity.
  - rewrite host_single_eq, Hres. reflexivity.
Qed.

Lemma resolve_trailing_colon base app user session (w : world X) :
  contains 58 base = false ->
  resolve (base ++ [58%N]) app user session w = resolve base app user session w.
Proof.
  intros Hbase. unfold resolve_version.
  rewrite (rsplit1_app 58 base [] eq_refl), (rsplit1_no_sep _ _ Hbase).
  reflexivity.
Qed.

Lemma body_by_resolve n1 n2 custom ctx cfg server (w : world X) :
  (forall app user session,
      resolve n1 app user session w = resolve n2 app user session w) ->
  body n1 custom ctx cfg server w = body n2 custom ctx cfg server w.
Proof.
  intros Hres.
  destruct (_invocation_context ctx) as [ic|] eqn:Hic.
  2:{ rewrite !body_no_context by assumption. reflexivity. }
  destruct (all_truthy ic) eqn:Hall.
  2:{ rewrite !(body_missing_parts _ _ _ _ _ _ ic) by assumption. reflexivity. }
  rewrite !(body_eq _ _ _ _ _ _ ic Hic Hall). cbv zeta.
  rewrite Hres. reflexivity.
Qed.

(** X3.  A colon at the end of an identifier counts for nothing: for a
    name [base] without colon, [base:] is hosted exactly as [base] is (the
    latest version), by [host_artifact]; [_host_single_artifact] differs
    only in the identifier it reports with an error. *)
Theorem trailing_colon_means_latest
    base custom tool_context cfg app user session server burl w :
  contains 58 base = false ->
  host (base ++ [58%N]) custom tool_context cfg w
  = host base custom tool_context cfg w
  /\ match host_single base None app user session server burl w with
     | (Ok (SingleError _ err), w') =>
         host_single (base ++ [58%N]) None app user session server burl w
         = (Ok (SingleError (base ++ [58%N]) err), w')
     | other =>
         host_single (base ++ [58%N]) None app user session server burl w
         = other
     end.
Proof.
  intros Hbase. split.
  - destruct tool_context as [ctx|]; [|reflexivity].
    destruct (_web_server_instance w) as [server'|] eqn:Hreg.
    + rewrite !(host_eq _ _ _ _ server' _ Hreg).
      rewrite (body_by_resolve (base ++ [58%N]) base); [reflexivity|].
      intros. apply resolve_trailing_colon. exact Hbase.
    + unfold host_artifact, get_web_server, Eff.bind, ret. rewrite Hreg.
      reflexivity.
  - rewrite !host_single_eq, resolve_trailing_colon by exact Hbase.
    destruct (resolve base app user session w) as [[resolved|e] w1]; [|reflexivity].
    destruct (load _ _ app user session w1) as [[loaded|e] w2]; [|reflexivity].
    cbv zeta. destruct (write _ loaded w2) as [[u|e] w3]; reflexivity.
Qed.

(** *** The shape of the results *)

(** X4.  [_host_single_artifact] never raises, and what it returns is
    decided by the first step that raises.  When resolving the version
    raises [e], or loading does, or writing does, it returns the error
    dictionary with the identifier as it was given and [str(e)], and
    nothing further is called.  When the three steps succeed it returns
    the success dictionary with the base name, the version, the name
    hosted (the custom name rule applied to the base name) and the URL of
    that name, after the write of the loaded bytes at
    [host_directory / name]. *)
Theorem host_single_result name custom app user session server burl w :
  (forall e w1,
      resolve name app user session w = (Raise e, w1) ->
      host_single name custom app user session server burl w
      = (Ok (SingleError name (exn_str e)), w1))
  /\ (forall base ver w1 e w2,
        resolve name app user session w = (Ok (base, ver), w1) ->
        load base ver app user session w1 = (Raise e, w2) ->
        host_single name custom app user session server burl w
        = (Ok (SingleError name (exn_str e)), w2))
  /\ (forall base ver w1 loaded w2 e x3,
        resolve name app user session w = (Ok (base, ver), w1) ->
        load base ver app user session w1 = (Ok loaded, w2) ->
        os_write_file
          (hosted_path server (determine_hosted_filename custom base)) loaded
          (outside w2) = (Raise e, x3) ->
        host_single name custom app user session server burl w
        = (Ok (SingleError name (exn_str e)),
           after w2
             (WriteFile
                (hosted_path server (determine_hosted_filename custom base))
                loaded) x3))
  /\ (forall base ver w1 loaded w2 u x3,
        resolve name app user session w = (Ok (base, ver), w1) ->
        load base ver app user session w1 = (Ok loaded, w2) ->
        os_write_file
          (hosted_path server (determine_hosted_filename custom base)) loaded
          (outside w2) = (Ok u, x3) ->
        base = fst (rsplit1 58 name)
        /\ host_single name custom app user session server burl w
           = (Ok (SingleSuccess base ver (determine_hosted_filename custom base)
                    (get_url server (determine_hosted_filename custom base)
                       burl)),
              after w2
                (WriteFile
                   (hosted_path server (determine_hosted_filename custom base))
                   loaded) x3)).
Proof.
  split; [|split; [|split]].
  - intros e w1 Hres. rewrite host_single_eq, Hres. reflexivity.
  - intros base ver w1 e w2 Hres Hload.
    rewrite host_single_eq, Hres. cbn [fst snd]. rewrite Hload. reflexivity.
  - intros base ver w1 loaded w2 e x3 Hres Hload Hwrite.
    rewrite host_single_eq, Hres. cbn [fst snd]. rewrite Hload. cbv zeta.
    rewrite (write_eq _ _ _ _ _ Hwrite). reflexivity.
  - intros base ver w1 loaded w2 u x3 Hres Hload Hwrite.
    split; [exact (resolve_base _ _ _ _ _ _ _ _ Hres)|].
    rewrite host_single_eq, Hres. cbn [fst snd]. rewrite Hload. cbv zeta.
    rewrite (write_eq _ _ _ _ _ Hwrite). reflexivity.
Qed.

(** X5.  An artifact hosted under a name that is not an HTML name is
    written exactly as it was loaded, whatever its bytes hold (reference
    tokens included), and no referenced artifact is looked for: the only
    outside call after the load is the write (the fetch and the write
    being the ones that succeed). *)
Theorem other_files_hosted_unchanged
    name custom ctx cfg server w ic base ver loaded w1 w2 x3 :
  _web_server_instance w = Some server ->
  _invocation_context ctx = Some ic ->
  all_truthy ic = true ->
  resolve name (default [] (app_name ic)) (default [] (user_id ic))
    (default [] (session_id ic)) w = (Ok (base, ver), w1) ->
  load base ver (default [] (app_name ic)) (default [] (user_id ic))
    (default [] (session_id ic)) w1 = (Ok loaded, w2) ->
  is_html (determine_hosted_filename custom base) = false ->
  os_write_file (hosted_path server (determine_hosted_filename custom base))
    loaded (outside w2) = (Ok tt, x3) ->
  host name custom (Some ctx) cfg w
  = (Ok (ToolSuccess (lit "Artifact hosted successfully") base ver
           (determine_hosted_filename custom base)
           (get_url server (determine_hosted_filename custom base)
              (match cfg with Some c => base_url c | None => None end))
           []),
     after w2
       (WriteFile (hosted_path server
          (determine_hosted_filename custom base)) loaded) x3).
Proof.
  intros Hreg Hic Hall Hres Hload Hhtml Hwrite.
  rewrite (host_eq _ _ _ _ server _ Hreg).
  rewrite (body_eq _ _ _ _ _ _ ic Hic Hall). cbv zeta.
  rewrite Hres. cbn [fst snd]. rewrite Hload.
  unfold process_if_html. rewrite Hhtml.
  cbn [artifact_bytes referenced_artifacts].
  rewrite (write_eq _ _ _ _ _ Hwrite). reflexivity.
Qed.

(** X6.  The checks of [host_artifact] come in a fixed order and fail
    before any outside call: without a tool context the message is
    [ToolContext is required], whatever the server registry holds; with a
    tool context and no registered server it is the [Web server is not
    running] message, whatever the context holds; with both, a missing
    invocation context and missing context parts are reported as
    unexpected errors.  The world is untouched in all four. *)
Theorem host_artifact_checks_in_order name custom cfg (w : world X) :
  host name custom None cfg w
  = (Ok (ToolError (lit "ToolContext is required")), w)
  /\ (forall ctx,
        _web_server_instance w = None ->
        host name custom (Some ctx) cfg w
        = (Ok (ToolError
                 (lit "Web server is not running. Please check agent configuration.")),
           w))
  /\ (forall ctx server,
        _web_server_instance w = Some server ->
        _invocation_context ctx = None ->
        host name custom (Some ctx) cfg w
        = (Ok (ToolError
                 (lit "An unexpected error occurred: InvocationContext is not available.")),
           w))
  /\ (forall ctx server ic,
        _web_server_instance w = Some server ->
        _invocation_context ctx = Some ic ->
        all_truthy ic = false ->
        host name custom (Some ctx) cfg w
        = (Ok (ToolError
                 (lit "An unexpected error occurred: Missing required context parts")),
           w)).
Proof.
  split; [reflexivity|]. split; [|split].
  - intros ctx Hreg. unfold host_artifact, get_web_server, Eff.bind, ret.
    rewrite Hreg. reflexivity.
  - intros ctx server Hreg Hic.
    rewrite (host_eq _ _ _ _ server _ Hreg), body_no_context by exact Hic.
    reflexivity.
  - intros ctx server ic Hreg Hic Hall.
    rewrite (host_eq _ _ _ _ server _ Hreg).
    rewrite (body_missing_parts _ _ _ _ _ _ ic) by assumption.
    reflexivity.
Qed.

Ltac written_as_loaded Hwrite loaded w3 Hext :=
  let x4 := fresh "x4" in
  let Hw := fresh "Hw" in
  destruct (Hwrite loaded (outside w3)) as [x4 Hw];
  rewrite (write_eq _ _ _ _ _ Hw);
  exists [], w3, loaded, x4;
  split; [reflexivity|]; split; [exact Hext|];
  split; [reflexivity | congruence].

(** X7.  What [host_artifact] writes, for any artifact (the fetch of the
    artifact and the write of the result being the ones that succeed): the
    call succeeds; when its result lists no referenced artifact the file
    is the artifact as loaded; when it lists some, the name is an HTML
    name, the bytes decode to a text, the listed references are among the
    extracted ones in their order, and the file is the encoding of that
    text after the replacement with the map that sends each listed
    reference to its hosted name. *)
Theorem hosted_content name custom ctx cfg server w ic base ver loaded w1 w2 :
  _web_server_instance w = Some server ->
  _invocation_context ctx = Some ic ->
  all_truthy ic = true ->
  resolve name (default [] (app_name ic)) (default [] (user_id ic))
    (default [] (session_id ic)) w = (Ok (base, ver), w1) ->
  load base ver (default [] (app_name ic)) (default [] (user_id ic))
    (default [] (session_id ic)) w1 = (Ok loaded, w2) ->
  (forall content x, exists x',
      os_write_file (hosted_path server
        (determine_hosted_filename custom base)) content x = (Ok tt, x')) ->
  exists entries w3 out x4,
    host name custom (Some ctx) cfg w
    = (Ok (success_result base ver (determine_hosted_filename custom base)
             (get_url server (determine_hosted_filename custom base)
                (match cfg with Some c => base_url c | None => None end))
             entries),
       after w3
         (WriteFile (hosted_path server
            (determine_hosted_filename custom base)) out) x4)
    /\ extends w2 w3
    /\ (entries = [] -> out = loaded)
    /\ (entries <> [] ->
        is_html (determine_hosted_filename custom base) = true
        /\ exists html_content (fmap : gmap str str),
             Utf8.decode loaded = Some html_content
             /\ sublist (List.map ref_filename entries)
                  (_extract_artifact_references html_content)
             /\ (forall k, fmap !! k = hosted_name_of entries k)
             /\ Utf8.encode (_replace_artifact_references html_content fmap)
                = Some out).
Proof.
  intros Hreg Hic Hall Hres Hload Hwrite.
  rewrite (host_eq _ _ _ _ server _ Hreg).
  rewrite (body_eq _ _ _ _ _ _ ic Hic Hall). cbv zeta.
  rewrite Hres. cbn [fst snd]. rewrite Hload.
  unfold process_if_html.
  destruct (is_html (determine_hosted_filename custom base)) eqn:Hhtml.
  2:{ cbn [artifact_bytes referenced_artifacts].
      written_as_loaded Hwrite loaded w2 (extends_refl w2). }
  rewrite process_refs_eq. cbn [artifact_bytes].
  destruct (Utf8.decode loaded) as [html_content|] eqn:Hdec.
  2:{ cbn [artifact_bytes referenced_artifacts].
      written_as_loaded Hwrite loaded w2 (extends_refl w2). }
  destruct (_extract_artifact_references html_content) as [|ref_name rest]
    eqn:Hrefs.
  { cbn [artifact_bytes referenced_artifacts].
    written_as_loaded Hwrite loaded w2 (extends_refl w2). }
  match goal with |- context [host_refs ?refs _ _ _ _ _ (?l, _)] =>
    destruct (host_refs_run refs (default [] (app_name ic))
                (default [] (user_id ic)) (default [] (session_id ic)) server
                (match cfg with Some c => base_url c | None => None end) l w2)
      as (l' & w3 & added & Hrun & Hext & Hbytes & Hadded & Hsub & Hbase & Hmap)
  end.
  rewrite Hrun. cbn [artifact_bytes referenced_artifacts filename_map app] in *.
  assert (Hlookup : forall k, filename_map l' !! k = hosted_name_of added k).
  { intros k. rewrite Hmap, lookup_empty.
    destruct (hosted_name_of added k); reflexivity. }
  destruct (bool_decide (filename_map l' = ∅)) eqn:Hempty.
  - apply bool_decide_eq_true in Hempty.
    assert (Hnil : added = []).
    { destruct added as [|e added']; [reflexivity|]. exfalso.
      apply (hosted_name_of_head e added').
      rewrite <- Hlookup, Hempty. apply lookup_empty. }
    rewrite Hadded, Hnil, Hbytes. cbn [app].
    written_as_loaded Hwrite loaded w3 Hext.
  - apply bool_decide_eq_false in Hempty.
    assert (Hscalar :
              Forall (fun c => scalar c = true)
                (_replace_artifact_references html_content (filename_map l'))).
    { pose proof (decode_scalar _ _ Hdec) as Htext.
      apply replace_Forall; [exact Htext|].
      intros k v Hkv. rewrite Hlookup in Hkv.
      apply hosted_name_of_In in Hkv as (e & Hin & <- & <-).
      rewrite List.Forall_forall in Hbase. rewrite (Hbase e Hin).
      apply rsplit1_Forall.
      apply (extract_Forall _ html_content); [exact Htext|].
      rewrite Hrefs. apply list_elem_of_In.
      eapply elem_of_sublist; [|exact Hsub].
      apply list_elem_of_In, List.in_map. exact Hin. }
    destruct (encode_total _ Hscalar) as [encoded Henc].
    rewrite Henc. cbn [set_artifact_bytes artifact_bytes referenced_artifacts].
    destruct (Hwrite encoded (outside w3)) as [x4 Hw].
    rewrite (write_eq _ _ _ _ _ Hw).
    exists added, w3, encoded, x4. rewrite Hadded.
    split; [reflexivity|]. split; [exact Hext|].
    split.
    + intros ->. exfalso. apply Hempty. apply map_empty. exact Hlookup.
    + intros _. split; [reflexivity|].
      exists html_content, (filename_map l').
      split; [reflexivity|]. split; [rewrite Hrefs; exact Hsub|].
      split; [exact Hlookup | exact Henc].
Qed.

(** *** Where the file is written *)

(** X8.  [host_artifact] writes the artifact at the path
    [host_directory / name] of the name it reports, and nothing keeps
    that path inside the directory.  A custom name with a dot is used as
    it is given; when the name is an absolute path, the file is written
    at that path, whatever the directory of the server is; a relative
    name is put after the components of the directory, its [..]
    components kept. *)
Theorem hosted_file_location
    name custom ctx cfg w msg base ver hosted url refs w' :
  host name custom (Some ctx) cfg w
  = (Ok (ToolSuccess msg base ver hosted url refs), w') ->
  exists server earlier content,
    _web_server_instance w = Some server
    /\ trace w' = earlier ++ [WriteFile (hosted_path server hosted) content]
    /\ (forall c, custom = Some c -> contains 46 c = true -> hosted = c)
    /\ (PosixPath.is_absolute (PosixPath.parse hosted) = true ->
        hosted_path server hosted = PosixPath.to_str (PosixPath.parse hosted))
    /\ (PosixPath.is_absolute (PosixPath.parse hosted) = false ->
        hosted_path server hosted
        = PosixPath.to_str
            {| PosixPath.root :=
                 PosixPath.root (PosixPath.parse (host_directory server));
               PosixPath.parts :=
                 PosixPath.parts (PosixPath.parse (host_directory server))
                   ++ PosixPath.parts (PosixPath.parse hosted) |}).
Proof.
  intros H.
  apply host_success_inv in H
    as (server & ic & w1 & loaded & w2 & final & w3 & Hreg & _ & _ & _ & _
        & Hhosted & _ & Hwrite & _).
  exists server, (trace w3), (artifact_bytes final).
  split; [exact Hreg|].
  split; [eapply write_ok_inv; exact Hwrite|].
  split.
  - intros c -> Hdot. subst hosted. unfold determine_hosted_filename.
    destruct c as [|c0 c]; [discriminate Hdot|].
    cbn [truthy default from_option id andb]. rewrite Hdot. reflexivity.
  - unfold hosted_path, PosixPath.joinpath.
    split; intros Habs; rewrite Habs; reflexivity.
Qed.

(** *** Referenced artifacts are copied *)

Lemma resolve_trace name app user session (w w1 : world X) base ver :
  resolve name app user session w = (Ok (base, ver), w1) ->
  trace w1 = trace w \/ trace w1 = trace w ++ [ListVersions base].
Proof.
  intros Hres. pose proof (resolve_base _ _ _ _ _ _ _ _ Hres) as ->.
  revert Hres. unfold resolve_version, Eff.bind, of_outcome, ret, raise.
  destruct (truthy (snd (rsplit1 58 name))).
  - destruct (py_int _); intros H; injection H as _ <-; [|]; left; reflexivity.
  - unfold list_versions. rewrite call_eq. cbn [fst snd].
    destruct (fst (svc_list_versions _ _ _ _ _)) as [[|v vs]|e];
      intros H; injection H as _ <-; right; reflexivity.
Qed.

(** X21.  [_host_single_artifact] copies: when it succeeds it has made at
    most three outside calls, the listing of the versions (when the
    identifier names none), the load, and the write of exactly the bytes
    that were loaded.  So a page that is hosted because another page
    refers to it keeps its own reference tokens, and what it refers to is
    not fetched. *)
Theorem host_single_copies name custom app user session server burl
    (w w' : world X) a v hosted url :
  host_single name custom app user session server burl w
  = (Ok (SingleSuccess a v hosted url), w') ->
  exists listing loaded w1 w2,
    load a v app user session w1 = (Ok loaded, w2)
    /\ (listing = [] \/ listing = [ListVersions a])
    /\ trace w'
       = trace w ++ listing
           ++ [LoadArtifact a v; WriteFile (hosted_path server hosted) loaded].
Proof.
  rewrite host_single_eq.
  destruct (resolve name app user session w) as [[[base ver]|e] w1] eqn:Hres;
    [|discriminate].
  cbn [fst snd].
  destruct (load base ver app user session w1) as [[loaded|e] w2] eqn:Hload;
    [|discriminate].
  cbv zeta. destruct (write _ loaded w2) as [[u|e] w3] eqn:Hwrite;
    [|discriminate].
  intros H. injection H as <- <- <- _ <-.
  apply write_ok_inv in Hwrite. apply load_trace in Hload as Htrace.
  rewrite Hwrite, Htrace.
  destruct (resolve_trace _ _ _ _ _ _ _ _ Hres) as [->| ->].
  - exists [], loaded, w1, w2. split; [exact Hload|].
    split; [left; reflexivity|]. rewrite <- !app_assoc. reflexivity.
  - exists [ListVersions base], loaded, w1, w2. split; [exact Hload|].
    split; [right; reflexivity|]. rewrite <- !app_assoc. reflexivity.
Qed.

End ToolFacts.

(** ** Closed instances *)

(** C1, as stated, fails when no referenced artifact can be fetched: the
    page [broken.html] refers to [missing.png], of which the store has no
    version; the call succeeds and writes the page as it was loaded, the
    token still in it, where the claim has [<img src='missing.png'>]. *)
Lemma references_left_counterexample :
  fst (Fixture.run Fixture.shop (lit "broken.html") None None)
  = Ok (ToolSuccess (lit "Artifact hosted successfully") (lit "broken.html") 0
          (lit "broken.html") (lit "http://127.0.0.1:8080/broken.html") [])
  /\ trace (snd (Fixture.run Fixture.shop (lit "broken.html") None None))
     = [ ListVersions (lit "broken.html");
         LoadArtifact (lit "broken.html") 0;
         ListVersions (lit "missing.png");
         WriteFile (lit "/srv/hosted_files/broken.html")
           (Fixture.bytes_of Fixture.broken) ]
  /\ Utf8.decode (Fixture.bytes_of Fixture.broken)
     = Some (lit "<img src='"
               ++ Fixture.token "missing.png >>> format:datauri" ++ lit "'>")
  /\ Fixture.bytes_of Fixture.broken
     <> Fixture.bytes_of (lit "<img src='missing.png'>").
Proof.
  split; [vm_compute; reflexivity|].
  split; [vm_compute; reflexivity|].
  split; [vm_compute; reflexivity|].
  vm_compute. discriminate.
Qed.

(** A referenced name may itself hold the text of a token opening: the
    replacement puts the name where the token was, and with a closing
    marker after it the text written has a token again. *)
Lemma token_made_by_replacement :
  let text := marker_open ++ marker_open ++ lit "a >>> b >>> x" ++ [raquo; raquo] in
  _extract_artifact_references text = [marker_open ++ lit "a >>> b"]
  /\ _replace_artifact_references text {[ lit "photo.jpg" := lit "photo.jpg" ]}
     = marker_open ++ lit "a >>> b" ++ [raquo]
  /\ _extract_artifact_references (marker_open ++ lit "a >>> b" ++ [raquo])
     = [lit "a"].
Proof.
  cbv zeta. split; [vm_compute; reflexivity|].
  split; [vm_compute; reflexivity | vm_compute; reflexivity].
Qed.

Lemma gallery_doc_well_formed : Forall Doc.well_formed Fixture.gallery_doc.
Proof.
  vm_compute.
  repeat first [ constructor | discriminate | intro; discriminate ].
Defined.

Lemma references_rewritten_witness :
  (Fixture.gallery = Doc.render Fixture.gallery_doc
   /\ Forall Doc.well_formed Fixture.gallery_doc
   /\ Forall (Forall (fun c => c <> laquo)) (Doc.names Fixture.gallery_doc)
   /\ hosts_references (Fixture.list_versions Fixture.shop)
        (Fixture.load_artifact Fixture.shop) Fixture.write_file Fixture.int
        (lit "app") (lit "user") (lit "session") Fixture.server None
        (_extract_artifact_references Fixture.gallery)
        (Fixture.after_fetch (lit "gallery.html") 0)
      = ([Fixture.photo_entry], Fixture.after_photo))
  /\ exists out x4,
       Fixture.run Fixture.shop (lit "gallery.html") None None
       = (Ok (success_result (lit "gallery.html") 0
                (determine_hosted_filename None (lit "gallery.html"))
                (get_url Fixture.server
                   (determine_hosted_filename None (lit "gallery.html")) None)
                [Fixture.photo_entry]),
          after Fixture.after_photo
            (WriteFile (hosted_path Fixture.server
               (determine_hosted_filename None (lit "gallery.html"))) out) x4)
       /\ status (success_result (lit "gallery.html") 0
                    (determine_hosted_filename None (lit "gallery.html"))
                    (get_url Fixture.server
                       (determine_hosted_filename None (lit "gallery.html")) None)
                    [Fixture.photo_entry]) = lit "success"
       /\ Forall (fun e => ref_hosted_filename e
                           = fst (rsplit1 58 (ref_filename e)))
            [Fixture.photo_entry]
       /\ ([Fixture.photo_entry] = [] -> out = Fixture.bytes_of Fixture.gallery)
       /\ ([Fixture.photo_entry] <> [] ->
           (exists fmap : gmap str str,
               (forall k, fmap !! k = hosted_name_of [Fixture.photo_entry] k)
               /\ Utf8.encode (_replace_artifact_references Fixture.gallery fmap)
                  = Some out)
           /\ forall doc,
                Fixture.gallery = Doc.render doc ->
                Forall Doc.well_formed doc ->
                Utf8.encode (Doc.rewritten (hosted_name_of [Fixture.photo_entry])
                               doc) = Some out
                /\ (Forall (Forall (fun c => c <> laquo)) (Doc.names doc) ->
                    no_marker (Doc.rewritten (hosted_name_of [Fixture.photo_entry])
                                 doc) = true
                    /\ _extract_artifact_references
                         (Doc.rewritten (hosted_name_of [Fixture.photo_entry])
                            doc) = []
                    /\ forall filename_map : gmap str str,
                         _replace_artifact_references
                           (Doc.rewritten (hosted_name_of [Fixture.photo_entry])
                              doc) filename_map
                         = Doc.rewritten (hosted_name_of [Fixture.photo_entry])
                             doc)).
Proof.
  split.
  { split; [vm_compute; reflexivity|].
    split; [exact gallery_doc_well_formed|].
    split; [|vm_compute; reflexivity].
    vm_compute. repeat first [ constructor | intro; discriminate ]. }
  apply (references_rewritten unit (Fixture.list_versions Fixture.shop)
           (Fixture.load_artifact Fixture.shop) Fixture.write_file Fixture.int
           (lit "gallery.html") None Fixture.context None Fixture.server
           Fixture.initial Fixture.invocation (lit "gallery.html") 0%Z
           (Fixture.bytes_of Fixture.gallery)
           (Fixture.after_list (lit "gallery.html"))
           (Fixture.after_fetch (lit "gallery.html") 0)
           Fixture.gallery [Fixture.photo_entry] Fixture.after_photo).
  - reflexivity.
  - reflexivity.
  - reflexivity.
  - vm_compute; reflexivity.
  - vm_compute; reflexivity.
  - vm_compute; reflexivity.
  - vm_compute; reflexivity.
  - vm_compute; reflexivity.
  - intros content x. exists x. reflexivity.
Defined.


Lemma undecodable_html_hosted_unchanged_witness :
  is_html (determine_hosted_filename None (lit "latin1.html")) = true
  /\ Utf8.decode Fixture.latin1 = None
  /\ Fixture.run Fixture.shop (lit "latin1.html") None None
     = (Ok (ToolSuccess (lit "Artifact hosted successfully") (lit "latin1.html") 0
              (determine_hosted_filename None (lit "latin1.html"))
              (get_url Fixture.server
                 (determine_hosted_filename None (lit "latin1.html")) None)
              []),
        after (Fixture.after_fetch (lit "latin1.html") 0)
          (WriteFile (hosted_path Fixture.server
             (determine_hosted_filename None (lit "latin1.html"))) Fixture.latin1)
          tt).
Proof.
  split; [reflexivity|]. split; [reflexivity|].
  apply (undecodable_html_hosted_unchanged unit
           (Fixture.list_versions Fixture.shop)
           (Fixture.load_artifact Fixture.shop) Fixture.write_file Fixture.int
           (lit "latin1.html") None Fixture.context None Fixture.server
           Fixture.initial Fixture.invocation (lit "latin1.html") 0%Z
           Fixture.latin1
           (Fixture.after_list (lit "latin1.html"))
           (Fixture.after_fetch (lit "latin1.html") 0) tt).
  - reflexivity.
  - reflexivity.
  - reflexivity.
  - vm_compute; reflexivity.
  - vm_compute; reflexivity.
  - vm_compute; reflexivity.
  - vm_compute; reflexivity.
  - reflexivity.
Defined.

Lemma latest_version_is_maximum_witness :
  py_max [3; 1; 2]%Z = 3%Z
  /\ exists r w' rest,
       Fixture.run Fixture.shop (lit "photo.jpg") None None = (Ok r, w')
       /\ trace w'
          = trace Fixture.initial
              ++ ListVersions (lit "photo.jpg")
                 :: LoadArtifact (lit "photo.jpg") (py_max [3; 1; 2]%Z) :: rest
       /\ forall msg b v h url refs,
            r = ToolSuccess msg b v h url refs ->
            b = lit "photo.jpg" /\ v = py_max [3; 1; 2]%Z.
Proof.
  split; [reflexivity|].
  destruct (latest_version_is_maximum unit (Fixture.list_versions Fixture.shop)
              (Fixture.load_artifact Fixture.shop) Fixture.write_file Fixture.int
              (lit "photo.jpg") None Fixture.context None Fixture.server
              Fixture.initial Fixture.invocation [3; 1; 2]%Z tt None
              eq_refl eq_refl eq_refl eq_refl eq_refl)
    as [(Hnil & _)|(_ & _ & _ & Hhost & _)]; [discriminate Hnil|].
  exact Hhost.
Defined.

Lemma hosted_filename_spec_witness :
  fst (Fixture.run Fixture.shop (lit "photo.jpg") (Some (lit "pic")) None)
  = Ok (ToolSuccess (lit "Artifact hosted successfully") (lit "photo.jpg") 3
          (lit "pic.jpg") (lit "http://127.0.0.1:8080/pic.jpg") [])
  /\ lit "pic.jpg" = lit "pic" ++ PyPath.suffix (lit "photo.jpg")
  /\ lit "photo.jpg" = fst (rsplit1 58 (lit "photo.jpg")).
Proof.
  split; [vm_compute; reflexivity|].
  destruct (hosted_filename_spec unit (Fixture.list_versions Fixture.shop)
              (Fixture.load_artifact Fixture.shop) Fixture.write_file Fixture.int
              (lit "photo.jpg") (Some (lit "pic")) Fixture.context None
              Fixture.initial
              (lit "Artifact hosted successfully") (lit "photo.jpg") 3%Z
              (lit "pic.jpg") (lit "http://127.0.0.1:8080/pic.jpg") []
              (snd (Fixture.run Fixture.shop (lit "photo.jpg") (Some (lit "pic")) None))
              ltac:(vm_compute; reflexivity))
    as (Hbase & _ & _ & Hsuffix & _).
  split; [|exact Hbase].
  apply (Hsuffix (lit "pic")); [reflexivity | discriminate | reflexivity | reflexivity].
Defined.


(** ** Texts without tokens, and tokens left open *)

Section TokenFacts.

Lemma findall_no_arrows (s : str) :
  Forall (fun c => c <> raquo) s ->
  arrows_ahead s = false ->
  Re.findall_from extract_pattern 0 s = [].
Proof.
  induction 1 as [|c s Hc Hs IH]; intros Harrows; [reflexivity|].
  cbn [Re.findall_from].
  rewrite extract_needs_arrows by exact Harrows.
  apply IH. apply (arrows_drop [c] s); [|exact Harrows].
  constructor; [exact Hc | constructor].
Qed.

Lemma replace_needs_close (s : str) :
  Forall (fun c => c <> raquo) s -> Re.match_at replace_pattern s = None.
Proof.
  intros Hs.
  destruct (Re.match_at replace_pattern s) as [[m g]|] eqn:Hmatch; [|reflexivity].
  apply match_at_sound in Hmatch as (rest & -> & Hden & _).
  unfold replace_pattern in Hden. cbn [denotes] in Hden.
  destruct Hden as (m1 & m2 & -> & _ & m3 & m4 & -> & _ & m5 & m6 & -> & _
                    & m7 & m8 & -> & _ & m9 & m10 & -> & _ & ->).
  exfalso. rewrite List.Forall_forall in Hs. apply (Hs raquo); [|reflexivity].
  rewrite !List.in_app_iff. left. do 5 right. left. reflexivity.
Qed.

Lemma sub_no_close (repl : str -> str) (s : str) :
  Forall (fun c => c <> raquo) s ->
  Re.sub_from replace_pattern repl 0 s = s.
Proof.
  induction 1 as [|c s Hc Hs IH]; [reflexivity|].
  cbn [Re.sub_from].
  rewrite replace_needs_close by (constructor; assumption).
  f_equal. exact IH.
Qed.

Lemma match_extract_open (raw trailer : str) :
  raw <> [] ->
  Forall (fun c => name_char c = true) raw ->
  arrows_ahead (lit ">>" ++ trailer) = false ->
  Re.match_at extract_pattern (marker_open ++ raw ++ lit ">>>" ++ trailer)
  = Some (marker_open ++ raw ++ lit ">>>", raw).
Proof.
  intros Hne Hraw Harrows.
  unfold Re.match_at, extract_pattern.
  rewrite run_cat, run_lit_app.
  erewrite (group_then_tail _ raw (lit ">>>" ++ trailer));
    [reflexivity | exact Hne | exact Hraw | exact extract_tail_needs_arrows | |].
  - intros c b' Hc Heq Hcls. destruct c as [|c0 c]; [congruence|].
    assert (Heq' : lit ">>" ++ trailer = c ++ b').
    { change (lit ">>>" ++ trailer) with (62%N :: (lit ">>" ++ trailer)) in Heq.
      change ((c0 :: c) ++ b') with (c0 :: (c ++ b')) in Heq. congruence. }
    inversion Hcls as [|? ? _ Hcls']; subst.
    apply (arrows_drop c b' (Forall_not_close _ _ name_char_not_close Hcls')).
    rewrite <- Heq'. exact Harrows.
  - rewrite run_cat.
    change (lit ">>>" ++ trailer) with (62%N :: (lit ">>" ++ trailer)).
    rewrite run_star_stop by reflexivity.
    change (62%N :: (lit ">>" ++ trailer)) with (lit ">>>" ++ trailer).
    rewrite run_lit_app. cbn [default from_option id app]. reflexivity.
Qed.

End TokenFacts.

(** X9.  A text in which the opening of a token occurs nowhere (not even
    cut short by the end of the text) has no references and is left as it
    is by the replacement; the empty text is one. *)
Theorem text_without_tokens (text : str) (filename_map : gmap str str) :
  no_marker text = true ->
  _extract_artifact_references text = []
  /\ _replace_artifact_references text filename_map = text.
Proof.
  intros Htext. split.
  - unfold _extract_artifact_references, Re.findall.
    rewrite <- (app_nil_r text), findall_plain by exact Htext. reflexivity.
  - unfold _replace_artifact_references, Re.sub.
    rewrite <- (app_nil_r text) at 1.
    rewrite sub_plain by exact Htext. apply app_nil_r.
Qed.

Lemma text_without_tokens_witness :
  no_marker (laquo :: lit "Bonjour" ++ [raquo]) = true
  /\ _extract_artifact_references (laquo :: lit "Bonjour" ++ [raquo]) = []
  /\ _replace_artifact_references (laquo :: lit "Bonjour" ++ [raquo]) ∅
     = laquo :: lit "Bonjour" ++ [raquo].
Proof.
  split; [reflexivity|].
  apply (text_without_tokens (laquo :: lit "Bonjour" ++ [raquo]) ∅).
  reflexivity.
Defined.

(** X10.  The two patterns differ: extraction does not ask for the closing
    marker, replacement does.  A token that is never closed (after plain
    text, with a name, [>>>] and a rest without closing marker in which no
    further [>>>] begins) is therefore extracted, so that its artifact is
    hosted, and yet stays in the text as it is. *)
Theorem unclosed_token_extracted_not_replaced
    (pre raw trailer : str) (filename_map : gmap str str) :
  no_marker pre = true ->
  raw <> [] ->
  Forall (fun c => name_char c = true) raw ->
  Forall (fun c => c <> raquo) trailer ->
  arrows_ahead (lit ">>" ++ trailer) = false ->
  _extract_artifact_references
    (pre ++ marker_open ++ raw ++ lit ">>>" ++ trailer) = [strip raw]
  /\ _replace_artifact_references
       (pre ++ marker_open ++ raw ++ lit ">>>" ++ trailer) filename_map
     = pre ++ marker_open ++ raw ++ lit ">>>" ++ trailer.
Proof.
  intros Hpre Hne Hraw Htrailer Harrows. split.
  - unfold _extract_artifact_references, Re.findall.
    rewrite findall_plain by exact Hpre.
    replace (marker_open ++ raw ++ lit ">>>" ++ trailer)
      with ((marker_open ++ raw ++ lit ">>>") ++ trailer)
      by (rewrite <- !app_assoc; reflexivity).
    rewrite (findall_match extract_pattern _ raw trailer
               (marker_open_app_nonempty _)).
    + rewrite findall_no_arrows; [reflexivity | exact Htrailer|].
      apply (arrows_drop (lit ">>") trailer); [|exact Harrows].
      repeat constructor; discriminate.
    + rewrite <- !app_assoc. apply match_extract_open; assumption.
  - unfold _replace_artifact_references, Re.sub.
    rewrite sub_plain by exact Hpre. f_equal.
    apply sub_no_close.
    apply Forall_app. split; [exact marker_open_not_close|].
    apply Forall_app. split.
    { eapply Forall_not_close; [exact name_char_not_close | exact Hraw]. }
    apply Forall_app. split; [repeat constructor; discriminate | exact Htrailer].
Qed.

Lemma unclosed_token_extracted_not_replaced_witness :
  _extract_artifact_references
    (lit "<img src='" ++ marker_open ++ lit "photo.jpg " ++ lit ">>>"
       ++ lit " format:datauri'>") = [strip (lit "photo.jpg ")]
  /\ _replace_artifact_references
       (lit "<img src='" ++ marker_open ++ lit "photo.jpg " ++ lit ">>>"
          ++ lit " format:datauri'>") ∅
     = lit "<img src='" ++ marker_open ++ lit "photo.jpg " ++ lit ">>>"
         ++ lit " format:datauri'>".
Proof.
  apply (unclosed_token_extracted_not_replaced (lit "<img src='")
           (lit "photo.jpg ") (lit " format:datauri'>") ∅).
  - reflexivity.
  - discriminate.
  - vm_compute. repeat constructor.
  - vm_compute. repeat first [ constructor | discriminate | intro; discriminate ].
  - reflexivity.
Defined.

(** ** HTML names *)

Section NameFacts.

Lemma is_prefix_spec (p s : str) :
  is_prefix p s = true <-> exists rest, s = p ++ rest.
Proof.
  revert s. induction p as [|a p IH]; intros s.
  - split; [intros _; exists s; reflexivity | reflexivity].
  - destruct s as [|b s]; cbn [is_prefix].
    + split; [discriminate | intros [rest H]; discriminate].
    + rewrite andb_true_iff, N.eqb_eq, IH. split.
      * intros [-> [rest ->]]. exists rest. reflexivity.
      * intros [rest H]. injection H as -> ->. split; [reflexivity|].
        exists rest. reflexivity.
Qed.

Lemma endswith_spec (s suffix : str) :
  endswith s suffix = true <-> exists stem, s = stem ++ suffix.
Proof.
  unfold endswith. rewrite is_prefix_spec. split.
  - intros [rest H]. exists (rev rest).
    apply (f_equal (@rev N)) in H.
    rewrite rev_involutive, rev_app_distr, rev_involutive in H. exact H.
  - intros [stem ->]. exists (rev stem). apply rev_app_distr.
Qed.

Lemma lower_suffix (s suffix : str) :
  endswith (lower s) suffix = true <->
  exists stem ext, s = stem ++ ext /\ lower ext = suffix.
Proof.
  rewrite endswith_spec. unfold lower. split.
  - intros [stem' H]. apply List.map_eq_app in H as (stem & ext & -> & _ & Hext).
    exists stem, ext. auto.
  - intros (stem & ext & -> & <-). exists (List.map lower_char stem).
    apply List.map_app.
Qed.

End NameFacts.

(** X11.  The test for an HTML name looks at the end of the name only and
    ignores the case of its letters: a name passes exactly when it ends in
    a text whose lower-case form is [.html] or [.htm]. *)
Theorem is_html_spec (hosted_filename : str) :
  is_html hosted_filename = true <->
  exists stem ext,
    hosted_filename = stem ++ ext
    /\ (lower ext = lit ".html" \/ lower ext = lit ".htm").
Proof.
  unfold is_html. rewrite orb_true_iff, !lower_suffix. split.
  - intros [(stem & ext & H & Hext)|(stem & ext & H & Hext)];
      exists stem, ext; auto.
  - intros (stem & ext & H & [Hext|Hext]); [left | right];
      exists stem, ext; auto.
Qed.

(** ** UTF-8: decoding and encoding are inverse *)

Section Utf8RoundTrip.

Lemma split64 (q r : N) :
  (r < 64)%N -> ((q * 64 + r) / 64 = q /\ (q * 64 + r) mod 64 = r)%N.
Proof.
  intros Hr. split.
  - symmetry. apply (N.div_unique _ 64 q r); lia.
  - symmetry. apply (N.mod_unique _ 64 q r); lia.
Qed.

Lemma div64_parts (c : N) :
  (c = 64 * (c / 64) + c mod 64 /\ c mod 64 < 64)%N.
Proof.
  split; [apply N.div_mod; discriminate | apply N.mod_lt; discriminate].
Qed.

Lemma encode_char_decoded2 (b0 b1 : N) :
  (192 <= b0 < 224)%N -> (128 <= b1 < 192)%N ->
  (128 <= (b0 - 192) * 64 + (b1 - 128))%N ->
  Utf8.encode_char ((b0 - 192) * 64 + (b1 - 128)) = Some [b0; b1].
Proof.
  intros H0 H1 Hmin. unfold Utf8.encode_char.
  destruct (N.ltb_spec ((b0 - 192) * 64 + (b1 - 128)) 128); [lia|].
  destruct (N.ltb_spec ((b0 - 192) * 64 + (b1 - 128)) 2048); [|lia].
  destruct (split64 (b0 - 192) (b1 - 128) ltac:(lia)) as [-> ->].
  repeat (f_equal; try lia).
Qed.

Lemma encode_char_decoded3 (b0 b1 b2 : N) :
  (224 <= b0 < 240)%N -> (128 <= b1 < 192)%N -> (128 <= b2 < 192)%N ->
  (2048 <= (b0 - 224) * 4096 + (b1 - 128) * 64 + (b2 - 128))%N ->
  Utf8.is_surrogate ((b0 - 224) * 4096 + (b1 - 128) * 64 + (b2 - 128)) = false ->
  Utf8.encode_char ((b0 - 224) * 4096 + (b1 - 128) * 64 + (b2 - 128))
  = Some [b0; b1; b2].
Proof.
  intros H0 H1 H2 Hmin Hsur.
  replace ((b0 - 224) * 4096 + (b1 - 128) * 64 + (b2 - 128))%N
    with (((b0 - 224) * 64 + (b1 - 128)) * 64 + (b2 - 128))%N in * by lia.
  unfold Utf8.encode_char. rewrite Hsur.
  destruct (N.ltb_spec (((b0 - 224) * 64 + (b1 - 128)) * 64 + (b2 - 128)) 128);
    [lia|].
  destruct (N.ltb_spec (((b0 - 224) * 64 + (b1 - 128)) * 64 + (b2 - 128)) 2048);
    [lia|].
  destruct (N.ltb_spec (((b0 - 224) * 64 + (b1 - 128)) * 64 + (b2 - 128)) 65536);
    [|lia].
  change 4096%N with (64 * 64)%N. rewrite <- N.Div0.div_div.
  destruct (split64 ((b0 - 224) * 64 + (b1 - 128)) (b2 - 128) ltac:(lia))
    as [-> ->].
  destruct (split64 (b0 - 224) (b1 - 128) ltac:(lia)) as [-> ->].
  repeat (f_equal; try lia).
Qed.

Lemma encode_char_decoded4 (b0 b1 b2 b3 : N) :
  (240 <= b0 < 248)%N -> (128 <= b1 < 192)%N -> (128 <= b2 < 192)%N ->
  (128 <= b3 < 192)%N ->
  (65536 <= (b0 - 240) * 262144 + (b1 - 128) * 4096 + (b2 - 128) * 64
            + (b3 - 128))%N ->
  ((b0 - 240) * 262144 + (b1 - 128) * 4096 + (b2 - 128) * 64 + (b3 - 128)
   <= 1114111)%N ->
  Utf8.encode_char ((b0 - 240) * 262144 + (b1 - 128) * 4096 + (b2 - 128) * 64
                    + (b3 - 128))
  = Some [b0; b1; b2; b3].
Proof.
  intros H0 H1 H2 H3 Hmin Hmax.
  replace ((b0 - 240) * 262144 + (b1 - 128) * 4096 + (b2 - 128) * 64
           + (b3 - 128))%N
    with ((((b0 - 240) * 64 + (b1 - 128)) * 64 + (b2 - 128)) * 64 + (b3 - 128))%N
    in * by lia.
  set (c := ((((b0 - 240) * 64 + (b1 - 128)) * 64 + (b2 - 128)) * 64
            + (b3 - 128))%N) in *.
  unfold Utf8.encode_char.
  destruct (N.ltb_spec c 128); [lia|].
  destruct (N.ltb_spec c 2048); [lia|].
  destruct (N.ltb_spec c 65536); [lia|].
  destruct (N.leb_spec c 1114111); [|lia].
  change 262144%N with (64 * (64 * 64))%N. change 4096%N with (64 * 64)%N.
  rewrite <- !N.Div0.div_div.
  subst c.
  destruct (split64 (((b0 - 240) * 64 + (b1 - 128)) * 64 + (b2 - 128)) (b3 - 128)
              ltac:(lia)) as [-> ->].
  destruct (split64 ((b0 - 240) * 64 + (b1 - 128)) (b2 - 128) ltac:(lia))
    as [-> ->].
  destruct (split64 (b0 - 240) (b1 - 128) ltac:(lia)) as [-> ->].
  repeat (f_equal; try lia).
Qed.

Lemma is_cont_range (b : N) : Utf8.is_cont b = true -> (128 <= b < 192)%N.
Proof.
  unfold Utf8.is_cont. intros H.
  apply andb_prop in H as [Hlo%N.leb_le Hhi%N.ltb_lt]. lia.
Qed.

Lemma encode_decoded_le (n : nat) :
  forall (bs : bytes) (s : str),
    length bs <= n -> Utf8.decode bs = Some s -> Utf8.encode s = Some bs.
Proof.
  induction n as [|n IH]; intros bs s Hlen Hdec.
  - destruct bs; [|cbn in Hlen; lia]. injection Hdec as <-. reflexivity.
  - destruct bs as [|b0 r0]; [injection Hdec as <-; reflexivity|].
    cbn [Utf8.decode] in Hdec. cbn [length] in Hlen.
    destruct (N.ltb_spec b0 128).
    { apply fmap_cons_Some in Hdec as (s' & Hs' & ->).
      cbn [Utf8.encode]. rewrite (IH r0 s') by (lia || exact Hs').
      unfold Utf8.encode_char.
      destruct (N.ltb_spec b0 128); [reflexivity | lia]. }
    destruct ((192 <=? b0)%N && (b0 <? 224)%N) eqn:H2.
    { apply andb_prop in H2 as [Hlo%N.leb_le Hhi%N.ltb_lt].
      destruct r0 as [|b1 r1]; [discriminate|]. cbn [length] in Hlen.
      match type of Hdec with (if ?chk then _ else _) = _ =>
        destruct chk eqn:Hchk; [|discriminate] end.
      apply andb_prop in Hchk as [Hc1%is_cont_range Hmin%N.leb_le].
      apply fmap_cons_Some in Hdec as (s' & Hs' & ->).
      cbn [Utf8.encode]. rewrite (IH r1 s') by (lia || exact Hs').
      rewrite encode_char_decoded2 by lia. reflexivity. }
    destruct ((224 <=? b0)%N && (b0 <? 240)%N) eqn:H3.
    { apply andb_prop in H3 as [Hlo%N.leb_le Hhi%N.ltb_lt].
      destruct r0 as [|b1 [|b2 r2]]; [discriminate..|]. cbn [length] in Hlen.
      match type of Hdec with (if ?chk then _ else _) = _ =>
        destruct chk eqn:Hchk; [|discriminate] end.
      apply andb_prop in Hchk as [Hchk Hsur%negb_true_iff].
      apply andb_prop in Hchk as [Hchk Hmin%N.leb_le].
      apply andb_prop in Hchk as [Hc1%is_cont_range Hc2%is_cont_range].
      apply fmap_cons_Some in Hdec as (s' & Hs' & ->).
      cbn [Utf8.encode]. rewrite (IH r2 s') by (lia || exact Hs').
      rewrite encode_char_decoded3 by (lia || exact Hsur). reflexivity. }
    destruct ((240 <=? b0)%N && (b0 <? 248)%N) eqn:H4; [|discriminate].
    apply andb_prop in H4 as [Hlo%N.leb_le Hhi%N.ltb_lt].
    destruct r0 as [|b1 [|b2 [|b3 r3]]]; [discriminate..|]. cbn [length] in Hlen.
    match type of Hdec with (if ?chk then _ else _) = _ =>
      destruct chk eqn:Hchk; [|discriminate] end.
    apply andb_prop in Hchk as [Hchk Hmax%N.leb_le].
    apply andb_prop in Hchk as [Hchk Hmin%N.leb_le].
    apply andb_prop in Hchk as [Hchk Hc3%is_cont_range].
    apply andb_prop in Hchk as [Hc1%is_cont_range Hc2%is_cont_range].
    apply fmap_cons_Some in Hdec as (s' & Hs' & ->).
    cbn [Utf8.encode]. rewrite (IH r3 s') by (lia || exact Hs').
    rewrite encode_char_decoded4 by lia. reflexivity.
Qed.

Lemma is_cont_intro (r : N) : (r < 64)%N -> Utf8.is_cont (128 + r) = true.
Proof.
  intros Hr. unfold Utf8.is_cont.
  apply andb_true_intro; split; [apply N.leb_le | apply N.ltb_lt]; lia.
Qed.

Lemma lead_byte (lo hi b : N) :
  (lo <= b < hi)%N -> ((lo <=? b) && (b <? hi))%N = true.
Proof.
  intros Hb. apply andb_true_intro; split; [apply N.leb_le | apply N.ltb_lt]; lia.
Qed.

Lemma not_lead_byte (lo hi b : N) :
  (hi <= b)%N -> ((lo <=? b) && (b <? hi))%N = false.
Proof.
  intros Hb. apply andb_false_intro2. apply N.ltb_ge. exact Hb.
Qed.

Lemma decode_encoded_char (c : N) (bc rest : bytes) :
  Utf8.encode_char c = Some bc ->
  Utf8.decode (bc ++ rest) = cons c <$> Utf8.decode rest.
Proof.
  unfold Utf8.encode_char. intros H.
  destruct (N.ltb_spec c 128) as [H1|H1].
  { injection H as <-. cbn [app Utf8.decode].
    destruct (N.ltb_spec c 128); [reflexivity | lia]. }
  destruct (div64_parts c) as [Hc Hr0].
  destruct (N.ltb_spec c 2048) as [H2|H2].
  { injection H as <-.
    set (q0 := (c / 64)%N) in *. set (r0 := (c mod 64)%N) in *.
    cbn [app Utf8.decode].
    replace (192 + q0 <? 128)%N with false by (symmetry; apply N.ltb_ge; lia).
    rewrite (lead_byte 192 224) by lia.
    rewrite is_cont_intro by exact Hr0.
    replace ((192 + q0 - 192) * 64 + (128 + r0 - 128))%N with c by lia.
    replace (128 <=? c)%N with true by (symmetry; apply N.leb_le; lia).
    reflexivity. }
  destruct (div64_parts (c / 64)) as [Hc1 Hr1].
  destruct (N.ltb_spec c 65536) as [H3|H3].
  { destruct (Utf8.is_surrogate c) eqn:Hsur; [discriminate|].
    injection H as <-.
    change 4096%N with (64 * 64)%N. rewrite <- N.Div0.div_div.
    set (q0 := (c / 64)%N) in *. set (r0 := (c mod 64)%N) in *.
    set (q1 := (q0 / 64)%N) in *. set (r1 := (q0 mod 64)%N) in *.
    cbn [app Utf8.decode].
    replace (224 + q1 <? 128)%N with false by (symmetry; apply N.ltb_ge; lia).
    rewrite (not_lead_byte 192 224) by lia.
    rewrite (lead_byte 224 240) by lia.
    rewrite !is_cont_intro by assumption.
    replace ((224 + q1 - 224) * 4096 + (128 + r1 - 128) * 64
             + (128 + r0 - 128))%N with c by lia.
    rewrite Hsur.
    replace (2048 <=? c)%N with true by (symmetry; apply N.leb_le; lia).
    reflexivity. }
  destruct (div64_parts (c / 64 / 64)) as [Hc2 Hr2].
  destruct (N.leb_spec c 1114111) as [H4|H4]; [|discriminate].
  injection H as <-.
  change 262144%N with (64 * (64 * 64))%N. change 4096%N with (64 * 64)%N.
  rewrite <- !N.Div0.div_div.
  set (q0 := (c / 64)%N) in *. set (r0 := (c mod 64)%N) in *.
  set (q1 := (q0 / 64)%N) in *. set (r1 := (q0 mod 64)%N) in *.
  set (q2 := (q1 / 64)%N) in *. set (r2 := (q1 mod 64)%N) in *.
  cbn [app Utf8.decode].
  replace (240 + q2 <? 128)%N with false by (symmetry; apply N.ltb_ge; lia).
  rewrite (not_lead_byte 192 224) by lia.
  rewrite (not_lead_byte 224 240) by lia.
  rewrite (lead_byte 240 248) by lia.
  rewrite !is_cont_intro by assumption.
  replace ((240 + q2 - 240) * 262144 + (128 + r2 - 128) * 4096
           + (128 + r1 - 128) * 64 + (128 + r0 - 128))%N with c by lia.
  replace (65536 <=? c)%N with true by (symmetry; apply N.leb_le; lia).
  replace (c <=? 1114111)%N with true by (symmetry; apply N.leb_le; lia).
  reflexivity.
Qed.

Lemma decode_encoded (s : str) :
  forall bs : bytes, Utf8.encode s = Some bs -> Utf8.decode bs = Some s.
Proof.
  induction s as [|c s IH]; intros bs Henc.
  - injection Henc as <-. reflexivity.
  - cbn [Utf8.encode] in Henc.
    destruct (Utf8.encode_char c) as [bc|] eqn:Hc; [|discriminate].
    destruct (Utf8.encode s) as [bs'|]; [|discriminate].
    injection Henc as <-.
    rewrite (decode_encoded_char c bc bs' Hc), (IH bs' eq_refl). reflexivity.
Qed.

End Utf8RoundTrip.

(** X12.  Decoding and encoding are inverse of each other: bytes decode
    to a text exactly when that text encodes to those bytes.  So the page
    that [host_artifact] decodes at line 278 can always be encoded again
    at line 315 when it is left as it is, and the bytes written are then
    the bytes loaded. *)
Theorem utf8_round_trip (bs : bytes) (s : str) :
  Utf8.decode bs = Some s <-> Utf8.encode s = Some bs.
Proof.
  split.
  - apply (encode_decoded_le (length bs)). reflexivity.
  - apply decode_encoded.
Qed.

(** ** Closed instances of the properties of versions and content *)

Lemma explicit_version_loaded_directly_witness :
  exists r w' rest,
    Fixture.run Fixture.shop (lit "photo.jpg" ++ 58%N :: lit "1") None None
    = (Ok r, w')
    /\ trace w'
       = trace Fixture.initial ++ LoadArtifact (lit "photo.jpg") 1%Z :: rest
    /\ forall msg b ver h url refs,
         r = ToolSuccess msg b ver h url refs ->
         b = lit "photo.jpg" /\ ver = 1%Z.
Proof.
  apply (explicit_version_loaded_directly unit
           (Fixture.list_versions Fixture.shop)
           (Fixture.load_artifact Fixture.shop) Fixture.write_file Fixture.int
           (lit "photo.jpg") (lit "1") 1%Z None Fixture.context None
           Fixture.server Fixture.initial Fixture.invocation None).
  - reflexivity.
  - reflexivity.
  - reflexivity.
  - reflexivity.
  - discriminate.
  - reflexivity.
Defined.

Lemma unreadable_version_rejected_witness :
  Fixture.int (lit "latest")
  = Raise (Exn ValueError
             (lit "invalid literal for int() with base 10: 'latest'"))
  /\ Fixture.run Fixture.shop (lit "photo.jpg" ++ 58%N :: lit "latest") None None
     = (Ok (ToolError
              (lit "An unexpected error occurred: "
                 ++ lit "invalid literal for int() with base 10: 'latest'")),
        Fixture.initial).
Proof.
  split; [reflexivity|].
  apply (unreadable_version_rejected unit
           (Fixture.list_versions Fixture.shop)
           (Fixture.load_artifact Fixture.shop) Fixture.write_file Fixture.int
           (lit "photo.jpg") (lit "latest")
           (Exn ValueError
              (lit "invalid literal for int() with base 10: 'latest'"))
           None Fixture.context None Fixture.server Fixture.initial
           Fixture.invocation None).
  - reflexivity.
  - reflexivity.
  - reflexivity.
  - reflexivity.
  - discriminate.
  - reflexivity.
Defined.

Lemma trailing_colon_means_latest_witness :
  Fixture.run Fixture.shop (lit "photo.jpg" ++ [58%N]) None None
  = Fixture.run Fixture.shop (lit "photo.jpg") None None.
Proof.
  refine (proj1 (trailing_colon_means_latest unit
                   (Fixture.list_versions Fixture.shop)
                   (Fixture.load_artifact Fixture.shop) Fixture.write_file
                   Fixture.int (lit "photo.jpg") None (Some Fixture.context)
                   None (lit "app") (lit "user") (lit "session")
                   Fixture.server None Fixture.initial _)).
  reflexivity.
Defined.

Lemma other_files_hosted_unchanged_witness :
  Fixture.run Fixture.shop (lit "photo.jpg") None None
  = (Ok (ToolSuccess (lit "Artifact hosted successfully") (lit "photo.jpg") 3
           (determine_hosted_filename None (lit "photo.jpg"))
           (get_url Fixture.server
              (determine_hosted_filename None (lit "photo.jpg")) None)
           []),
     after (Fixture.after_fetch (lit "photo.jpg") 3)
       (WriteFile (hosted_path Fixture.server
          (determine_hosted_filename None (lit "photo.jpg"))) [255; 216; 3]%N)
       tt).
Proof.
  apply (other_files_hosted_unchanged unit
           (Fixture.list_versions Fixture.shop)
           (Fixture.load_artifact Fixture.shop) Fixture.write_file Fixture.int
           (lit "photo.jpg") None Fixture.context None Fixture.server
           Fixture.initial Fixture.invocation (lit "photo.jpg") 3%Z
           [255; 216; 3]%N
           (Fixture.after_list (lit "photo.jpg"))
           (Fixture.after_fetch (lit "photo.jpg") 3) tt).
  - reflexivity.
  - reflexivity.
  - reflexivity.
  - vm_compute; reflexivity.
  - vm_compute; reflexivity.
  - vm_compute; reflexivity.
  - reflexivity.
Defined.

Lemma hosted_content_witness :
  exists entries w3 out x4,
    Fixture.run Fixture.shop (lit "gallery.html") None None
    = (Ok (success_result (lit "gallery.html") 0
             (determine_hosted_filename None (lit "gallery.html"))
             (get_url Fixture.server
                (determine_hosted_filename None (lit "gallery.html")) None)
             entries),
       after w3
         (WriteFile (hosted_path Fixture.server
            (determine_hosted_filename None (lit "gallery.html"))) out) x4)
    /\ extends (Fixture.after_fetch (lit "gallery.html") 0) w3
    /\ (entries = [] -> out = Fixture.bytes_of Fixture.gallery)
    /\ (entries <> [] ->
        is_html (determine_hosted_filename None (lit "gallery.html")) = true
        /\ exists html_content (fmap : gmap str str),
             Utf8.decode (Fixture.bytes_of Fixture.gallery) = Some html_content
             /\ sublist (List.map ref_filename entries)
                  (_extract_artifact_references html_content)
             /\ (forall k, fmap !! k = hosted_name_of entries k)
             /\ Utf8.encode (_replace_artifact_references html_content fmap)
                = Some out).
Proof.
  apply (hosted_content unit
           (Fixture.list_versions Fixture.shop)
           (Fixture.load_artifact Fixture.shop) Fixture.write_file Fixture.int
           (lit "gallery.html") None Fixture.context None Fixture.server
           Fixture.initial Fixture.invocation (lit "gallery.html") 0%Z
           (Fixture.bytes_of Fixture.gallery)
           (Fixture.after_list (lit "gallery.html"))
           (Fixture.after_fetch (lit "gallery.html") 0)).
  - reflexivity.
  - reflexivity.
  - reflexivity.
  - vm_compute; reflexivity.
  - vm_compute; reflexivity.
  - intros content x. exists x. reflexivity.
Defined.


(** ** Sequences of [start()] and [stop()] *)

Section ServerCalls.

Lemma running_stop (st : Server.state) :
  Server.running (Server.stop st) = Server.running st.
Proof. reflexivity. Qed.

Lemma threads_start (st : Server.state) :
  Server.threads (Server.start st)
  = if Server.running st then Server.threads st else Server.threads st ++ [true].
Proof. unfold Server.start. destruct (Server.running st); reflexivity. Qed.

Lemma threads_calls (ms : list Server.method) :
  forall st : Server.state,
    Server.threads (Server.calls ms st)
    = (if Server.running st || negb (existsb Server.is_start ms)
       then Server.threads st else Server.threads st ++ [true])
    /\ Server.running (Server.calls ms st)
       = Server.running st || existsb Server.is_start ms.
Proof.
  induction ms as [|m ms IH]; intros st.
  - cbn [Server.calls fold_left existsb negb]. rewrite !orb_true_r, orb_false_r.
    split; reflexivity.
  - change (Server.calls (m :: ms) st)
      with (Server.calls ms (Server.invoke st m)).
    destruct (IH (Server.invoke st m)) as [Hthreads Hrunning].
    rewrite Hthreads, Hrunning. destruct m; cbn [Server.invoke existsb Server.is_start].
    + rewrite running_start, threads_start. cbn [orb negb].
      rewrite orb_false_r, orb_true_r. split; reflexivity.
    + rewrite running_stop. cbn [orb]. split; reflexivity.
Qed.

End ServerCalls.

(** X13.  [stop()] ends no thread, and the object creates at most one
    thread however often [start()] and [stop()] are called on it, in any
    order: the threads after the calls are those before them, with one
    more, alive, exactly when the server was not running and [start()] is
    among the calls.  In particular [stop()] followed by [start()] on a
    running server leaves the one listener there was. *)
Theorem start_stop_calls (ms : list Server.method) (st : Server.state) :
  Server.threads (Server.calls ms st)
  = (if Server.running st || negb (existsb Server.is_start ms)
     then Server.threads st else Server.threads st ++ [true])
  /\ Server.running (Server.calls ms st)
     = Server.running st || existsb Server.is_start ms
  /\ Server.listeners (Server.calls ms st)
     = Server.listeners st
       + (if Server.running st || negb (existsb Server.is_start ms)
          then 0 else 1).
Proof.
  destruct (threads_calls ms st) as [Hthreads Hrunning].
  split; [exact Hthreads|]. split; [exact Hrunning|].
  unfold Server.listeners. rewrite Hthreads.
  destruct (Server.running st || negb (existsb Server.is_start ms)).
  - lia.
  - apply listeners_app.
Qed.

(** ** The directory listing *)

Section ListingFacts.

Lemma str_ltb_asym (a : str) :
  forall b : str, Listing.str_ltb a b = true -> Listing.str_ltb b a = false.
Proof.
  induction a as [|x a IH]; intros [|y b] H; cbn [Listing.str_ltb] in *;
    try reflexivity; try discriminate.
  destruct (N.ltb_spec x y), (N.ltb_spec y x), (N.eqb_spec x y),
    (N.eqb_spec y x); cbn [orb andb] in *;
    try lia; try reflexivity; try discriminate.
  apply IH. exact H.
Qed.

Lemma str_ltb_trans (a : str) :
  forall b c : str,
    Listing.str_ltb a b = true -> Listing.str_ltb b c = true ->
    Listing.str_ltb a c = true.
Proof.
  induction a as [|x a IH]; intros [|y b] [|z c] Hab Hbc;
    cbn [Listing.str_ltb] in *; try reflexivity; try discriminate.
  destruct (N.ltb_spec x y), (N.ltb_spec y z), (N.ltb_spec x z),
    (N.eqb_spec x y), (N.eqb_spec y z), (N.eqb_spec x z);
    cbn [orb andb] in *; try lia; try reflexivity; try discriminate.
  apply (IH b c); assumption.
Qed.

Lemma str_ltb_total (a : str) :
  forall b : str,
    Listing.str_ltb a b = false -> Listing.str_ltb b a = false -> a = b.
Proof.
  induction a as [|x a IH]; intros [|y b] Hab Hba;
    cbn [Listing.str_ltb] in *; try reflexivity; try discriminate.
  destruct (N.ltb_spec x y), (N.ltb_spec y x), (N.eqb_spec x y),
    (N.eqb_spec y x); cbn [orb andb] in *;
    try lia; try discriminate.
  subst y. f_equal. apply IH; assumption.
Qed.

(** [a <= b] on names, as [not (b < a)]. *)
Lemma str_le_trans (a b c : str) :
  Listing.str_ltb b a = false -> Listing.str_ltb c b = false ->
  Listing.str_ltb c a = false.
Proof.
  intros Hab Hbc. destruct (Listing.str_ltb c a) eqn:Hca; [|reflexivity].
  destruct (Listing.str_ltb a b) eqn:Hab'.
  - rewrite (str_ltb_trans c a b Hca Hab') in Hbc. discriminate.
  - rewrite (str_ltb_total a b Hab' Hab) in Hca. congruence.
Qed.

Local Abbreviation entry_le :=
  (fun a b : Listing.dir_entry =>
     Listing.str_ltb (Listing.entry_name b) (Listing.entry_name a) = false).

Lemma insert_Permutation (e : Listing.dir_entry) (l : list Listing.dir_entry) :
  Permutation (Listing.insert e l) (e :: l).
Proof.
  induction l as [|y l IH]; cbn [Listing.insert]; [reflexivity|].
  destruct (Listing.str_ltb _ _); [|reflexivity].
  rewrite IH. apply perm_swap.
Qed.

Lemma sorted_Permutation (l : list Listing.dir_entry) :
  Permutation (Listing.sorted l) l.
Proof.
  induction l as [|e l IH]; cbn [Listing.sorted]; [reflexivity|].
  rewrite insert_Permutation, IH. reflexivity.
Qed.

Lemma insert_StronglySorted (e : Listing.dir_entry) (l : list Listing.dir_entry) :
  StronglySorted entry_le l -> StronglySorted entry_le (Listing.insert e l).
Proof.
  induction 1 as [|y l Hl IH Hy]; cbn [Listing.insert].
  - constructor; constructor.
  - destruct (Listing.str_ltb (Listing.entry_name y) (Listing.entry_name e))
      eqn:Hye.
    + constructor; [exact IH|].
      apply (Permutation_Forall (Permutation_sym (insert_Permutation e l))).
      constructor; [|exact Hy]. apply str_ltb_asym. exact Hye.
    + constructor; [constructor; assumption|].
      constructor; [exact Hye|].
      apply (List.Forall_impl _ (P := entry_le y)); [|exact Hy].
      intros z Hz. cbv beta in *.
      apply (str_le_trans _ (Listing.entry_name y)); assumption.
Qed.

Lemma sorted_StronglySorted (l : list Listing.dir_entry) :
  StronglySorted entry_le (Listing.sorted l).
Proof.
  induction l as [|e l IH]; cbn [Listing.sorted]; [constructor|].
  apply insert_StronglySorted. exact IH.
Qed.

Lemma filter_StronglySorted {A} (R : A -> A -> Prop) (f : A -> bool) (l : list A) :
  StronglySorted R l -> StronglySorted R (List.filter f l).
Proof.
  induction 1 as [|y l Hl IH Hy]; cbn [List.filter]; [constructor|].
  destruct (f y); [|exact IH].
  constructor; [exact IH|].
  rewrite List.Forall_forall in *. intros z Hz.
  apply List.filter_In in Hz as [Hz _]. exact (Hy z Hz).
Qed.

Lemma filter_Permutation_list {A} (f : A -> bool) (l l' : list A) :
  Permutation l l' -> Permutation (List.filter f l) (List.filter f l').
Proof.
  induction 1 as [|x l l' _ IH|x y l|l l' l'' _ IH1 _ IH2];
    cbn [List.filter].
  - reflexivity.
  - destruct (f x); [apply perm_skip|]; exact IH.
  - destruct (f x), (f y); try reflexivity. apply perm_swap.
  - exact (perm_trans IH1 IH2).
Qed.

Lemma rows_StronglySorted (l : list Listing.dir_entry) :
  StronglySorted entry_le l ->
  StronglySorted
    (fun a b : Listing.file_row =>
       Listing.str_ltb (Listing.row_name b) (Listing.row_name a) = false)
    (List.map Listing.row_of l).
Proof.
  induction 1 as [|y l Hl IH Hy]; cbn [List.map]; [constructor|].
  constructor; [exact IH|].
  rewrite List.Forall_forall in *. intros r Hr.
  apply List.in_map_iff in Hr as (z & <- & Hz). exact (Hy z Hz).
Qed.

Lemma same_name_same_entry (l : list Listing.dir_entry) :
  List.NoDup (List.map Listing.entry_name l) ->
  forall a b,
    List.In a l -> List.In b l ->
    Listing.entry_name a = Listing.entry_name b -> a = b.
Proof.
  induction l as [|e l IH]; intros Hnd a b Ha Hb Hname; [destruct Ha|].
  cbn [List.map] in Hnd. apply List.NoDup_cons_iff in Hnd as [Hnotin Hnd].
  destruct Ha as [<-|Ha], Hb as [<-|Hb].
  - reflexivity.
  - destruct Hnotin. rewrite Hname. apply List.in_map. exact Hb.
  - destruct Hnotin. rewrite <- Hname. apply List.in_map. exact Ha.
  - exact (IH Hnd a b Ha Hb Hname).
Qed.

Lemma sorted_unique (l l' : list Listing.dir_entry) :
  Permutation l l' ->
  List.NoDup (List.map Listing.entry_name l) ->
  Listing.sorted l = Listing.sorted l'.
Proof.
  intros Hperm Hnd.
  apply (StronglySorted_unique_strong entry_le).
  - intros a b Ha Hb Hab Hba. cbv beta in *.
    apply (same_name_same_entry l Hnd).
    + apply list_elem_of_In in Ha.
      exact (Permutation_in _ (sorted_Permutation l) Ha).
    + apply list_elem_of_In in Hb.
      apply (Permutation_in _ (sorted_Permutation l')) in Hb.
      exact (Permutation_in _ (Permutation_sym Hperm) Hb).
    + apply str_ltb_total; assumption.
  - apply sorted_StronglySorted.
  - apply sorted_StronglySorted.
  - rewrite !sorted_Permutation. exact Hperm.
Qed.

End ListingFacts.

(** X14.  The listing shows the regular files of the directory, each
    once and with the size column of its own size, in ascending order of
    their names; subdirectories are left out, and a directory that does
    not exist gives the empty listing. *)
Theorem index_files_spec (entries : list Listing.dir_entry) :
  Listing.index_files false entries = []
  /\ Permutation (Listing.index_files true entries)
       (List.map Listing.row_of (List.filter Listing.is_file entries))
  /\ StronglySorted
       (fun a b : Listing.file_row =>
          Listing.str_ltb (Listing.row_name b) (Listing.row_name a) = false)
       (Listing.index_files true entries)
  /\ Forall (fun r => Listing.row_size_display r
                      = SizeDisplay.size_display (Listing.row_size_bytes r))
       (Listing.index_files true entries).
Proof.
  split; [reflexivity|]. unfold Listing.index_files. split; [|split].
  - apply Permutation_map, filter_Permutation_list, sorted_Permutation.
  - apply rows_StronglySorted, filter_StronglySorted, sorted_StronglySorted.
  - rewrite List.Forall_forall. intros r Hr.
    apply List.in_map_iff in Hr as (e & <- & _). reflexivity.
Qed.

(** X15.  The listing does not depend on the order in which the file
    system yields the entries of the directory (their names being
    distinct, as the names of one directory are). *)
Theorem index_files_order_independent
    (dir_exists : bool) (entries entries' : list Listing.dir_entry) :
  Permutation entries entries' ->
  List.NoDup (List.map Listing.entry_name entries) ->
  Listing.index_files dir_exists entries
  = Listing.index_files dir_exists entries'.
Proof.
  intros Hperm Hnd. unfold Listing.index_files.
  rewrite (sorted_unique entries entries' Hperm Hnd). reflexivity.
Qed.

Lemma index_files_order_independent_witness :
  Listing.index_files true Deployment.entries
  = Listing.index_files true (List.rev Deployment.entries).
Proof.
  apply index_files_order_independent.
  - apply Permutation_rev.
  - repeat constructor; cbn; intros H;
      repeat (destruct H as [H|H]; [discriminate H|]); exact H.
Defined.

(** ** The lifecycle of the agent *)

Section LifecycleFacts.

Context (X : Type).
Context (svc_list_versions :
           forall (app user session filename : str), X -> outcome (list Z) * X).
Context (svc_load_artifact :
           forall (app user session filename : str) (version : Z),
             X -> outcome (option Part) * X).
Context (os_write_file :
           forall (path : str) (content : bytes), X -> outcome unit * X).
Context (py_int : str -> outcome Z).
Context (os_mkdir : str -> X -> outcome unit * X).
Context (cwd : PosixPath.path).

Local Abbreviation tool :=
  (host_artifact X svc_list_versions svc_load_artifact os_write_file py_int).
Local Abbreviation init := (Lifecycle.init_function os_mkdir cwd).
Local Abbreviation served := (Lifecycle.host_dir_path cwd).

(** The server object that [init_function] makes and registers. *)
Lemma init_ok (config : option Lifecycle.Config) (p : Lifecycle.process X) u x' :
  os_mkdir (PosixPath.to_str (served config)) (outside (Lifecycle.tools p))
  = (Ok u, x') ->
  exists lg,
    init config p
    = (Ok tt,
       {| Lifecycle.tools :=
            {| outside := x';
               _web_server_instance :=
                 Some {| host_directory := PosixPath.to_str (served config);
                         port := Lifecycle.get config Lifecycle.config_port 8080%Z;
                         host := Lifecycle.get config Lifecycle.config_host
                                   (lit "127.0.0.1");
                         server_thread := Some (length (Lifecycle.threads p)) |};
               trace := trace (Lifecycle.tools p) |};
          Lifecycle.threads := Lifecycle.threads p ++ [true];
          Lifecycle.log := Lifecycle.log p ++ lg |})
    /\ Forall (fun record => fst record = INFO) lg.
Proof.
  intros Hmk.
  unfold Lifecycle.init_function, Lifecycle.__init__, Lifecycle.logged.
  cbn [Lifecycle.tools Lifecycle.threads Lifecycle.log].
  rewrite Hmk.
  unfold Lifecycle.started, Server.start, Server.running.
  cbn [Server.self Server.threads Server.log server_thread host_directory port
       host Lifecycle.logged Lifecycle.set_web_server Lifecycle.tools
       Lifecycle.threads Lifecycle.log outside trace fst snd].
  destruct (truthy _);
    unfold Lifecycle.logged, Lifecycle.set_web_server;
    cbn [Lifecycle.tools Lifecycle.threads Lifecycle.log outside trace];
    rewrite <- !app_assoc; eexists; (split; [reflexivity|]);
    repeat constructor.
Qed.

Lemma init_raise (config : option Lifecycle.Config) (p : Lifecycle.process X) e x' :
  os_mkdir (PosixPath.to_str (served config)) (outside (Lifecycle.tools p))
  = (Raise e, x') ->
  exists lg,
    init config p
    = (Raise e,
       {| Lifecycle.tools :=
            {| outside := x';
               _web_server_instance := _web_server_instance (Lifecycle.tools p);
               trace := trace (Lifecycle.tools p) |};
          Lifecycle.threads := Lifecycle.threads p;
          Lifecycle.log :=
            Lifecycle.log p ++ lg
              ++ [(ERROR, lit "[ArtifactHost:init] Failed to start web server: "
                            ++ exn_str e)] |}).
Proof.
  intros Hmk.
  unfold Lifecycle.init_function, Lifecycle.__init__, Lifecycle.logged.
  cbn [Lifecycle.tools Lifecycle.threads Lifecycle.log].
  rewrite Hmk. unfold Lifecycle.logged.
  cbn [Lifecycle.tools Lifecycle.threads Lifecycle.log].
  rewrite <- !app_assoc. eexists [_; _]. reflexivity.
Qed.

Lemma init_ok_inv (config : option Lifecycle.Config) (p p' : Lifecycle.process X) :
  init config p = (Ok tt, p') ->
  exists u x', os_mkdir (PosixPath.to_str (served config))
                 (outside (Lifecycle.tools p)) = (Ok u, x').
Proof.
  intros Hinit.
  destruct (os_mkdir (PosixPath.to_str (served config))
              (outside (Lifecycle.tools p))) as [[u|e] x'] eqn:Hmk.
  - exists u, x'. reflexivity.
  - destruct (init_raise config p e x' Hmk) as [lg Hraise]. congruence.
Qed.

Lemma cleanup_eq (p : Lifecycle.process X) :
  exists lg,
    Lifecycle.cleanup_function p
    = (Ok tt,
       {| Lifecycle.tools := Lifecycle.tools p;
          Lifecycle.threads := Lifecycle.threads p;
          Lifecycle.log := Lifecycle.log p ++ lg |}).
Proof.
  unfold Lifecycle.cleanup_function, Lifecycle.logged.
  cbn [Lifecycle.tools Lifecycle.threads Lifecycle.log].
  destruct (_web_server_instance (Lifecycle.tools p)).
  - unfold Lifecycle.stopped, Server.stop.
    cbn [Lifecycle.tools Lifecycle.threads Lifecycle.log Server.threads
         Server.log].
    rewrite <- !app_assoc. eexists. reflexivity.
  - rewrite <- !app_assoc. eexists. reflexivity.
Qed.

(** X16.  When the directory can be made, [init_function] returns and
    registers a new server object: it serves the configured directory,
    its URLs are [http://host:port/filename] with the configured host and
    port ([127.0.0.1] and [8080] where the configuration has none), and it
    runs on a thread created by this call, whatever server was registered
    or running before.  Nothing is fetched or written. *)
Theorem init_function_registers_server
    (config : option Lifecycle.Config) (p : Lifecycle.process X) u x' :
  os_mkdir (PosixPath.to_str (served config)) (outside (Lifecycle.tools p))
  = (Ok u, x') ->
  exists server p',
    init config p = (Ok tt, p')
    /\ _web_server_instance (Lifecycle.tools p') = Some server
    /\ host_directory server = PosixPath.to_str (served config)
    /\ (forall filename,
          get_url server filename None
          = lit "http://"
              ++ Lifecycle.get config Lifecycle.config_host (lit "127.0.0.1")
              ++ lit ":"
              ++ of_int (Lifecycle.get config Lifecycle.config_port 8080%Z)
              ++ lit "/" ++ filename)
    /\ server_thread server = Some (length (Lifecycle.threads p))
    /\ Lifecycle.threads p' = Lifecycle.threads p ++ [true]
    /\ trace (Lifecycle.tools p') = trace (Lifecycle.tools p)
    /\ Forall (fun record => fst record <> WARNING /\ fst record <> ERROR)
         (drop (length (Lifecycle.log p)) (Lifecycle.log p')).
Proof.
  intros Hmk. destruct (init_ok config p u x' Hmk) as (lg & Hinit & Hlg).
  eexists _, _. split; [exact Hinit|].
  cbn [Lifecycle.tools Lifecycle.threads Lifecycle.log _web_server_instance
       trace host_directory server_thread].
  repeat (split; [reflexivity|]).
  rewrite drop_app_length.
  apply (List.Forall_impl _ (P := fun record => fst record = INFO));
    [|exact Hlg].
  intros record ->. split; discriminate.
Qed.

(** X17.  The directory that is served is an absolute path whenever the
    working directory is one, and without a [host_directory] in the
    configuration it is [hosted_files] under the working directory. *)
Theorem host_directory_absolute (config : option Lifecycle.Config) :
  PosixPath.is_absolute cwd = true ->
  PosixPath.is_absolute (served config) = true
  /\ (Lifecycle.get config Lifecycle.config_host_directory (lit "./hosted_files")
      = lit "./hosted_files" ->
      PosixPath.to_str (served config)
      = PosixPath.root cwd
          ++ PosixPath.join (lit "/") (PosixPath.parts cwd ++ [lit "hosted_files"])).
Proof.
  intros Hcwd. unfold Lifecycle.host_dir_path. split.
  - destruct (PosixPath.is_absolute (PosixPath.parse _)) eqn:Habs;
      [exact Habs|].
    unfold PosixPath.joinpath. rewrite Habs. exact Hcwd.
  - intros ->.
    change (PosixPath.parse (lit "./hosted_files"))
      with {| PosixPath.root := []; PosixPath.parts := [lit "hosted_files"] |}.
    change (PosixPath.is_absolute
              {| PosixPath.root := [];
                 PosixPath.parts := [lit "hosted_files"] |}) with false.
    cbv iota. unfold PosixPath.joinpath.
    change (PosixPath.is_absolute
              {| PosixPath.root := [];
                 PosixPath.parts := [lit "hosted_files"] |}) with false.
    cbv iota. unfold PosixPath.to_str. cbn [PosixPath.root PosixPath.parts].
    destruct (PosixPath.root cwd) as [|c r] eqn:Hroot.
    + unfold PosixPath.is_absolute in Hcwd. rewrite Hroot in Hcwd.
      discriminate Hcwd.
    + reflexivity.
Qed.

(** X18.  When the directory cannot be made, [init_function] logs the
    failure and raises the same exception; no thread is started and no
    server is registered, so that on a process that had none
    [host_artifact] answers that the web server is not running. *)
Theorem init_function_failure
    (config : option Lifecycle.Config) (p : Lifecycle.process X) e x'
    name custom ctx cfg :
  os_mkdir (PosixPath.to_str (served config)) (outside (Lifecycle.tools p))
  = (Raise e, x') ->
  _web_server_instance (Lifecycle.tools p) = None ->
  exists p',
    init config p = (Raise e, p')
    /\ Lifecycle.threads p' = Lifecycle.threads p
    /\ trace (Lifecycle.tools p') = trace (Lifecycle.tools p)
    /\ List.last (Lifecycle.log p') (INFO, [])
       = (ERROR, lit "[ArtifactHost:init] Failed to start web server: "
                   ++ exn_str e)
    /\ tool name custom (Some ctx) cfg (Lifecycle.tools p')
       = (Ok (ToolError
                (lit "Web server is not running. Please check agent configuration.")),
          Lifecycle.tools p').
Proof.
  intros Hmk Hnone. destruct (init_raise config p e x' Hmk) as (lg & Hinit).
  eexists. split; [exact Hinit|].
  cbn [Lifecycle.tools Lifecycle.threads Lifecycle.log trace].
  split; [reflexivity|]. split; [reflexivity|]. split.
  - rewrite !app_assoc. apply List.last_last.
  - unfold host_artifact, get_web_server, Eff.bind, ret.
    cbn [_web_server_instance]. rewrite Hnone. reflexivity.
Qed.

(** X19.  After [init_function] has returned, a call of [host_artifact]
    without a tool configuration that succeeds reports the URL
    [http://host:port/name] of the host and port the server was
    configured with, also when the configuration of the agent has a
    [base_url] (which [init_function] only logs), and its last outside
    call is the write at the path [host_directory / name], where
    [host_directory] is the directory [init_function] resolved. *)
Theorem hosted_url_after_init
    (config : option Lifecycle.Config) (p p' : Lifecycle.process X)
    name custom ctx msg base ver hosted url refs w' :
  init config p = (Ok tt, p') ->
  tool name custom (Some ctx) None (Lifecycle.tools p')
  = (Ok (ToolSuccess msg base ver hosted url refs), w') ->
  url = lit "http://"
          ++ Lifecycle.get config Lifecycle.config_host (lit "127.0.0.1")
          ++ lit ":"
          ++ of_int (Lifecycle.get config Lifecycle.config_port 8080%Z)
          ++ lit "/" ++ hosted
  /\ exists server content,
       _web_server_instance (Lifecycle.tools p') = Some server
       /\ host_directory server = PosixPath.to_str (served config)
       /\ List.last (trace w') (ListVersions [])
          = WriteFile (hosted_path server hosted) content.
Proof.
  intros Hinit Htool.
  destruct (init_ok_inv config p p' Hinit) as (u & x' & Hmk).
  destruct (init_ok config p u x' Hmk) as (lg & Hinit' & _).
  rewrite Hinit in Hinit'. injection Hinit' as ->.
  apply host_success_inv in Htool
    as (server & ic & w1 & loaded & w2 & final & w3 & Hreg & _ & _ & _ & _
        & _ & _ & Hwrite & _ & ->).
  cbn [Lifecycle.tools _web_server_instance] in Hreg.
  injection Hreg as <-. split; [reflexivity|].
  apply write_ok_inv in Hwrite. rewrite Hwrite.
  eexists _, (artifact_bytes final). split; [reflexivity|].
  split; [reflexivity|]. apply List.last_last.
Qed.

Lemma hooks_snoc (hs : list (Lifecycle.hook)) (h : Lifecycle.hook)
    (p : Lifecycle.process X) :
  Lifecycle.hooks os_mkdir cwd (hs ++ [h]) p
  = Lifecycle.hook_call os_mkdir cwd (Lifecycle.hooks os_mkdir cwd hs p) h.
Proof. unfold Lifecycle.hooks. rewrite List.fold_left_app. reflexivity. Qed.

(** X20.  Through any sequence of [init_function] and [cleanup_function]
    calls (the directories being ones that can be made) no thread is
    ended and every [init_function] starts one more: [cleanup_function]
    stops and unregisters nothing, and the guard of [start()] never
    holds [init_function] back, since each call makes a server object of
    its own.  The registered server is the one of the last
    [init_function], running on the thread created last. *)
Theorem hooks_threads (hs : list Lifecycle.hook) (p : Lifecycle.process X) :
  (forall directory x, exists u x', os_mkdir directory x = (Ok u, x')) ->
  Lifecycle.threads (Lifecycle.hooks os_mkdir cwd hs p)
  = Lifecycle.threads p
      ++ repeat true (length (List.filter Lifecycle.is_init hs))
  /\ trace (Lifecycle.tools (Lifecycle.hooks os_mkdir cwd hs p))
     = trace (Lifecycle.tools p)
  /\ (existsb Lifecycle.is_init hs = false ->
      _web_server_instance (Lifecycle.tools (Lifecycle.hooks os_mkdir cwd hs p))
      = _web_server_instance (Lifecycle.tools p))
  /\ (existsb Lifecycle.is_init hs = true ->
      exists server,
        _web_server_instance (Lifecycle.tools (Lifecycle.hooks os_mkdir cwd hs p))
        = Some server
        /\ server_thread server
           = Some (length (Lifecycle.threads p)
                   + length (List.filter Lifecycle.is_init hs) - 1)).
Proof.
  intros Hmkdir. induction hs as [|h hs IH] using rev_ind.
  - cbn. rewrite app_nil_r. repeat split; [discriminate].
  - destruct IH as (Hthreads & Htrace & Hsame & Hlast).
    rewrite hooks_snoc, List.filter_app, length_app, List.existsb_app.
    set (q := Lifecycle.hooks os_mkdir cwd hs p) in *.
    destruct h as [config|]; cbn [Lifecycle.hook_call List.filter
      Lifecycle.is_init existsb length orb].
    + destruct (Hmkdir (PosixPath.to_str (served config))
                  (outside (Lifecycle.tools q))) as (u & x' & Hmk).
      destruct (init_ok config q u x' Hmk) as (lg & -> & _).
      cbn [snd Lifecycle.threads Lifecycle.tools trace _web_server_instance].
      rewrite Hthreads, repeat_app, app_assoc, orb_true_r.
      split; [reflexivity|]. split; [exact Htrace|].
      split; [discriminate|]. intros _. eexists. split; [reflexivity|].
      cbn [server_thread]. rewrite length_app, repeat_length. f_equal. lia.
    + destruct (cleanup_eq q) as (lg & ->).
      cbn [snd Lifecycle.threads Lifecycle.tools].
      rewrite Hthreads, Nat.add_0_r, orb_false_r.
      split; [reflexivity|]. split; [exact Htrace|].
      split; [exact Hsame | exact Hlast].
Qed.

End LifecycleFacts.

(** *** Closed instances *)

Lemma init_function_registers_server_witness :
  exists server p',
    Lifecycle.init_function Deployment.mkdir Deployment.cwd
      (Some Deployment.proxied) Deployment.fresh = (Ok tt, p')
    /\ _web_server_instance (Lifecycle.tools p') = Some server
    /\ host_directory server = lit "/srv/files"
    /\ get_url server (lit "photo.jpg") None = lit "http://0.0.0.0:9000/photo.jpg"
    /\ Lifecycle.threads p' = [true].
Proof.
  destruct (init_function_registers_server unit Deployment.mkdir Deployment.cwd
              (Some Deployment.proxied) Deployment.fresh tt tt eq_refl)
    as (server & p' & Hinit & Hreg & Hdir & Hurl & _ & Hthreads & _).
  exists server, p'.
  split; [exact Hinit|]. split; [exact Hreg|]. split; [exact Hdir|].
  split; [exact (Hurl (lit "photo.jpg")) | exact Hthreads].
Defined.

Lemma host_directory_absolute_witness :
  PosixPath.to_str (Lifecycle.host_dir_path Deployment.cwd None)
  = lit "/opt/agent/hosted_files".
Proof.
  refine (proj2 (host_directory_absolute Deployment.cwd None _) _);
    reflexivity.
Defined.

Lemma init_function_failure_witness :
  exists p',
    Lifecycle.init_function Deployment.read_only Deployment.cwd None
      Deployment.fresh
    = (Raise (Exn OtherException (lit "[Errno 30] Read-only file system")), p')
    /\ Lifecycle.threads p' = []
    /\ fst (host_artifact unit (Fixture.list_versions Fixture.shop)
              (Fixture.load_artifact Fixture.shop) Fixture.write_file
              Fixture.int (lit "photo.jpg") None (Some Fixture.context) None
              (Lifecycle.tools p'))
       = Ok (ToolError
               (lit "Web server is not running. Please check agent configuration.")).
Proof.
  destruct (init_function_failure unit (Fixture.list_versions Fixture.shop)
              (Fixture.load_artifact Fixture.shop) Fixture.write_file
              Fixture.int Deployment.read_only Deployment.cwd None
              Deployment.fresh
              (Exn OtherException (lit "[Errno 30] Read-only file system")) tt
              (lit "photo.jpg") None Fixture.context None eq_refl eq_refl)
    as (p' & Hinit & Hthreads & _ & _ & Htool).
  exists p'. split; [exact Hinit|]. split; [exact Hthreads|].
  rewrite Htool. reflexivity.
Defined.

Lemma hosted_url_after_init_witness :
  lit "http://0.0.0.0:9000/photo.jpg"
  = lit "http://" ++ lit "0.0.0.0" ++ lit ":" ++ of_int 9000 ++ lit "/"
      ++ lit "photo.jpg"
  /\ exists server content,
       _web_server_instance
         (Lifecycle.tools
            (snd (Lifecycle.init_function Deployment.mkdir Deployment.cwd
                    (Some Deployment.proxied) Deployment.fresh)))
       = Some server
       /\ host_directory server = lit "/srv/files"
       /\ List.last
            (trace
               (snd (host_artifact unit (Fixture.list_versions Fixture.shop)
                       (Fixture.load_artifact Fixture.shop) Fixture.write_file
                       Fixture.int (lit "photo.jpg") None (Some Fixture.context)
                       None
                       (Lifecycle.tools
                          (snd (Lifecycle.init_function Deployment.mkdir
                                  Deployment.cwd (Some Deployment.proxied)
                                  Deployment.fresh))))))
            (ListVersions [])
          = WriteFile (hosted_path server (lit "photo.jpg")) content.
Proof.
  apply (hosted_url_after_init unit (Fixture.list_versions Fixture.shop)
           (Fixture.load_artifact Fixture.shop) Fixture.write_file Fixture.int
           Deployment.mkdir Deployment.cwd (Some Deployment.proxied)
           Deployment.fresh
           (snd (Lifecycle.init_function Deployment.mkdir Deployment.cwd
                   (Some Deployment.proxied) Deployment.fresh))
           (lit "photo.jpg") None Fixture.context
           (lit "Artifact hosted successfully") (lit "photo.jpg") 3%Z
           (lit "photo.jpg") (lit "http://0.0.0.0:9000/photo.jpg") []).
  - vm_compute; reflexivity.
  - vm_compute; reflexivity.
Defined.

Lemma hooks_threads_witness :
  Lifecycle.threads
    (Lifecycle.hooks Deployment.mkdir Deployment.cwd
       [Lifecycle.Init None; Lifecycle.Cleanup;
        Lifecycle.Init (Some Deployment.proxied)] Deployment.fresh)
  = [true; true].
Proof.
  refine (proj1 (hooks_threads unit Deployment.mkdir Deployment.cwd
                   [Lifecycle.Init None; Lifecycle.Cleanup;
                    Lifecycle.Init (Some Deployment.proxied)]
                   Deployment.fresh _)).
  intros directory x. exists tt, x. reflexivity.
Defined.

Lemma host_single_copies_witness :
  exists listing loaded w1 w2,
    load_bytes unit (Fixture.load_artifact Fixture.shop) (lit "gallery.html") 0
      (lit "app") (lit "user") (lit "session") w1 = (Ok loaded, w2)
    /\ (listing = [] \/ listing = [ListVersions (lit "gallery.html")])
    /\ trace
         (snd (_host_single_artifact unit (Fixture.list_versions Fixture.shop)
                 (Fixture.load_artifact Fixture.shop) Fixture.write_file
                 Fixture.int (lit "gallery.html") None (lit "app") (lit "user")
                 (lit "session") Fixture.server None Fixture.initial))
       = trace Fixture.initial ++ listing
           ++ [LoadArtifact (lit "gallery.html") 0;
               WriteFile (hosted_path Fixture.server (lit "gallery.html"))
                 loaded].
Proof.
  apply (host_single_copies unit (Fixture.list_versions Fixture.shop)
           (Fixture.load_artifact Fixture.shop) Fixture.write_file Fixture.int
           (lit "gallery.html") None (lit "app") (lit "user") (lit "session")
           Fixture.server None Fixture.initial
           (snd (_host_single_artifact unit (Fixture.list_versions Fixture.shop)
                   (Fixture.load_artifact Fixture.shop) Fixture.write_file
                   Fixture.int (lit "gallery.html") None (lit "app") (lit "user")
                   (lit "session") Fixture.server None Fixture.initial))
           (lit "gallery.html") 0%Z (lit "gallery.html")
           (lit "http://127.0.0.1:8080/gallery.html")).
  vm_compute; reflexivity.
Defined.

(** ** The names that are extracted, for any text *)

Section ExtractedNames.

Lemma match_extract_group (s m g : str) :
  Re.match_at extract_pattern s = Some (m, g) ->
  Forall (fun c => name_char c = true) g.
Proof.
  unfold Re.match_at, extract_pattern. cbn [Re.run].
  destruct (Re.literal marker_open s) as [rest|]; [|discriminate].
  destruct rest as [|c rest]; [discriminate|].
  destruct (name_char c) eqn:Hc; [|discriminate].
  intros H. apply greedy_sound in H as (m1 & rest1 & _ & Hm1 & H).
  apply greedy_sound in H as (m2 & rest2 & _ & _ & H).
  destruct (Re.literal _ rest2); [|discriminate].
  injection H as _ <-. constructor; assumption.
Qed.

Lemma findall_from_matched (r : Re.re) (g : str) (s : str) :
  forall skip,
    In g (Re.findall_from r skip s) ->
    exists tail m, Re.match_at r tail = Some (m, g).
Proof.
  induction s as [|c s IH]; intros skip Hin; [destruct Hin|].
  cbn [Re.findall_from] in Hin. destruct skip as [|n]; [|exact (IH _ Hin)].
  destruct (Re.match_at r (c :: s)) as [[m g']|] eqn:Hmatch;
    [|exact (IH _ Hin)].
  destruct Hin as [->|Hin]; [|exact (IH _ Hin)].
  exists (c :: s), m. exact Hmatch.
Qed.

Lemma drop_while_fixed (p : N -> bool) (s : str) :
  (forall c rest, s = c :: rest -> p c = false) -> drop_while p s = s.
Proof.
  destruct s as [|c s]; [reflexivity|]. intros H. cbn [drop_while].
  rewrite (H c s eq_refl). reflexivity.
Qed.

Lemma strip_strip (s : str) : strip (strip s) = strip s.
Proof.
  unfold strip, lstrip_by.
  set (u := rstrip_by is_space s).
  assert (Hfix : rstrip_by is_space (drop_while is_space u)
                 = drop_while is_space u).
  { unfold rstrip_by at 1.
    destruct (drop_while_split is_space u) as (a & Hu & _).
    rewrite drop_while_fixed; [apply rev_involutive|].
    intros c rest Hrev.
    assert (Hu' : drop_while is_space (rev s) = c :: rest ++ rev a).
    { replace (drop_while is_space (rev s)) with (rev u)
        by (unfold u, rstrip_by; apply rev_involutive).
      rewrite Hu at 1. rewrite rev_app_distr, Hrev. reflexivity. }
    exact (drop_while_head _ _ _ _ Hu'). }
  rewrite Hfix. apply drop_while_fixed.
  intros c rest Hhead. exact (drop_while_head _ _ _ _ Hhead).
Qed.

Lemma name_char_spec (c : N) :
  name_char c = true <-> c <> raquo /\ c <> rsaquo.
Proof.
  unfold name_char. rewrite andb_true_iff, !negb_true_iff, !N.eqb_neq. tauto.
Qed.

End ExtractedNames.

(** X22.  For every text, the names that [_extract_artifact_references]
    returns are pairwise distinct, have no white space at either end and
    hold neither of the two characters the name of a token must not
    have. *)
Theorem extracted_names_clean (html_content : str) :
  NoDup (_extract_artifact_references html_content)
  /\ Forall (fun name =>
               strip name = name
               /\ Forall (fun c => c <> raquo /\ c <> rsaquo) name)
       (_extract_artifact_references html_content).
Proof.
  unfold _extract_artifact_references. rewrite fromkeys_first_occurrences.
  split; [apply first_occurrences_NoDup|].
  rewrite List.Forall_forall. intros name Hin.
  apply (proj1 (first_occurrences_In _ _)) in Hin.
  apply List.in_map_iff in Hin as (g & <- & Hg).
  split; [apply strip_strip|].
  apply findall_from_matched in Hg as (tail & m & Hmatch).
  apply match_extract_group in Hmatch.
  apply (strip_Forall (fun c => c <> raquo /\ c <> rsaquo)).
  apply (List.Forall_impl _ (P := fun c => name_char c = true));
    [|exact Hmatch].
  intros c Hc. apply name_char_spec. exact Hc.
Qed.

Lemma hosted_file_location_witness :
  hosted_path Fixture.server (lit "/tmp/escape.txt") = lit "/tmp/escape.txt"
  /\ exists server earlier content,
       _web_server_instance Fixture.initial = Some server
       /\ trace (snd (Fixture.run Fixture.shop (lit "photo.jpg")
                        (Some (lit "/tmp/escape.txt")) None))
          = earlier ++ [WriteFile (hosted_path server (lit "/tmp/escape.txt"))
                          content]
       /\ (forall c, Some (lit "/tmp/escape.txt") = Some c ->
                     contains 46 c = true -> lit "/tmp/escape.txt" = c)
       /\ (PosixPath.is_absolute (PosixPath.parse (lit "/tmp/escape.txt")) = true ->
           hosted_path server (lit "/tmp/escape.txt")
           = PosixPath.to_str (PosixPath.parse (lit "/tmp/escape.txt")))
       /\ (PosixPath.is_absolute (PosixPath.parse (lit "/tmp/escape.txt")) = false ->
           hosted_path server (lit "/tmp/escape.txt")
           = PosixPath.to_str
               {| PosixPath.root :=
                    PosixPath.root (PosixPath.parse (host_directory server));
                  PosixPath.parts :=
                    PosixPath.parts (PosixPath.parse (host_directory server))
                      ++ PosixPath.parts
                           (PosixPath.parse (lit "/tmp/escape.txt")) |}).
Proof.
  split; [reflexivity|].
  apply (hosted_file_location unit (Fixture.list_versions Fixture.shop)
           (Fixture.load_artifact Fixture.shop) Fixture.write_file Fixture.int
           (lit "photo.jpg") (Some (lit "/tmp/escape.txt")) Fixture.context None
           Fixture.initial (lit "Artifact hosted successfully")
           (lit "photo.jpg") 3%Z (lit "/tmp/escape.txt")
           (lit "http://127.0.0.1:8080//tmp/escape.txt") []).
  vm_compute; reflexivity.
Defined.

